(** * SynthGraphix server: daily task allocation, task completion,
      referral crediting and bonus redemption.

    A shallow embedding of the Express/SQLite server
    (the main server file, [db.js], [referrals.js], [tasks_transcription.js]
    and the auth router) together with the properties of its
    allocation engine and redemption ledger. *)

From Stdlib Require Import ZArith NArith QArith Lia List Bool String Ascii.
From stdpp Require Import base decidable option list sorting gmap sets.

Local Open Scope Z_scope.

(* ===================================================================== *)
(** ** JavaScript strings *)
(* ===================================================================== *)

Module Js.

(** A JavaScript string is a sequence of UTF-16 code units. *)
Abbreviation jsstring := (list N).

(** ASCII literals. *)
Definition js (s : string) : jsstring :=
  List.map (fun a => N.of_nat (nat_of_ascii a)) (list_ascii_of_string s).

Definition CR : N := 13%N.
Definition SP : N := 32%N.
Definition QUOT : N := 34%N.          (* straight double quote *)
Definition APOS : N := 39%N.          (* apostrophe *)
Definition LSQUO : N := 0x2018%N.     (* left single curly quote  *)
Definition RSQUO : N := 0x2019%N.     (* right single curly quote *)
Definition LDQUO : N := 0x201C%N.     (* left double curly quote  *)
Definition RDQUO : N := 0x201D%N.     (* right double curly quote *)

(** The class [\s] of a regular expression, which is also what
    [String.prototype.trim] strips: WhiteSpace and LineTerminator. *)
Definition is_ws (c : N) : bool :=
  ((9 <=? c) && (c <=? 13) || (c =? 32) || (c =? 0xA0) || (c =? 0x1680)
   || (0x2000 <=? c) && (c <=? 0x200A)
   || (c =? 0x2028) || (c =? 0x2029) || (c =? 0x202F) || (c =? 0x205F)
   || (c =? 0x3000) || (c =? 0xFEFF))%N.

Fixpoint drop_ws (s : jsstring) : jsstring :=
  match s with
  | [] => []
  | c :: r => if is_ws c then drop_ws r else s
  end.

(** [s.trim()] *)
Definition trim (s : jsstring) : jsstring :=
  reverse (drop_ws (reverse (drop_ws s))).

(** [replace(/\r/g, empty)]: every carriage return is deleted. *)
Definition strip_cr (s : jsstring) : jsstring :=
  List.filter (fun c => negb (c =? CR)%N) s.

(** The replace of the class of U+201C and U+201D by the straight double
    quote. *)
Definition straight_double (s : jsstring) : jsstring :=
  List.map (fun c => if ((c =? LDQUO) || (c =? RDQUO))%N then QUOT else c) s.

(** The replace of the class holding U+2019 alone by the apostrophe. *)
Definition straight_single (s : jsstring) : jsstring :=
  List.map (fun c => if (c =? RSQUO)%N then APOS else c) s.

(** The replace of every run [\s+] by one space: [in_run] tells that the previous code unit
    belonged to the run being replaced. *)
Fixpoint squeeze (in_run : bool) (s : jsstring) : jsstring :=
  match s with
  | [] => []
  | c :: r =>
      if is_ws c then (if in_run then squeeze true r else SP :: squeeze true r)
      else c :: squeeze false r
  end.

Definition collapse_ws (s : jsstring) : jsstring := squeeze false s.

(** A JavaScript number: a double is NaN, an infinity or a rational. *)
Inductive jsnum : Type :=
| JsNaN
| JsInf (negative : bool)
| JsFin (q : Q).

(** [Number.isFinite] *)
Definition num_isFinite (n : jsnum) : bool :=
  match n with JsFin _ => true | _ => false end.

(** The integer a number is, when it is one. *)
Definition num_int (n : jsnum) : option Z :=
  match n with
  | JsFin q => if (Qden (Qred q) =? 1)%positive then Some (Qnum (Qred q)) else None
  | _ => None
  end.

(** [Number.isInteger] *)
Definition num_isInteger (n : jsnum) : bool :=
  match num_int n with Some _ => true | None => false end.

(** Truthiness of a number: NaN and zero are falsy. *)
Definition num_truthy (n : jsnum) : bool :=
  match n with
  | JsNaN => false
  | JsInf _ => true
  | JsFin q => negb (Qnum q =? 0)
  end.

(** Whether an SQL comparison [column = ?] of an INTEGER key with the
    bound number holds. *)
Definition num_is (n : jsnum) (key : Z) : bool :=
  match num_int n with
  | Some z => z =? key
  | None => false
  end.

(** The value a parsed JSON body holds. In an object the last of several
    equal keys is the one that counts. *)
#[warnings="-register-all"]
Inductive json : Type :=
| JNull
| JBool (b : bool)
| JNum (n : jsnum)
| JStr (s : jsstring)
| JArr (items : list json)
| JObj (fields : list (jsstring * json)).

Fixpoint field_of (key : jsstring) (fields : list (jsstring * json)) : option json :=
  match fields with
  | [] => None
  | (k, v) :: rest =>
      match field_of key rest with
      | Some v' => Some v'
      | None => if decide (k = key) then Some v else None
      end
  end.

End Js.
Export Js.

(* ===================================================================== *)
(** ** The text normalisation of the transcription checker *)
(* ===================================================================== *)

Section Normalize.

(** [String.prototype.toLowerCase] comes from the JavaScript engine and
    its Unicode tables; it is a parameter of the embedding. *)
Variable toLowerCase : jsstring -> jsstring.

(** Everything [normalize] does before lower-casing. On a string [s]
    the coercion [String(s || empty)] is [s] itself. *)
Definition tidy (s : jsstring) : jsstring :=
  trim (collapse_ws (straight_single (straight_double (strip_cr s)))).

Definition normalize (s : jsstring) : jsstring := toLowerCase (tidy s).

End Normalize.

(** Lower-casing of the letters of Basic Latin and Latin-1; every other
    code unit is kept. It stands in for the engine where a concrete string
    is evaluated. *)
Definition lower_unit (c : N) : N :=
  if ((65 <=? c) && (c <=? 90))%N then (c + 32)%N
  else if ((0xC0 <=? c) && (c <=? 0xDE) && negb (c =? 0xD7))%N then (c + 32)%N
  else c.

Definition toLowerCase_latin (s : jsstring) : jsstring := List.map lower_unit s.

(* ===================================================================== *)
(** ** The SQLite store *)
(* ===================================================================== *)

Module Db.

(** Rows keep the columns the handlers below read or write. Integers are
    unbounded; instants are seconds since the epoch, and a date text
    (a [day_key], the value of SQLite's [date(...)]) is the number of the
    civil day it names. *)

Record user := mkUser {
  u_id : Z;
  username : jsstring;
  email : jsstring;
  password_hash : jsstring;
  referral_code : option jsstring;
  referred_by : option Z;
  balance_ksh : Z;
  bonus_ksh : Z;
  phone : option jsstring
}.

Record task := mkTask {
  t_id : Z;
  t_type : jsstring;
  category : jsstring;
  reward_ksh : Z;
  active : Z;
  t_answer_text : option jsstring
}.

Record daily_task := mkDaily {
  dt_id : Z;
  dt_user_id : Z;
  day_key : Z;
  dt_task_id : Z;
  assigned_at : Z;
  completed_at : option Z;
  dt_answer_text : option jsstring
}.

Record task_completion := mkCompletion {
  tc_id : Z;
  tc_user_id : Z;
  tc_task_id : Z;
  tc_reward_ksh : Z;
  tc_answer_text : option jsstring;
  created_at : Z
}.

Record assignment := mkAssignment {
  a_user_id : Z;
  a_day : Z;
  a_task_id : Z
}.

Record referral := mkReferral {
  referrer_id : Z;
  referred_user_id : Z;
  bonus_awarded_ksh : Z
}.

Record bonus_redemption := mkRedemption {
  br_user_id : Z;
  amount_ksh : Z
}.

Record activation_fee := mkActivation {
  af_user_id : Z;
  fee_ksh : Z;
  paid_ksh : Z;
  af_paid : bool
}.

Record audit_row := mkAudit {
  admin_id : Z;
  action : string;
  entity : string;
  entity_id : option jsnum
}.

Record db := mkDb {
  users : list user;
  tasks : list task;
  daily_tasks : list daily_task;
  task_completions : list task_completion;
  daily_task_assignments : list assignment;
  referrals : list referral;
  bonus_redemptions : list bonus_redemption;
  activation_fees : list activation_fee;
  app_settings : gmap jsstring jsstring;
  admin_audit : list audit_row;
  (* sqlite_sequence, the high-water marks of the AUTOINCREMENT keys *)
  seq_users : Z;
  seq_daily_tasks : Z;
  seq_task_completions : Z
}.

Definition with_users (f : list user -> list user) (d : db) : db :=
  mkDb (f (users d)) (tasks d) (daily_tasks d) (task_completions d)
       (daily_task_assignments d) (referrals d) (bonus_redemptions d)
       (activation_fees d) (app_settings d) (admin_audit d)
       (seq_users d) (seq_daily_tasks d) (seq_task_completions d).

Definition with_daily_tasks (f : list daily_task -> list daily_task) (d : db) : db :=
  mkDb (users d) (tasks d) (f (daily_tasks d)) (task_completions d)
       (daily_task_assignments d) (referrals d) (bonus_redemptions d)
       (activation_fees d) (app_settings d) (admin_audit d)
       (seq_users d) (seq_daily_tasks d) (seq_task_completions d).

Definition with_task_completions
    (f : list task_completion -> list task_completion) (d : db) : db :=
  mkDb (users d) (tasks d) (daily_tasks d) (f (task_completions d))
       (daily_task_assignments d) (referrals d) (bonus_redemptions d)
       (activation_fees d) (app_settings d) (admin_audit d)
       (seq_users d) (seq_daily_tasks d) (seq_task_completions d).

Definition with_referrals (f : list referral -> list referral) (d : db) : db :=
  mkDb (users d) (tasks d) (daily_tasks d) (task_completions d)
       (daily_task_assignments d) (f (referrals d)) (bonus_redemptions d)
       (activation_fees d) (app_settings d) (admin_audit d)
       (seq_users d) (seq_daily_tasks d) (seq_task_completions d).

Definition with_bonus_redemptions
    (f : list bonus_redemption -> list bonus_redemption) (d : db) : db :=
  mkDb (users d) (tasks d) (daily_tasks d) (task_completions d)
       (daily_task_assignments d) (referrals d) (f (bonus_redemptions d))
       (activation_fees d) (app_settings d) (admin_audit d)
       (seq_users d) (seq_daily_tasks d) (seq_task_completions d).

Definition with_activation_fees
    (f : list activation_fee -> list activation_fee) (d : db) : db :=
  mkDb (users d) (tasks d) (daily_tasks d) (task_completions d)
       (daily_task_assignments d) (referrals d) (bonus_redemptions d)
       (f (activation_fees d)) (app_settings d) (admin_audit d)
       (seq_users d) (seq_daily_tasks d) (seq_task_completions d).

Definition with_admin_audit (f : list audit_row -> list audit_row) (d : db) : db :=
  mkDb (users d) (tasks d) (daily_tasks d) (task_completions d)
       (daily_task_assignments d) (referrals d) (bonus_redemptions d)
       (activation_fees d) (app_settings d) (f (admin_audit d))
       (seq_users d) (seq_daily_tasks d) (seq_task_completions d).

Definition with_seqs (su sd sc : Z) (d : db) : db :=
  mkDb (users d) (tasks d) (daily_tasks d) (task_completions d)
       (daily_task_assignments d) (referrals d) (bonus_redemptions d)
       (activation_fees d) (app_settings d) (admin_audit d) su sd sc.

(** The key an AUTOINCREMENT column gives the next row: one more than the
    largest key the table holds or ever held. *)
Definition next_id (seq : Z) (ids : list Z) : Z :=
  Z.max seq (fold_right Z.max 0 ids) + 1.

Definition has_user (d : db) (uid : Z) : bool :=
  existsb (fun u => u_id u =? uid) (users d).
Definition has_task (d : db) (tid : Z) : bool :=
  existsb (fun t => t_id t =? tid) (tasks d).

End Db.
Export Db.

(* ===================================================================== *)
(** ** The connection: statements, transactions, faults and randomness *)
(* ===================================================================== *)

Module Sql.

Inductive exn : Type :=
| SqliteFault        (* the storage layer rejects the statement: busy, I/O, full *)
| SqliteConstraint   (* UNIQUE or FOREIGN KEY violation *)
| SqliteTxn          (* BEGIN inside a transaction, COMMIT or ROLLBACK outside one *)
| ZodError           (* schema.parse rejects the body *)
| JsError (msg : string).

(** What awaiting a promise gives. [Spin] marks a loop that was still
    running when the fuel of the embedding ran out; no handler catches it. *)
Inductive outcome (A : Type) : Type :=
| Ok (a : A)
| Throw (e : exn)
| Spin.
Arguments Ok {A} a.
Arguments Throw {A} e.
Arguments Spin {A}.

(** The single shared connection [db] of db.js and its surroundings:
    - [w_db]: the tables as the connection sees them;
    - [w_txn]: the tables as they were at BEGIN while a transaction is open;
    - [w_faults]: for each coming statement, whether storage rejects it
      (none once the list is used up);
    - [w_random]: the coming draws of [Math.random] and of SQLite's
      [RANDOM()] (0 once the list is used up);
    - [w_now]: the clock, in seconds since the epoch. *)
Record world := mkWorld {
  w_db : db;
  w_txn : option db;
  w_faults : list bool;
  w_random : list nat;
  w_now : Z
}.

Definition set_db (d : db) (w : world) : world :=
  mkWorld d (w_txn w) (w_faults w) (w_random w) (w_now w).
Definition set_txn (t : option db) (w : world) : world :=
  mkWorld (w_db w) t (w_faults w) (w_random w) (w_now w).
Definition set_faults (f : list bool) (w : world) : world :=
  mkWorld (w_db w) (w_txn w) f (w_random w) (w_now w).
Definition set_random (r : list nat) (w : world) : world :=
  mkWorld (w_db w) (w_txn w) (w_faults w) r (w_now w).

(** What a crash or a fresh connection finds: an open transaction is lost. *)
Definition committed (w : world) : db :=
  match w_txn w with
  | Some snapshot => snapshot
  | None => w_db w
  end.

Definition M (A : Type) : Type := world -> outcome A * world.

Definition ret {A} (a : A) : M A := fun w => (Ok a, w).

Definition bind {A B} (m : M A) (k : A -> M B) : M B :=
  fun w =>
    match m w with
    | (Ok a, w') => k a w'
    | (Throw e, w') => (Throw e, w')
    | (Spin, w') => (Spin, w')
    end.

Definition throw {A} (e : exn) : M A := fun w => (Throw e, w).

(** [try { m } catch (e) { h e }] *)
Definition try_catch {A} (m : M A) (h : exn -> M A) : M A :=
  fun w =>
    match m w with
    | (Throw e, w') => h e w'
    | r => r
    end.

Notation "x <- m ;; k" := (bind m (fun x => k))
  (at level 100, m at next level, right associativity).
Notation "m ;;; k" := (bind m (fun _ => k))
  (at level 100, right associativity).

(** Every statement first meets the storage layer. *)
Definition tick : M unit :=
  fun w =>
    match w_faults w with
    | true :: fs => (Throw SqliteFault, set_faults fs w)
    | false :: fs => (Ok tt, set_faults fs w)
    | [] => (Ok tt, w)
    end.

(** [get(sql)] and [all(sql)]: a read of the tables. *)
Definition query {A} (q : db -> A) : M A :=
  tick ;;; fun w => (Ok (q (w_db w)), w).

(** [run(sql)]: a write; [None] is a constraint violation, which leaves
    the tables as they were. *)
Definition run {A} (stmt : db -> option (A * db)) : M A :=
  tick ;;; fun w =>
    match stmt (w_db w) with
    | Some (a, d) => (Ok a, set_db d w)
    | None => (Throw SqliteConstraint, w)
    end.

Definition run_begin : M unit :=
  tick ;;; fun w =>
    match w_txn w with
    | Some _ => (Throw SqliteTxn, w)
    | None => (Ok tt, set_txn (Some (w_db w)) w)
    end.

Definition run_commit : M unit :=
  tick ;;; fun w =>
    match w_txn w with
    | Some _ => (Ok tt, set_txn None w)
    | None => (Throw SqliteTxn, w)
    end.

Definition run_rollback : M unit :=
  tick ;;; fun w =>
    match w_txn w with
    | Some snapshot => (Ok tt, set_txn None (set_db snapshot w))
    | None => (Throw SqliteTxn, w)
    end.

(** One draw, reduced to [0 .. n-1]: [Math.floor(Math.random() * n)]. *)
Definition random_below (n : nat) : M nat :=
  fun w =>
    match w_random w with
    | r :: rs => (Ok (r mod n)%nat, set_random rs w)
    | [] => (Ok 0%nat, w)
    end.

(** [get(... ORDER BY RANDOM() LIMIT 1)]: some row among those selected. *)
Definition query_random {A} (q : db -> list A) : M (option A) :=
  rows <- query q ;;
  match rows with
  | [] => ret None
  | _ => i <- random_below (length rows) ;; ret (rows !! i)
  end.

Definition clock : M Z := fun w => (Ok (w_now w), w).

(** The date in Nairobi (UTC+3, no daylight saving) of an instant. *)
Definition nairobi_day (t : Z) : Z := (t + 3 * 3600) / 86400.

End Sql.
Export Sql.

(* ===================================================================== *)
(** ** Settings *)
(* ===================================================================== *)

Module Settings.

Definition digit_val (c : N) : option Z :=
  if ((48 <=? c) && (c <=? 57))%N then Some (Z.of_N c - 48) else None.

(** The value of the longest prefix of decimal digits, [None] when the
    string does not start with a digit. *)
Fixpoint digits_prefix (s : jsstring) (acc : option Z) : option Z :=
  match s with
  | [] => acc
  | c :: r =>
      match digit_val c with
      | Some v => digits_prefix r (Some (10 * default 0 acc + v))
      | None => acc
      end
  end.

(** [Number.parseInt(s, 10)], [None] for NaN. The rounding of integers
    beyond 2^53 to a double is not modelled. *)
Definition parseInt (s : jsstring) : option Z :=
  let s1 := drop_ws s in
  let signed :=
    match s1 with
    | c :: r => if (c =? 45)%N then (true, r)
                else if (c =? 43)%N then (false, r) else (false, s1)
    | [] => (false, [])
    end in
  match digits_prefix (snd signed) None with
  | Some n => Some (if fst signed then - n else n)
  | None => None
  end.

(** [Number.isFinite] on the result of [parseInt]: a digit string too
    long for a double reads as Infinity. *)
Definition isFinite (n : option Z) : bool :=
  match n with
  | Some z => Z.abs z <? 2 ^ 1024
  | None => false
  end.

(** [getSetting(key, fallback)] *)
Definition getSetting (key : jsstring) (fallback : option jsstring)
  : M (option jsstring) :=
  row <- query (fun d => app_settings d !! key) ;;
  ret (match row with Some v => Some v | None => fallback end).

(** [getIntSetting(key, fallback)] *)
Definition getIntSetting (key : jsstring) (fallback : Z) : M Z :=
  v <- getSetting key None ;;
  let n := parseInt (default [] v) in
  ret (if isFinite n then default fallback n else fallback).

End Settings.
Export Settings.

(* ===================================================================== *)
(** ** Responses and row helpers *)
(* ===================================================================== *)

Module Http.

(** The JSON bodies the handlers send. *)
Inductive payload : Type :=
| PError (msg : string)                 (* error: a fixed message *)
| PThrown (e : exn)                     (* error: the message of what was caught *)
| PThreshold (threshold : Z)            (* error: Bonus must reach KSH n to redeem *)
| PWallet (me : option (Z * Z))         (* ok, balance_ksh, bonus_ksh of the row read back *)
| PRedeemed (redeemed balance bonus : Z)
| PCompleted (balance remaining : Z)
| PCompletedDaily (balance completedToday remainingToday : Z)
| PToken (uid : Z)
| PRow (u : option user).

Record response := mkResponse { status : Z; body : payload }.

(** [SELECT ... FROM users WHERE id = ?] *)
Definition user_by_id (uid : Z) (d : db) : option user :=
  find (fun u => u_id u =? uid) (users d).

(** [UPDATE users SET ... WHERE id = ?]: every row of that key. *)
Definition update_user (uid : Z) (f : user -> user) (d : db) : db :=
  with_users (List.map (fun u => if u_id u =? uid then f u else u)) d.

Definition set_balance (b : Z) (u : user) : user :=
  mkUser (u_id u) (username u) (email u) (password_hash u) (referral_code u)
         (referred_by u) b (bonus_ksh u) (phone u).
Definition set_bonus (b : Z) (u : user) : user :=
  mkUser (u_id u) (username u) (email u) (password_hash u) (referral_code u)
         (referred_by u) (balance_ksh u) b (phone u).

Definition add_balance (x : Z) (u : user) : user := set_balance (balance_ksh u + x) u.
Definition add_bonus (x : Z) (u : user) : user := set_bonus (bonus_ksh u + x) u.

End Http.
Export Http.

(* ===================================================================== *)
(** ** Redemption ledger *)
(* ===================================================================== *)

Module Redemption.

(** POST /api/referrals/redeem of the main server file. The handler has
    no [try]: a rejected statement leaves the promise rejected. *)
Definition redeem (uid : Z) : M response :=
  u <- query (user_by_id uid) ;;
  match u with
  | None => ret (mkResponse 404 (PError "User not found"))
  | Some u =>
      threshold <- getIntSetting (js "referral_redeem_threshold_ksh") 1000 ;;
      transfer <- getIntSetting (js "referral_redeem_transfer_ksh") 1000 ;;
      if bonus_ksh u <? threshold then
        ret (mkResponse 400 (PThreshold threshold))
      else
        run (fun d => Some (tt, update_user uid
                                  (fun r => add_bonus (- transfer) (add_balance transfer r)) d)) ;;;
        me <- query (user_by_id uid) ;;
        ret (mkResponse 200
               (PWallet (option_map (fun r => (balance_ksh r, bonus_ksh r)) me)))
  end.

(** Modelled from the spec: the table bonus_redemptions, which no file at
    hand creates, holds the audit row (user, amount) of each redemption;
    its INSERT appends one. *)
Definition insert_redemption (uid amount : Z) (d : db) : option (unit * db) :=
  Some (tt, with_bonus_redemptions (fun l => l ++ [mkRedemption uid amount]) d).

(** POST /redeem of referrals.js: exactly KSH 1000 per click. *)
Definition redeem_fixed (userId : Z) : M response :=
  me <- query (user_by_id userId) ;;
  match me with
  | None => ret (mkResponse 404 (PError "User not found"))
  | Some me =>
      let bonus := bonus_ksh me in
      if bonus <? 1000 then
        ret (mkResponse 400 (PError "Bonus must reach KSH 1000 to redeem."))
      else
        let redeemAmount := 1000 in
        run (fun d => Some (tt, update_user userId
                                  (fun r => add_bonus (- redeemAmount)
                                              (add_balance redeemAmount r)) d)) ;;;
        run (insert_redemption userId redeemAmount) ;;;
        after <- query (user_by_id userId) ;;
        match after with
        | None => throw (JsError "Cannot read properties of undefined")
        | Some after =>
            ret (mkResponse 200
                   (PRedeemed redeemAmount (balance_ksh after) (bonus_ksh after)))
        end
  end.

End Redemption.
Export Redemption.

(* ===================================================================== *)
(** ** Administrative overrides *)
(* ===================================================================== *)

Module Admin.

(** [z.object({ field: z.number().int().min(0) }).parse(body)]: the body
    is an object whose field is a number, an integer, and at least 0. *)
Definition parse_amount (field : jsstring) (body : json) : option Z :=
  match body with
  | JObj fields =>
      match field_of field fields with
      | Some (JNum n) =>
          match num_int n with
          | Some z => if 0 <=? z then Some z else None
          | None => None
          end
      | _ => None
      end
  | _ => None
  end.

(** [audit(adminId, action, entity, entityId)]: non-blocking, its own
    failure is swallowed. *)
Definition audit (adminId : Z) (act ent : string) (entityId : jsnum) : M unit :=
  try_catch
    (run (fun d => Some (tt, with_admin_audit
            (fun l => l ++ [mkAudit adminId act ent
                              (if num_truthy entityId then Some entityId else None)]) d)))
    (fun _ => ret tt).

(** [UPDATE users SET ... WHERE id = ?] with the number of the path. *)
Definition update_user_num (id : jsnum) (f : user -> user) (d : db) : db :=
  with_users (List.map (fun u => if num_is id (u_id u) then f u else u)) d.

Definition user_by_num (id : jsnum) (d : db) : option user :=
  find (fun u => num_is id (u_id u)) (users d).

Definition respond_caught (st : Z) (m : M response) : M response :=
  try_catch m (fun e => ret (mkResponse st (PThrown e))).

(** POST /api/admin/users/:id/balance, past [requireAdmin]. *)
Definition admin_set_balance (adminId : Z) (id : jsnum) (body : json) : M response :=
  respond_caught 400
    (match parse_amount (js "balance_ksh") body with
     | None => throw ZodError
     | Some amount =>
         if negb (num_isFinite id) then ret (mkResponse 400 (PError "Invalid id"))
         else
           run (fun d => Some (tt, update_user_num id (set_balance amount) d)) ;;;
           audit adminId "set_balance" "user" id ;;;
           u <- query (user_by_num id) ;;
           ret (mkResponse 200 (PRow u))
     end).

(** POST /api/admin/users/:id/bonus, past [requireAdmin]. *)
Definition admin_set_bonus (adminId : Z) (id : jsnum) (body : json) : M response :=
  respond_caught 400
    (match parse_amount (js "bonus_ksh") body with
     | None => throw ZodError
     | Some amount =>
         if negb (num_isFinite id) then ret (mkResponse 400 (PError "Invalid id"))
         else
           run (fun d => Some (tt, update_user_num id (set_bonus amount) d)) ;;;
           audit adminId "set_bonus" "user" id ;;;
           u <- query (user_by_num id) ;;
           ret (mkResponse 200 (PRow u))
     end).

End Admin.
Export Admin.

(* ===================================================================== *)
(** ** Task completion *)
(* ===================================================================== *)

Module Completion.

Record complete_request := mkCompleteRequest {
  cr_user : Z;                        (* req.user.id *)
  cr_id : jsnum;                      (* Number(req.params.id) *)
  cr_answer_text : option jsstring;   (* req.body.answer_text, as toString() renders it *)
  cr_answer : option jsstring         (* req.body.answer *)
}.

(** [SELECT id, completed_at FROM daily_tasks WHERE user_id=? AND day_key=? AND task_id=?] *)
Definition assigned_row (uid dayKey : Z) (taskId : jsnum) (d : db) : option daily_task :=
  find (fun r => (dt_user_id r =? uid) && (day_key r =? dayKey) && num_is taskId (dt_task_id r))
       (daily_tasks d).

(** [SELECT ... FROM tasks WHERE id=? AND active=1] *)
Definition active_task (taskId : jsnum) (d : db) : option task :=
  find (fun t => num_is taskId (t_id t) && (active t =? 1)) (tasks d).

(** [UPDATE daily_tasks SET completed_at=CURRENT_TIMESTAMP, answer_text=? WHERE id=?] *)
Definition stamp (rowId now : Z) (ans : jsstring) (d : db) : db :=
  with_daily_tasks
    (List.map (fun r => if dt_id r =? rowId
                        then mkDaily (dt_id r) (dt_user_id r) (day_key r) (dt_task_id r)
                                     (assigned_at r) (Some now) (Some ans)
                        else r)) d.

(** [INSERT INTO task_completions ...]: with foreign keys on, the user and
    the task must exist. *)
Definition insert_completion (uid : Z) (taskId : jsnum) (reward : Z)
    (ans : option jsstring) (now : Z) (d : db) : option (unit * db) :=
  match num_int taskId with
  | Some tid =>
      if has_user d uid && has_task d tid then
        let key := next_id (seq_task_completions d) (List.map tc_id (task_completions d)) in
        Some (tt, with_seqs (seq_users d) (seq_daily_tasks d) key
                    (with_task_completions
                       (fun l => l ++ [mkCompletion key uid tid reward ans now]) d))
      else None
  | None => None
  end.

(** [UPDATE users SET balance_ksh = balance_ksh + ? WHERE id=?] *)
Definition credit (uid reward : Z) (d : db) : db :=
  update_user uid (add_balance reward) d.

(** [LIMIT ?]: a negative bound is no bound. *)
Definition sql_limit {A} (n : Z) (l : list A) : list A :=
  if n <? 0 then l else take (Z.to_nat n) l.

Definition by_dt_id (a b : daily_task) : Prop := dt_id a <= dt_id b.
#[global] Instance by_dt_id_dec a b : Decision (by_dt_id a b) := Z_le_dec _ _.

(** The rows of the day joined with their tasks, in the order of the key
    of the assignment. *)
Definition day_rows (uid dayKey limit : Z) (d : db) : list (daily_task * task) :=
  sql_limit limit
    (flat_map (fun r => List.map (fun t => (r, t))
                          (List.filter (fun t => t_id t =? dt_task_id r) (tasks d)))
       (merge_sort by_dt_id
          (List.filter (fun r => (dt_user_id r =? uid) && (day_key r =? dayKey))
                       (daily_tasks d)))).

Definition remaining_of (rows : list (daily_task * task)) : Z :=
  Z.of_nat (length (List.filter
     (fun r => match completed_at (fst r) with Some _ => false | None => true end) rows)).

(** The three writes of a completion, between BEGIN and COMMIT. *)
Definition complete_writes (uid : Z) (taskId : jsnum) (rowId reward now : Z)
    (ans : jsstring) : M unit :=
  run_begin ;;;
  try_catch
    (run (fun d => Some (tt, stamp rowId now ans d)) ;;;
     run (insert_completion uid taskId reward (Some ans) now) ;;;
     run (fun d => Some (tt, credit uid reward d)) ;;;
     run_commit)
    (fun e => run_rollback ;;; throw e).

(** POST /api/tasks/:id/complete, past [requireAuth]. *)
Definition complete (req : complete_request) : M response :=
  try_catch
    (now <- clock ;;
     let dayKey := nairobi_day now in
     let taskId := cr_id req in
     if negb (num_isFinite taskId) then ret (mkResponse 400 (PError "Invalid task id"))
     else
       let ans := trim (default (default [] (cr_answer req)) (cr_answer_text req)) in
       if Z.of_nat (length ans) <? 2 then ret (mkResponse 400 (PError "Answer is required"))
       else
         dt <- query (assigned_row (cr_user req) dayKey taskId) ;;
         match dt with
         | None => ret (mkResponse 400 (PError "Task not assigned for today"))
         | Some dt =>
             match completed_at dt with
             | Some _ => ret (mkResponse 400 (PError "Task already completed"))
             | None =>
                 task <- query (active_task taskId) ;;
                 match task with
                 | None => ret (mkResponse 404 (PError "Task not found"))
                 | Some task =>
                     complete_writes (cr_user req) taskId (dt_id dt) (reward_ksh task) now ans ;;;
                     me <- query (user_by_id (cr_user req)) ;;
                     limit <- getIntSetting (js "tasks_per_day") 10 ;;
                     rows <- query (day_rows (cr_user req) dayKey limit) ;;
                     ret (mkResponse 200
                            (PCompleted (default 0 (option_map balance_ksh me))
                                        (remaining_of rows)))
                 end
             end
         end)
    (fun e => ret (mkResponse 500 (PThrown e))).

Section Daily.

Variable toLowerCase : jsstring -> jsstring.

Record daily_request := mkDailyRequest {
  dr_user : Z;            (* req.user.id *)
  dr_id : jsnum;          (* Number(req.params.id) *)
  dr_body : option json   (* req.body *)
}.

(** [z.object({ transcription: z.string().min(1) }).parse(req.body || {})] *)
Definition parse_transcription (b : option json) : option jsstring :=
  match default (JObj []) b with
  | JObj fields =>
      match field_of (js "transcription") fields with
      | Some (JStr s) => if Z.of_nat (length s) <? 1 then None else Some s
      | _ => None
      end
  | _ => None
  end.

Definition completions_on (uid day : Z) (d : db) : list task_completion :=
  List.filter (fun c => (tc_user_id c =? uid) && (nairobi_day (created_at c) =? day))
              (task_completions d).

(** POST /daily/tasks/:id/complete of tasks_transcription.js, past
    [requireAuth] and once [initOnce] has run. *)
Definition complete_daily (req : daily_request) : M response :=
  try_catch
    (let userId := dr_user req in
     let taskId := dr_id req in
     if negb (num_truthy taskId) then ret (mkResponse 400 (PError "Invalid task id"))
     else
       now <- clock ;;
       day <- query (fun _ => nairobi_day now) ;;
       c <- query (fun d => Z.of_nat (length (completions_on userId day d))) ;;
       if 5 <=? c then
         ret (mkResponse 400 (PError "Daily limit reached (5/5). Come back after midnight."))
       else
         assigned <- query (fun d =>
           find (fun a => (a_user_id a =? userId) && (a_day a =? day)
                          && num_is taskId (a_task_id a))
                (daily_task_assignments d)) ;;
         match assigned with
         | None => ret (mkResponse 400 (PError "This task is not assigned to you today."))
         | Some _ =>
             already <- query (fun d =>
               find (fun c => num_is taskId (tc_task_id c)) (completions_on userId day d)) ;;
             match already with
             | Some _ => ret (mkResponse 400 (PError "Task already completed today."))
             | None =>
                 task <- query (active_task taskId) ;;
                 match task with
                 | None => ret (mkResponse 404 (PError "Task not found"))
                 | Some task =>
                     match parse_transcription (dr_body req) with
                     | None => throw ZodError
                     | Some transcription =>
                         if negb (bool_decide
                               (normalize toLowerCase transcription
                                = normalize toLowerCase (default [] (t_answer_text task))))
                         then ret (mkResponse 400
                                (PError "Transcription mismatch. Please try again carefully."))
                         else
                           run (insert_completion userId taskId (reward_ksh task) None now) ;;;
                           run (fun d => Some (tt, credit userId (reward_ksh task) d)) ;;;
                           me <- query (user_by_id userId) ;;
                           c2 <- query (fun d =>
                                   Z.of_nat (length (completions_on userId day d))) ;;
                           match me with
                           | None => throw (JsError "Cannot read properties of undefined")
                           | Some me =>
                               ret (mkResponse 200
                                      (PCompletedDaily (balance_ksh me) c2 (Z.max 0 (5 - c2))))
                           end
                     end
                 end
             end
         end)
    (fun e => ret (mkResponse 400 (PThrown e))).

End Daily.

End Completion.
Export Completion.

(* ===================================================================== *)
(** ** Registration and referral crediting *)
(* ===================================================================== *)

Module Registration.

Record register_data := mkRegisterData {
  rd_username : jsstring;
  rd_email : jsstring;
  rd_password : jsstring;
  rd_phone : jsstring;
  rd_referral : jsstring
}.

(** [z.string().min(n)] on a field that must be there. *)
Definition required_string (key : jsstring) (n : nat) (fields : list (jsstring * json))
  : option jsstring :=
  match field_of key fields with
  | Some (JStr s) => if (length s <? n)%nat then None else Some s
  | _ => None
  end.

(** [z.string().optional().default(empty)] *)
Definition optional_string (key : jsstring) (fields : list (jsstring * json))
  : option jsstring :=
  match field_of key fields with
  | None => Some []
  | Some (JStr s) => Some s
  | Some _ => None
  end.

Definition is_digit (c : N) : bool := ((48 <=? c) && (c <=? 57))%N.
Definition is_upper (c : N) : bool := ((65 <=? c) && (c <=? 90))%N.
Definition is_lower (c : N) : bool := ((97 <=? c) && (c <=? 122))%N.

(** The decimal text of a number below 10000 that has four digits. *)
Definition digits4 (n : nat) : jsstring :=
  List.map (fun k => (48 + N.of_nat (k mod 10))%N)
           [(n / 1000)%nat; (n / 100)%nat; (n / 10)%nat; n].

(** [SELECT id FROM users WHERE referral_code = ?] *)
Definition user_by_code (code : jsstring) (d : db) : option user :=
  find (fun u => bool_decide (referral_code u = Some code)) (users d).

(** [INSERT INTO users ...] with zero balance and bonus: the name, the
    address and the code are UNIQUE, the referrer must exist. *)
Definition insert_user (name mail hash : jsstring) (phone code : option jsstring)
    (referrer : option Z) (d : db) : option (Z * db) :=
  if existsb (fun u => bool_decide (username u = name)) (users d)
     || existsb (fun u => bool_decide (email u = mail)) (users d)
     || match code with
        | Some c => existsb (fun u => bool_decide (referral_code u = Some c)) (users d)
        | None => false
        end
     || match referrer with
        | Some r => negb (has_user d r)
        | None => false
        end
  then None
  else
    let key := next_id (seq_users d) (List.map u_id (users d)) in
    Some (key, with_seqs key (seq_daily_tasks d) (seq_task_completions d)
                 (with_users (fun l => l ++ [mkUser key name mail hash code referrer 0 0 phone]) d)).

(** [INSERT OR IGNORE INTO activation_fees (user_id, fee_ksh, paid_ksh, status)
    VALUES (?, ?, 0, unpaid)] *)
Definition insert_activation (uid fee : Z) (d : db) : option (unit * db) :=
  if existsb (fun a => af_user_id a =? uid) (activation_fees d) then Some (tt, d)
  else if has_user d uid then
    Some (tt, with_activation_fees (fun l => l ++ [mkActivation uid fee 0 false]) d)
  else None.

Definition ACTIVATION_FEE_KSH : Z := 100.

Section Register.

(** The address check of zod and the hash of bcryptjs belong to the
    libraries. *)
Variable zod_email : jsstring -> bool.
Variable bcrypt_hash : jsstring -> jsstring.

(** [RegisterSchema.parse] of the main server file. *)
Definition parse_register (b : json) : option register_data :=
  match b with
  | JObj fields =>
      match required_string (js "username") 3 fields,
            required_string (js "email") 0 fields,
            required_string (js "password") 6 fields,
            optional_string (js "referralCode") fields with
      | Some u, Some e, Some p, Some r =>
          if zod_email e then Some (mkRegisterData u e p [] r) else None
      | _, _, _, _ => None
      end
  | _ => None
  end.

(** [makeReferralCode(username)] *)
Definition makeReferralCode (name : jsstring) : M jsstring :=
  let kept := take 6 (List.filter (fun c => is_digit c || is_upper c || is_lower c) name) in
  let base := List.map (fun c => if is_lower c then (c - 32)%N else c) kept in
  let base := match base with [] => js "USER" | _ => base end in
  r <- random_below (9 * 1000) ;;
  ret (base ++ digits4 (1000 + r)).

(** The loop that looks, at most ten times, for a code not yet taken. *)
Fixpoint fresh_code (tries : nat) (name code : jsstring) : M jsstring :=
  match tries with
  | O => ret code
  | S tries' =>
      existsCode <- query (user_by_code code) ;;
      match existsCode with
      | None => ret code
      | Some _ => code' <- makeReferralCode name ;; fresh_code tries' name code'
      end
  end.

(** POST /api/auth/register of the main server file. *)
Definition register (b : json) : M response :=
  try_catch
    (match parse_register b with
     | None => throw ZodError
     | Some data =>
         existsEmail <- query (fun d =>
           find (fun u => bool_decide (email u = rd_email data)) (users d)) ;;
         match existsEmail with
         | Some _ => ret (mkResponse 400 (PError "Email already registered"))
         | None =>
             existsUser <- query (fun d =>
               find (fun u => bool_decide (username u = rd_username data)) (users d)) ;;
             match existsUser with
             | Some _ => ret (mkResponse 400 (PError "Username already taken"))
             | None =>
                 let continue (referredById : option Z) : M response :=
                   let password_hash := bcrypt_hash (rd_password data) in
                   code0 <- makeReferralCode (rd_username data) ;;
                   referral_code <- fresh_code 10 (rd_username data) code0 ;;
                   lastID <- run (insert_user (rd_username data) (rd_email data)
                                    password_hash None (Some referral_code) referredById) ;;
                   run (insert_activation lastID ACTIVATION_FEE_KSH) ;;;
                   (match referredById with
                    | Some rid =>
                        if rid =? 0 then ret tt
                        else
                          rb <- getIntSetting (js "referral_bonus_ksh") 100 ;;
                          if 0 <? rb
                          then run (fun d => Some (tt, update_user rid (add_bonus rb) d))
                          else ret tt
                    | None => ret tt
                    end) ;;;
                   ret (mkResponse 200 (PToken lastID)) in
                 match trim (rd_referral data) with
                 | [] => continue None
                 | code =>
                     ref <- query (user_by_code code) ;;
                     match ref with
                     | None => ret (mkResponse 400 (PError "Invalid referral code"))
                     | Some ref => continue (Some (u_id ref))
                     end
                 end
             end
         end
     end)
    (fun e => ret (mkResponse 400 (PThrown e))).

(** The schema of the auth router. *)
Definition parse_register_router (b : json) : option register_data :=
  match b with
  | JObj fields =>
      match required_string (js "username") 3 fields,
            required_string (js "email") 0 fields,
            required_string (js "password") 6 fields,
            optional_string (js "phone") fields,
            optional_string (js "referral_code") fields with
      | Some u, Some e, Some p, Some ph, Some r =>
          if zod_email e then Some (mkRegisterData u e p ph r) else None
      | _, _, _, _, _ => None
      end
  | _ => None
  end.

Definition code_chars : jsstring := js "ABCDEFGHJKLMNPQRSTUVWXYZ23456789".

Fixpoint random_code (n : nat) : M jsstring :=
  match n with
  | O => ret []
  | S n' =>
      i <- random_below (length code_chars) ;;
      rest <- random_code n' ;;
      ret (from_option (fun c => [c]) [] (code_chars !! i) ++ rest)
  end.

(** [generateReferralCode()]: eight characters, fifty tries. *)
Fixpoint generateReferralCode (tries : nat) : M jsstring :=
  match tries with
  | O => throw (JsError "Could not generate referral code")
  | S tries' =>
      code <- random_code 8 ;;
      taken <- query (user_by_code code) ;;
      match taken with
      | None => ret code
      | Some _ => generateReferralCode tries'
      end
  end.

(** Modelled from the spec: the table referrals, which no file at hand
    creates, is unique on the referred user; [INSERT OR IGNORE INTO
    referrals] is ignored when that user already has a row. *)
Definition insert_referral (referrer referred : Z) (d : db) : option (unit * db) :=
  if existsb (fun r => referred_user_id r =? referred) (referrals d) then Some (tt, d)
  else Some (tt, with_referrals (fun l => l ++ [mkReferral referrer referred 100]) d).

(** POST /register of the auth router. *)
Definition register_router (b : json) : M response :=
  try_catch
    (match parse_register_router b with
     | None => throw ZodError
     | Some body =>
         existing <- query (fun d =>
           find (fun u => bool_decide (email u = rd_email body)
                          || bool_decide (username u = rd_username body)) (users d)) ;;
         match existing with
         | Some _ => ret (mkResponse 400 (PError "Email or username already exists"))
         | None =>
             let continue (referrer : option user) : M response :=
               let password_hash := bcrypt_hash (rd_password body) in
               myCode <- generateReferralCode 50 ;;
               newUserId <- run (insert_user (rd_username body) (rd_email body)
                                   password_hash (Some (rd_phone body)) (Some myCode)
                                   (option_map u_id referrer)) ;;
               (match referrer with
                | Some referrer =>
                    run (insert_referral (u_id referrer) newUserId) ;;;
                    run (fun d => Some (tt, update_user (u_id referrer) (add_bonus 100) d))
                | None => ret tt
                end) ;;;
               user <- query (user_by_id newUserId) ;;
               match user with
               | None => throw (JsError "Cannot read properties of undefined")
               | Some user => ret (mkResponse 200 (PToken (u_id user)))
               end in
             match trim (rd_referral body) with
             | [] => continue None
             | referralCode =>
                 referrer <- query (user_by_code referralCode) ;;
                 match referrer with
                 | None => ret (mkResponse 400 (PError "Invalid referral code"))
                 | Some referrer => continue (Some referrer)
                 end
             end
         end
     end)
    (fun e => ret (mkResponse (match e with ZodError => 400 | _ => 500 end) (PThrown e))).

End Register.

End Registration.
Export Registration.

(* ===================================================================== *)
(** ** Daily allocation *)
(* ===================================================================== *)

Module Allocation.

(** The order of [ORDER BY] on a TEXT column, code unit by code unit. *)
Fixpoint lex_leb (a b : jsstring) : bool :=
  match a, b with
  | [], _ => true
  | _ :: _, [] => false
  | x :: a', y :: b' => (x <? y)%N || ((x =? y)%N && lex_leb a' b')
  end.

Definition text_le (a b : jsstring) : Prop := lex_leb a b = true.
#[global] Instance text_le_dec a b : Decision (text_le a b) :=
  decide (lex_leb a b = true).

(** [SELECT DISTINCT col FROM tasks WHERE active=1 ORDER BY col], then
    [.map(r => r.col).filter(Boolean)]. *)
Definition distinct_active (col : task -> jsstring) (d : db) : list jsstring :=
  List.filter (fun s => match s with [] => false | _ => true end)
    (merge_sort text_le
       (remove_dups (List.map col (List.filter (fun t => active t =? 1) (tasks d))))).

(** The rows of a user on a day. *)
Definition rows_of (uid dayKey : Z) (d : db) : list daily_task :=
  List.filter (fun r => (dt_user_id r =? uid) && (day_key r =? dayKey)) (daily_tasks d).

(** [SELECT task_id FROM daily_tasks WHERE user_id=? AND day_key=?] *)
Definition existing_ids (uid dayKey : Z) (d : db) : list Z :=
  List.map dt_task_id (rows_of uid dayKey d).

(** [SELECT DISTINCT t.col FROM daily_tasks dt JOIN tasks t ON t.id = dt.task_id
     WHERE dt.user_id=? AND dt.day_key=?] *)
Definition existing_col (col : task -> jsstring) (uid dayKey : Z) (d : db) : list jsstring :=
  remove_dups
    (flat_map (fun r => List.map col (List.filter (fun t => t_id t =? dt_task_id r) (tasks d)))
              (rows_of uid dayKey d)).

(** The two cleaning DELETEs. *)
Definition delete_orphans_of_users (d : db) : db :=
  with_daily_tasks (List.filter (fun r => has_user d (dt_user_id r))) d.
Definition delete_orphans_of_tasks (d : db) : db :=
  with_daily_tasks (List.filter (fun r => has_task d (dt_task_id r))) d.

(** [INSERT OR IGNORE INTO daily_tasks (user_id, day_key, task_id)]: a row
    of the same user, day and task makes the insert a no-op; the user and
    the task must exist. *)
Definition insert_daily (uid dayKey tid now : Z) (d : db) : option (unit * db) :=
  if existsb (fun r => (dt_user_id r =? uid) && (day_key r =? dayKey) && (dt_task_id r =? tid))
             (daily_tasks d)
  then Some (tt, d)
  else if has_user d uid && has_task d tid then
    let key := next_id (seq_daily_tasks d) (List.map dt_id (daily_tasks d)) in
    Some (tt, with_seqs (seq_users d) key (seq_task_completions d)
                (with_daily_tasks
                   (fun l => l ++ [mkDaily key uid dayKey tid now None None]) d))
  else None.

(** The locals of [ensureDailyTasks] that the three passes update. *)
Record picker := mkPicker {
  used : gset jsstring;
  usedCats : gset jsstring;
  picks : list Z
}.

Definition pick (row : task) (p : picker) : picker :=
  mkPicker ({[ t_type row ]} ∪ used p) ({[ category row ]} ∪ usedCats p)
           (picks p ++ [t_id row]).

Definition clear_used (p : picker) : picker :=
  mkPicker ∅ (usedCats p) (picks p).

(** [picks.length + existing.length >= limit] *)
Definition full (limit : Z) (existing : list Z) (p : picker) : bool :=
  limit <=? Z.of_nat (length (picks p) + length existing).

Definition swap {A} (i j : nat) (l : list A) : list A :=
  match l !! i, l !! j with
  | Some a, Some b => <[i := b]> (<[j := a]> l)
  | _, _ => l
  end.

(** The shuffle of the categories, [i] running down to 1. *)
Fixpoint shuffle {A} (i : nat) (l : list A) : M (list A) :=
  match i with
  | O => ret l
  | S i' => j <- random_below (S i) ;; shuffle i' (swap i j l)
  end.

Definition active_in_category (cat : jsstring) (d : db) : list task :=
  List.filter (fun t => (active t =? 1) && bool_decide (category t = cat)) (tasks d).
Definition active_of_type (typ : jsstring) (d : db) : list task :=
  List.filter (fun t => (active t =? 1) && bool_decide (t_type t = typ)) (tasks d).
Definition active_tasks (d : db) : list task :=
  List.filter (fun t => active t =? 1) (tasks d).

(** Category diversity first. *)
Fixpoint pass_categories (limit : Z) (existing : list Z) (categories : list jsstring)
    (p : picker) : M picker :=
  match categories with
  | [] => ret p
  | cat :: rest =>
      if full limit existing p then ret p
      else if bool_decide (cat ∈ usedCats p) then pass_categories limit existing rest p
      else
        row <- query_random (active_in_category cat) ;;
        match row with
        | None => pass_categories limit existing rest p
        | Some row =>
            if bool_decide (t_type row ∈ used p) then pass_categories limit existing rest p
            else pass_categories limit existing rest (pick row p)
        end
  end.

(** Then spread across types. *)
Fixpoint pass_types (limit : Z) (existing : list Z) (types : list jsstring)
    (p : picker) : M picker :=
  match types with
  | [] => ret p
  | typ :: rest =>
      if full limit existing p then ret p
      else if bool_decide (typ ∈ used p) then pass_types limit existing rest p
      else
        row <- query_random (active_of_type typ) ;;
        match row with
        | None => pass_types limit existing rest p
        | Some row => pass_types limit existing rest (pick row p)
        end
  end.

(** Fill the remainder: the [while] loop, one unit of fuel an iteration. *)
Fixpoint fill (fuel : nat) (limit : Z) (existing : list Z) (attempts : Z)
    (p : picker) : M picker :=
  if full limit existing p then ret p
  else
    match fuel with
    | O => fun w => (Spin, w)
    | S fuel' =>
        let attempts := attempts + 1 in
        let relaxed := 250 <? attempts in
        let p := if relaxed then clear_used p else p in
        let attempts := if relaxed then 0 else attempts in
        row <- query_random active_tasks ;;
        match row with
        | None => ret p
        | Some row =>
            if bool_decide (t_type row ∈ used p) then fill fuel' limit existing attempts p
            else fill fuel' limit existing attempts (pick row p)
        end
    end.

Fixpoint insert_picks (uid dayKey now : Z) (ids : list Z) : M unit :=
  match ids with
  | [] => ret tt
  | tid :: rest => run (insert_daily uid dayKey tid now) ;;; insert_picks uid dayKey now rest
  end.

Definition FALLBACK_TYPES : list jsstring :=
  [js "audio_transcription"; js "video_transcription"; js "image_caption";
   js "image_tagging"; js "text_cleanup"].

(** [ensureDailyTasks(userId, dayKey)] *)
Definition ensureDailyTasks (fuel : nat) (userId dayKey : Z) : M unit :=
  run (fun d => Some (tt, d)) ;;;                       (* PRAGMA foreign_keys = ON *)
  run (fun d => Some (tt, delete_orphans_of_users d)) ;;;
  run (fun d => Some (tt, delete_orphans_of_tasks d)) ;;;
  user <- query (user_by_id userId) ;;
  match user with
  | None => ret tt
  | Some _ =>
      limit <- getIntSetting (js "tasks_per_day") 10 ;;
      existing <- query (existing_ids userId dayKey) ;;
      if limit <=? Z.of_nat (length existing) then ret tt
      else
        existingTypes <- query (existing_col t_type userId dayKey) ;;
        existingCats <- query (existing_col category userId dayKey) ;;
        typeRows <- query (distinct_active t_type) ;;
        let ALL_TYPES := match typeRows with [] => FALLBACK_TYPES | _ => typeRows end in
        catRows <- query (distinct_active category) ;;
        categories <- shuffle (length catRows - 1) catRows ;;
        let p := mkPicker (list_to_set existingTypes) (list_to_set existingCats) [] in
        p <- pass_categories limit existing categories p ;;
        p <- pass_types limit existing ALL_TYPES p ;;
        p <- fill fuel limit existing 0 p ;;
        now <- clock ;;
        insert_picks userId dayKey now (picks p)
  end.

(** The task ids assigned to a user on a day, as a set. *)
Definition assigned_set (uid dayKey : Z) (d : db) : gset Z :=
  list_to_set (existing_ids uid dayKey d).

End Allocation.
Export Allocation.

(* ===================================================================== *)
(** ** Vocabulary of the properties *)
(* ===================================================================== *)

(** *** Strings that differ only in quotes or in whitespace *)

Definition double_quote (c : N) : Prop := c = QUOT \/ c = LDQUO \/ c = RDQUO.

(** Every single quote, curly or straight. *)
Definition single_quote (c : N) : Prop := c = APOS \/ c = LSQUO \/ c = RSQUO.

(** The single quotes [normalize] identifies. *)
Definition single_quote_seen (c : N) : Prop := c = APOS \/ c = RSQUO.

(** A run of whitespace. *)
Definition ws_run (r : jsstring) : Prop := r <> [] /\ Forall (fun c => is_ws c = true) r.

(** A run of whitespace that is more than carriage returns. *)
Definition ws_gap (r : jsstring) : Prop :=
  Forall (fun c => is_ws c = true) r /\ Exists (fun c => c <> CR) r.

(** [differ_only squote run s t]: [t] is [s] up to exchanging quotes of
    one family and exchanging one run of whitespace for another. *)
Inductive differ_only (squote : N -> Prop) (run : jsstring -> Prop)
  : jsstring -> jsstring -> Prop :=
| differ_none s : differ_only squote run s s
| differ_quote a b c d :
    (double_quote c /\ double_quote d) \/ (squote c /\ squote d) ->
    differ_only squote run (a ++ c :: b) (a ++ d :: b)
| differ_run a b r r' :
    run r -> run r' -> differ_only squote run (a ++ r ++ b) (a ++ r' ++ b)
| differ_step s t u :
    differ_only squote run s t -> differ_only squote run t u ->
    differ_only squote run s u.

(** *** The shape of a normalised text *)

(** A code unit the steps before lower-casing keep as it is and that is
    no whitespace. *)
Definition plain (c : N) : Prop :=
  is_ws c = false /\ c <> LDQUO /\ c <> RDQUO /\ c <> RSQUO.

Fixpoint no_double_space (s : jsstring) : Prop :=
  match s with
  | a :: (b :: _) as r => ~ (a = SP /\ b = SP) /\ no_double_space r
  | _ => True
  end.

(** Words of plain code units, one space between two of them, none at
    either end. *)
Definition neat (s : jsstring) : Prop :=
  Forall (fun c => c = SP \/ plain c) s /\ no_double_space s
  /\ head s <> Some SP /\ last s <> Some SP.

Inductive words : jsstring -> Prop :=
| words_one w : w <> [] -> Forall plain w -> words w
| words_more w r : w <> [] -> Forall plain w -> words r -> words (w ++ SP :: r).

(** *** Worlds *)

(** The value [getIntSetting key fallback] reads off the tables. *)
Definition setting_of (d : db) (key : jsstring) (fallback : Z) : Z :=
  let n := parseInt (default [] (app_settings d !! key)) in
  if isFinite n then default fallback n else fallback.

(** Two worlds with the same tables, transaction and clock; they may
    differ in the faults and draws still to come. *)
Definition same_store (w w' : world) : Prop :=
  w_db w' = w_db w /\ w_txn w' = w_txn w /\ w_now w' = w_now w.

(** As [same_store], with the faults to come the same as well. *)
Definition same_but_draws (w w' : world) : Prop :=
  same_store w w' /\ w_faults w' = w_faults w.

(** What a user row holds in a wallet. *)
Definition bonus_of (uid : Z) (d : db) : option Z := bonus_ksh <$> user_by_id uid d.
Definition balance_of (uid : Z) (d : db) : option Z := balance_ksh <$> user_by_id uid d.

(** The tables once the three writes of a completion are done: the row
    of the assignment stamped, the completion appended, the balance
    credited. [None] when the insert violates a foreign key. *)
Definition completion_of (uid : Z) (taskId : jsnum) (rowId reward now : Z)
    (ans : jsstring) (d : db) : option db :=
  match insert_completion uid taskId reward (Some ans) now (stamp rowId now ans d) with
  | Some (_, d') => Some (credit uid reward d')
  | None => None
  end.

(** The answer [complete] checks: the trimmed text of the body. *)
Definition answer_of (req : complete_request) : jsstring :=
  trim (default (default [] (cr_answer req)) (cr_answer_text req)).

(** A computation that leaves the store as it is, whatever it returns. *)
Definition keeps_store {A} (m : M A) : Prop := forall w, same_store w (snd (m w)).

(** The user a referral code of a registration names, if it names one. *)
Definition referrer_of (code : jsstring) (d : db) : option user :=
  match trim code with
  | [] => None
  | c => user_by_code c d
  end.

(** *** Referral credits *)

(** The rows of users once the rows of key [rid] are credited [rb]. *)
Definition credit_rows (rid rb : Z) (l : list user) : list user :=
  List.map (fun u => if u_id u =? rid then add_bonus rb u else u) l.

(** The table the main server leaves: no credit for the key 0 nor for an
    amount that is not positive. *)
Definition credited (referrer : option Z) (rb : Z) (l : list user) : list user :=
  match referrer with
  | Some rid => if (rid =? 0) || negb (0 <? rb) then l else credit_rows rid rb l
  | None => l
  end.

(** The table the auth router leaves. *)
Definition credited_router (referrer : option Z) (l : list user) : list user :=
  match referrer with
  | Some rid => credit_rows rid 100 l
  | None => l
  end.


(** *** Daily allocation *)

(** How many rows a user has on a day. *)
Definition count_rows (uid dayKey : Z) (d : db) : nat := length (rows_of uid dayKey d).

(** The picks and the rows already there do not exceed the limit. *)
Definition picks_fit (limit : Z) (existing : list Z) (p : picker) : Prop :=
  Z.of_nat (length (picks p) + length existing) <= limit.

(** Every pick is the key of a task. *)
Definition picks_known (d : db) (p : picker) : Prop :=
  Forall (fun tid => has_task d tid = true) (picks p).

(** How many picks are still wanted. *)
Definition wanted (limit : Z) (existing : list Z) (p : picker) : nat :=
  Z.to_nat (limit - Z.of_nat (length (picks p) + length existing)).

(** The tables after the two cleaning DELETEs. *)
Definition cleaned (d : db) : db := delete_orphans_of_tasks (delete_orphans_of_users d).

(** The tables after the INSERT OR IGNORE of each pick in turn; an
    insert that violates a foreign key is left out. *)
Definition store_picks (uid dayKey now : Z) (ids : list Z) (d : db) : db :=
  fold_left (fun d tid => match insert_daily uid dayKey tid now d with
                          | Some (_, d') => d'
                          | None => d
                          end) ids d.

(** [d'] is [d] with at most [n] more rows for the user on the day, and
    nothing else changed in what the allocation reads. *)
Definition grown (uid dayKey : Z) (n : nat) (d d' : db) : Prop :=
  users d' = users d /\ tasks d' = tasks d /\ app_settings d' = app_settings d
  /\ (forall u k, u <> uid \/ k <> dayKey -> count_rows u k d' = count_rows u k d)
  /\ (count_rows uid dayKey d' <= count_rows uid dayKey d + n)%nat.

(** [d'] is [d] with some rows of daily_tasks deleted. *)
Definition shrunk (d d' : db) : Prop :=
  users d' = users d /\ tasks d' = tasks d /\ app_settings d' = app_settings d
  /\ (forall u k, (count_rows u k d' <= count_rows u k d)%nat).

(** What holds of a pass started from [p] in [w] that ended with [o] in
    [w']: the store is kept, the pass has stopped, the picks still fit
    and are still keys of tasks, and on a store that answers the pass
    returns. *)
Definition pass_ok (limit : Z) (existing : list Z) (p : picker) (w : world)
    (o : outcome picker) (w' : world) : Prop :=
  same_store w w'
  /\ (forall p', o = Ok p' ->
        (picks_fit limit existing p -> picks_fit limit existing p')
        /\ (picks_known (w_db w) p -> picks_known (w_db w) p'))
  /\ (w_faults w = [] -> w_faults w' = []).

(** Every row of daily_tasks names a user and a task that exist. *)
Definition no_orphans (d : db) : Prop :=
  Forall (fun r => has_user d (dt_user_id r) = true /\ has_task d (dt_task_id r) = true)
         (daily_tasks d).

(** *** Wallets *)

(** No balance and no bonus is negative. *)
Definition wallets_ok (l : list user) : Prop :=
  Forall (fun u => 0 <= balance_ksh u /\ 0 <= bonus_ksh u) l.

(* ===================================================================== *)
(** ** Stores and requests used in the examples *)
(* ===================================================================== *)

(** A store with one user and no settings row, as seeded before any
    setting is written. *)
Definition wallet_user (balance bonus : Z) : user :=
  mkUser 1 (js "amina") (js "amina@example.com") [] (Some (js "AMINA1234")) None
         balance bonus None.

Definition wallet_db (balance bonus : Z) (settings : gmap jsstring jsstring) : db :=
  mkDb [wallet_user balance bonus] [] [] [] [] [] [] [] settings [] 1 0 0.


(** A store with one user, one active transcription task worth KSH 20,
    and that task assigned to the user today on both routes. *)
Definition noon : Z := 1700000000.

Definition transcription_task : task :=
  mkTask 7 (js "audio_transcription") (js "Transcription") 20 1 (Some (js "hello world")).

Definition completion_db : db :=
  mkDb [wallet_user 0 0] [transcription_task]
       [mkDaily 3 1 (nairobi_day noon) 7 noon None None] []
       [mkAssignment 1 (nairobi_day noon) 7] [] [] [] ∅ [] 1 3 0.

Definition daily_submission : daily_request :=
  mkDailyRequest 1 (JsFin (inject_Z 7))
    (Some (JObj [(js "transcription", JStr (js "Hello   World"))])).

(** A registration that names the code of the user of [wallet_db]. *)
Definition referred_body (code_field : string) : json :=
  JObj [(js "username", JStr (js "brian"));
        (js "email", JStr (js "brian@example.com"));
        (js "password", JStr (js "secret1"));
        (js code_field, JStr (js " AMINA1234 "))].

Definition any_address (s : jsstring) : bool := true.
Definition plain_hash (s : jsstring) : jsstring := s.

(** A catalog of three active tasks, of three types in three categories,
    and one user; no setting is written, so the daily limit is 10. *)
Definition catalog3_db : db :=
  mkDb [wallet_user 0 0]
       [mkTask 1 (js "audio_transcription") (js "Transcription") 10 1 None;
        mkTask 2 (js "image_caption") (js "Images") 10 1 None;
        mkTask 3 (js "text_cleanup") (js "Text") 10 1 None]
       [] [] [] [] [] [] ∅ [] 1 0 0.

(** A catalog of two active tasks of one type in one category, one user,
    and a daily limit of 2. *)
Definition twin_db : db :=
  mkDb [wallet_user 0 0]
       [mkTask 1 (js "image_caption") (js "Images") 10 1 None;
        mkTask 2 (js "image_caption") (js "Images") 10 1 None]
       [] [] [] [] [] [] {[ js "tasks_per_day" := js "2" ]} [] 1 0 0.

(* ===================================================================== *)
(** ** Settings: the administrator's form and the seeded defaults *)
(* ===================================================================== *)

Module SettingsAdmin.

(** The digits of [n], most significant first, in front of [tail]; one
    unit of fuel a digit. *)
Fixpoint digits_of (fuel : nat) (n : Z) (tail : jsstring) : jsstring :=
  match fuel with
  | O => tail
  | S fuel' =>
      let tail' := (48 + Z.to_N (n mod 10))%N :: tail in
      if n <? 10 then tail' else digits_of fuel' (n / 10) tail'
  end.

(** [String(v)] on an integer below 10^21 in absolute value: its decimal
    digits, after a minus sign when it is negative. *)
Definition js_String (z : Z) : jsstring :=
  let n := Z.abs z in
  let ds := digits_of (S (Z.to_nat (Z.log2 n))) n [] in
  if z <? 0 then 45%N :: ds else ds.

Definition with_app_settings (f : gmap jsstring jsstring -> gmap jsstring jsstring)
    (d : db) : db :=
  mkDb (users d) (tasks d) (daily_tasks d) (task_completions d)
       (daily_task_assignments d) (referrals d) (bonus_redemptions d)
       (activation_fees d) (f (app_settings d)) (admin_audit d)
       (seq_users d) (seq_daily_tasks d) (seq_task_completions d).

(** The JSON bodies of the handlers of this part. *)
Inductive view : Type :=
| VError (msg : string)
| VThrown (e : exn)
| VSettings (rows : list (jsstring * jsstring))   (* ok, settings: key and value of each row *)
| VStats (referral_code : option jsstring) (referrals_count bonus redeemable balance : Z)
| VStatus (referrals bonus : Z)
| VOk.

Record reply := mkReply { r_status : Z; r_body : view }.

(** [z.number().int().min(lo).max(hi).optional()] on the field [key]:
    absent, or a number that is an integer within the bounds. *)
Definition optional_int (key : jsstring) (lo hi : Z) (fields : list (jsstring * json))
  : option (option Z) :=
  match field_of key fields with
  | None => Some None
  | Some (JNum n) =>
      match num_int n with
      | Some z => if (lo <=? z) && (z <=? hi) then Some (Some z) else None
      | None => None
      end
  | Some _ => None
  end.

Definition given (key : jsstring) (v : option Z) : list (jsstring * Z) :=
  match v with Some z => [(key, z)] | None => [] end.

(** [Object.entries(schema.parse(req.body || {})).filter(([, v]) => v !== undefined)]:
    the fields of the schema that the body gives, in the order of the schema. *)
Definition parse_settings (b : option json) : option (list (jsstring * Z)) :=
  match default (JObj []) b with
  | JObj fields =>
      match optional_int (js "tasks_per_day") 1 50 fields,
            optional_int (js "referral_bonus_ksh") 0 1000000 fields,
            optional_int (js "min_withdraw_ksh") 0 1000000 fields with
      | Some a, Some b, Some c =>
          Some (given (js "tasks_per_day") a ++ given (js "referral_bonus_ksh") b
                ++ given (js "min_withdraw_ksh") c)
      | _, _, _ => None
      end
  | _ => None
  end.

(** [INSERT INTO app_settings (key, value, updated_at) ... ON CONFLICT(key)
    DO UPDATE SET value=excluded.value, ...] *)
Definition upsert_setting (k v : jsstring) (d : db) : option (unit * db) :=
  Some (tt, with_app_settings (<[k := v]>) d).

Fixpoint upsert_all (updates : list (jsstring * Z)) : M unit :=
  match updates with
  | [] => ret tt
  | (k, v) :: rest => run (upsert_setting k (js_String v)) ;;; upsert_all rest
  end.

(** [audit(adminId, action, entity, null, meta)]: no entity id. *)
Definition audit_null (adminId : Z) (act ent : string) : M unit :=
  try_catch
    (run (fun d => Some (tt, with_admin_audit
            (fun l => l ++ [mkAudit adminId act ent None]) d)))
    (fun _ => ret tt).

Definition by_key (a b : jsstring * jsstring) : Prop := text_le (fst a) (fst b).
#[global] Instance by_key_dec a b : Decision (by_key a b) := text_le_dec _ _.

(** [SELECT key, value, updated_at FROM app_settings ORDER BY key ASC];
    the table of this development does not keep updated_at. *)
Definition settings_rows (d : db) : list (jsstring * jsstring) :=
  merge_sort by_key (map_to_list (app_settings d)).

(** GET /api/admin/settings, past [requireAdmin] and [requireSuperAdmin]. *)
Definition admin_get_settings : M (list (jsstring * jsstring)) :=
  query settings_rows.

(** POST /api/admin/settings, past [requireAdmin] and [requireSuperAdmin]. *)
Definition admin_update_settings (adminId : Z) (body : option json) : M reply :=
  try_catch
    (match parse_settings body with
     | None => throw ZodError
     | Some updates =>
         run_begin ;;;
         try_catch (upsert_all updates ;;; run_commit)
                   (fun e => run_rollback ;;; throw e) ;;;
         audit_null adminId "update" "app_settings" ;;;
         rows <- query settings_rows ;;
         ret (mkReply 200 (VSettings rows))
     end)
    (fun e => ret (mkReply 400 (VThrown e))).

(** The defaults [initDb] seeds. *)
Definition DEFAULT_SETTINGS : list (jsstring * jsstring) :=
  [(js "activation_fee_ksh", js "100");
   (js "tasks_per_day", js "10");
   (js "referral_bonus_ksh", js "100");
   (js "min_withdraw_ksh", js "200");
   (js "referral_redeem_threshold_ksh", js "1000");
   (js "referral_redeem_transfer_ksh", js "1000")].

(** [INSERT OR IGNORE INTO app_settings (key, value) VALUES (?, ?)] *)
Definition insert_setting_or_ignore (k v : jsstring) (d : db) : option (unit * db) :=
  Some (tt, with_app_settings
              (fun m => match m !! k with Some _ => m | None => <[k := v]> m end) d).

(** The loop of [initDb] that seeds the defaults. *)
Fixpoint seed_settings (defaults : list (jsstring * jsstring)) : M unit :=
  match defaults with
  | [] => ret tt
  | (k, v) :: rest => run (insert_setting_or_ignore k v) ;;; seed_settings rest
  end.

End SettingsAdmin.
Export SettingsAdmin.

(* ===================================================================== *)
(** ** Signing in and changing the password *)
(* ===================================================================== *)

Module Session.

Section Login.

(** The address check of zod and the two functions of bcryptjs belong to
    the libraries. *)
Variable zod_email : jsstring -> bool.
Variable bcrypt_hash : jsstring -> jsstring.
Variable bcrypt_compare : jsstring -> jsstring -> bool.

(** [LoginSchema.parse(req.body)] *)
Definition parse_login (b : json) : option (jsstring * jsstring) :=
  match b with
  | JObj fields =>
      match required_string (js "email") 0 fields,
            required_string (js "password") 1 fields with
      | Some e, Some p => if zod_email e then Some (e, p) else None
      | _, _ => None
      end
  | _ => None
  end.

(** [SELECT id, password_hash FROM users WHERE email = ?] *)
Definition user_by_email (mail : jsstring) (d : db) : option user :=
  find (fun u => bool_decide (email u = mail)) (users d).

(** POST /api/auth/login of the main server file. *)
Definition login (b : json) : M response :=
  try_catch
    (match parse_login b with
     | None => throw ZodError
     | Some (mail, password) =>
         user <- query (user_by_email mail) ;;
         match user with
         | None => ret (mkResponse 400 (PError "Invalid credentials"))
         | Some user =>
             if negb (bcrypt_compare password (password_hash user))
             then ret (mkResponse 400 (PError "Invalid credentials"))
             else ret (mkResponse 200 (PToken (u_id user)))
         end
     end)
    (fun e => ret (mkResponse 400 (PThrown e))).

(** The schema of POST /api/me/password. *)
Definition parse_passwords (b : json) : option (jsstring * jsstring) :=
  match b with
  | JObj fields =>
      match required_string (js "currentPassword") 1 fields,
            required_string (js "newPassword") 6 fields with
      | Some c, Some n => Some (c, n)
      | _, _ => None
      end
  | _ => None
  end.

Definition set_password_hash (h : jsstring) (u : user) : user :=
  mkUser (u_id u) (username u) (email u) h (referral_code u)
         (referred_by u) (balance_ksh u) (bonus_ksh u) (phone u).

(** POST /api/me/password of the main server file, past [requireAuth]. *)
Definition change_password (uid : Z) (b : json) : M reply :=
  try_catch
    (match parse_passwords b with
     | None => throw ZodError
     | Some (current, new) =>
         user <- query (user_by_id uid) ;;
         let ok := match user with
                   | Some user => bcrypt_compare current (password_hash user)
                   | None => false
                   end in
         if negb ok then ret (mkReply 400 (VError "Current password is wrong"))
         else
           let newHash := bcrypt_hash new in
           run (fun d => Some (tt, update_user uid (set_password_hash newHash) d)) ;;;
           ret (mkReply 200 VOk)
     end)
    (fun e => ret (mkReply 400 (VThrown e))).

End Login.

End Session.
Export Session.

(* ===================================================================== *)
(** ** Referral figures *)
(* ===================================================================== *)

Module Figures.

(** GET /stats of referrals.js, past [requireAuth]. The handler has no
    [try]: a rejected statement leaves the promise rejected. *)
Definition referral_stats (userId : Z) : M reply :=
  me <- query (user_by_id userId) ;;
  match me with
  | None => ret (mkReply 404 (VError "User not found"))
  | Some me =>
      count <- query (fun d =>
        Z.of_nat (length (List.filter (fun r => referrer_id r =? userId) (referrals d)))) ;;
      let bonus := bonus_ksh me in
      let redeemable := if 1000 <=? bonus then bonus / 1000 * 1000 else 0 in
      ret (mkReply 200 (VStats (referral_code me) count bonus redeemable (balance_ksh me)))
  end.

(** GET /api/referrals/status of the main server file, past
    [requireAuth]. *)
Definition referral_status (uid : Z) : M reply :=
  r <- query (fun d =>
    Z.of_nat (length (List.filter (fun u => bool_decide (referred_by u = Some uid)) (users d)))) ;;
  u <- query (user_by_id uid) ;;
  ret (mkReply 200 (VStatus r (default 0 (bonus_ksh <$> u)))).

End Figures.
Export Figures.

(* ===================================================================== *)
(** ** The activation fee *)
(* ===================================================================== *)

Module Activation.

(** [UPDATE activation_fees SET fee_ksh=? WHERE user_id=? AND status!=paid] *)
Definition sync_fee (uid fee : Z) (d : db) : db :=
  with_activation_fees
    (List.map (fun a => if (af_user_id a =? uid) && negb (af_paid a)
                        then mkActivation (af_user_id a) fee (paid_ksh a) (af_paid a)
                        else a)) d.

(** [ensureActivationRow(userId)] *)
Definition ensureActivationRow (userId : Z) : M unit :=
  let fee := ACTIVATION_FEE_KSH in
  run (insert_activation userId fee) ;;;
  run (fun d => Some (tt, sync_fee userId fee d)).

End Activation.
Export Activation.

(* ===================================================================== *)
(** ** The allocation in two steps *)
(* ===================================================================== *)

Module Selection.

(** [ensureDailyTasks] from its first statement to the end of its
    [while] loop: the array [picks] as the last loop finds it, and
    [None] where the function has returned before. *)
Definition choose_picks (fuel : nat) (userId dayKey : Z) : M (option (list Z)) :=
  run (fun d => Some (tt, d)) ;;;                       (* PRAGMA foreign_keys = ON *)
  run (fun d => Some (tt, delete_orphans_of_users d)) ;;;
  run (fun d => Some (tt, delete_orphans_of_tasks d)) ;;;
  user <- query (user_by_id userId) ;;
  match user with
  | None => ret None
  | Some _ =>
      limit <- getIntSetting (js "tasks_per_day") 10 ;;
      existing <- query (existing_ids userId dayKey) ;;
      if limit <=? Z.of_nat (length existing) then ret None
      else
        existingTypes <- query (existing_col t_type userId dayKey) ;;
        existingCats <- query (existing_col category userId dayKey) ;;
        typeRows <- query (distinct_active t_type) ;;
        let ALL_TYPES := match typeRows with [] => FALLBACK_TYPES | _ => typeRows end in
        catRows <- query (distinct_active category) ;;
        categories <- shuffle (length catRows - 1) catRows ;;
        let p := mkPicker (list_to_set existingTypes) (list_to_set existingCats) [] in
        p <- pass_categories limit existing categories p ;;
        p <- pass_types limit existing ALL_TYPES p ;;
        p <- fill fuel limit existing 0 p ;;
        ret (Some (picks p))
  end.

(** The last loop of [ensureDailyTasks]: [for (const tid of picks)]. *)
Definition insert_chosen (userId dayKey : Z) (chosen : option (list Z)) : M unit :=
  match chosen with
  | None => ret tt
  | Some ids => now <- clock ;; insert_picks userId dayKey now ids
  end.

(** Two calls of [ensureDailyTasks] for one user and day in flight on
    the one connection, the second started before the first has come to
    its first INSERT: a handler runs until it awaits, so the statements
    of the second call that come before its inserts can all be served
    before the first call inserts. *)
Definition overlapping_calls (fuel : nat) (userId dayKey : Z) : M unit :=
  first <- choose_picks fuel userId dayKey ;;
  second <- choose_picks fuel userId dayKey ;;
  insert_chosen userId dayKey first ;;;
  insert_chosen userId dayKey second.

End Selection.
Export Selection.

(* ===================================================================== *)
(** ** Further vocabulary *)
(* ===================================================================== *)

(** The same users in the same order, each with the same total of
    balance and bonus. *)
Definition same_totals (l l' : list user) : Prop :=
  Forall2 (fun a b => u_id a = u_id b
                      /\ balance_ksh a + bonus_ksh a = balance_ksh b + bonus_ksh b) l l'.

(** The key of an active task. *)
Definition active_id (d : db) (tid : Z) : Prop :=
  exists t, In t (tasks d) /\ t_id t = tid /\ active t = 1.

(** A row the allocation may add: of the user, on the day, not completed,
    for an active task. *)
Definition fresh_row (uid dayKey : Z) (d : db) (r : daily_task) : Prop :=
  dt_user_id r = uid /\ day_key r = dayKey
  /\ completed_at r = None /\ dt_answer_text r = None
  /\ active_id d (dt_task_id r).

(** [kept] is the table of daily tasks of [d] without some of its
    orphans: every row of a user and a task that exist is still there. *)
Definition only_orphans_gone (d : db) (kept : list daily_task) : Prop :=
  exists keep : daily_task -> bool,
    kept = List.filter keep (daily_tasks d)
    /\ forall r, has_user d (dt_user_id r) = true -> has_task d (dt_task_id r) = true ->
                 keep r = true.

(** The tables other than daily_tasks, and the high-water marks of the
    keys of users and of task_completions, are in [d'] as in [d]. *)
Definition elsewhere_same (d d' : db) : Prop :=
  users d' = users d /\ tasks d' = tasks d
  /\ task_completions d' = task_completions d
  /\ daily_task_assignments d' = daily_task_assignments d
  /\ referrals d' = referrals d
  /\ bonus_redemptions d' = bonus_redemptions d
  /\ activation_fees d' = activation_fees d
  /\ app_settings d' = app_settings d
  /\ admin_audit d' = admin_audit d
  /\ seq_users d' = seq_users d
  /\ seq_task_completions d' = seq_task_completions d.

(** What a call of the allocation may have done to the tables of [d]:
    some orphans deleted, rows added at the end that are all fresh rows
    of the user on the day, and every other table as it was. *)
Definition allocated (uid dayKey : Z) (d d' : db) : Prop :=
  elsewhere_same d d'
  /\ exists kept added,
       daily_tasks d' = kept ++ added
       /\ only_orphans_gone d kept
       /\ Forall (fresh_row uid dayKey d) added.

(** The picks are the keys of active tasks of pairwise different types,
    none of them in [types0]; the used types are those of [types0] and
    of the picked tasks. *)
Definition picked_apart (d : db) (types0 : list jsstring) (p : picker) : Prop :=
  exists rows,
    picks p = List.map t_id rows
    /\ Forall (fun t => In t (active_tasks d)) rows
    /\ NoDup (List.map t_type rows)
    /\ Forall (fun t => t_type t ∉ types0) rows
    /\ (forall x, x ∈ used p <-> x ∈ types0 \/ x ∈ List.map t_type rows).

(* ===================================================================== *)
(** ** Further stores used in the examples *)
(* ===================================================================== *)

(** The catalog of [catalog3_db] with a daily limit of 3. *)
Definition trio_db : db :=
  mkDb [wallet_user 0 0]
       [mkTask 1 (js "audio_transcription") (js "Transcription") 10 1 None;
        mkTask 2 (js "image_caption") (js "Images") 10 1 None;
        mkTask 3 (js "text_cleanup") (js "Text") 10 1 None]
       [] [] [] [] [] [] {[ js "tasks_per_day" := js "3" ]} [] 1 0 0.

(** A catalog of four active tasks, of four types in four categories,
    one user, and a daily limit of 2. *)
Definition quartet_db : db :=
  mkDb [wallet_user 0 0]
       [mkTask 1 (js "audio_transcription") (js "Transcription") 10 1 None;
        mkTask 2 (js "image_caption") (js "Images") 10 1 None;
        mkTask 3 (js "text_cleanup") (js "Text") 10 1 None;
        mkTask 4 (js "image_tagging") (js "Tags") 10 1 None]
       [] [] [] [] [] [] {[ js "tasks_per_day" := js "2" ]} [] 1 0 0.

(** The form of the administrator with a daily limit of 1. *)
Definition one_a_day : option json :=
  Some (JObj [(js "tasks_per_day", JNum (JsFin (inject_Z 1)))]).

(** An entry the schema of the administrator's form accepts. *)
Definition within_schema (kv : jsstring * Z) : Prop :=
  (fst kv = js "tasks_per_day" /\ 1 <= snd kv <= 50)
  \/ (fst kv = js "referral_bonus_ksh" /\ 0 <= snd kv <= 1000000)
  \/ (fst kv = js "min_withdraw_ksh" /\ 0 <= snd kv <= 1000000).

(** The settings once each entry is written in turn. *)
Definition upserted (m : gmap jsstring jsstring) (updates : list (jsstring * Z))
  : gmap jsstring jsstring :=
  fold_left (fun m kv => <[fst kv := js_String (snd kv)]> m) updates m.

(** The comparison that goes with [plain_hash]. *)
Definition plain_compare (p h : jsstring) : bool := bool_decide (plain_hash p = h).

(** The body of a sign-in. *)
Definition login_body (mail password : string) : json :=
  JObj [(js "email", JStr (js mail)); (js "password", JStr (js password))].

(** A store with one user whose stored hash, under [plain_hash], is that
    of the password secret1. *)
Definition member_db : db :=
  mkDb [mkUser 1 (js "amina") (js "amina@example.com") (js "secret1")
               (Some (js "AMINA1234")) None 200 950 None]
       [] [] [] [] [] [] [] ∅ [] 1 0 0.

(** The world after [n] calls in a row of POST /redeem of referrals.js. *)
Fixpoint clicks (n : nat) (uid : Z) (w : world) : world :=
  match n with
  | O => w
  | S n' => clicks n' uid (snd (redeem_fixed uid w))
  end.

(** How many users a user has referred. *)
Definition referred_count (uid : Z) (d : db) : Z :=
  Z.of_nat (length (List.filter (fun u => bool_decide (referred_by u = Some uid)) (users d))).

(* ===================================================================== *)
(** * Properties *)
(* ===================================================================== *)

(** ** Text normalisation *)

Lemma plain_not_ws c : plain c -> is_ws c = false.
Proof. by intros [H _]. Qed.

Lemma plain_not_space c : plain c -> c <> SP.
Proof. intros [H _] ->. discriminate H. Qed.

Lemma ws_not_curly c :
  is_ws c = true -> c <> LDQUO /\ c <> RDQUO /\ c <> RSQUO /\ c <> LSQUO.
Proof. intros H. repeat split; intros ->; discriminate H. Qed.

Lemma squeeze_ws_prefix r b :
  Forall (fun c => is_ws c = true) r -> squeeze true (r ++ b) = squeeze true b.
Proof.
  induction 1 as [|c r Hc _ IH]; [done|]. simpl. by rewrite Hc.
Qed.

Lemma squeeze_run f a r b :
  ws_run r -> squeeze f (a ++ r ++ b) = squeeze f (a ++ SP :: b).
Proof.
  intros [Hne Hws]. revert f. induction a as [|x a IH]; intros f; simpl.
  - destruct r as [|c r]; [done|]. inversion Hws as [|? ? Hc Hr]; subst.
    simpl. rewrite Hc. change (is_ws SP) with true. cbv iota.
    by rewrite (squeeze_ws_prefix r b Hr).
  - destruct (is_ws x), f; by rewrite IH.
Qed.

Lemma strip_cr_app a b : strip_cr (a ++ b) = strip_cr a ++ strip_cr b.
Proof. unfold strip_cr. apply List.filter_app. Qed.

Lemma straight_double_app a b :
  straight_double (a ++ b) = straight_double a ++ straight_double b.
Proof. unfold straight_double. apply List.map_app. Qed.

Lemma straight_single_app a b :
  straight_single (a ++ b) = straight_single a ++ straight_single b.
Proof. unfold straight_single. apply List.map_app. Qed.

Lemma straight_ws r :
  Forall (fun c => is_ws c = true) r ->
  straight_single (straight_double r) = r.
Proof.
  induction 1 as [|c r Hc _ IH]; [done|].
  unfold straight_single, straight_double in *. simpl. rewrite IH.
  destruct (ws_not_curly c Hc) as (H1 & H2 & H3 & _).
  apply N.eqb_neq in H1, H2, H3. rewrite H1, H2. simpl. by rewrite H3.
Qed.

Lemma strip_cr_ws r :
  Forall (fun c => is_ws c = true) r -> Forall (fun c => is_ws c = true) (strip_cr r).
Proof.
  unfold strip_cr. induction 1 as [|c r Hc _ IH]; simpl; [constructor|].
  destruct (negb (c =? CR)%N); [by constructor | done].
Qed.

Lemma strip_cr_gap r : ws_gap r -> ws_run (strip_cr r).
Proof.
  intros [Hws Hex]. split; [|by apply strip_cr_ws].
  apply Exists_exists in Hex as (c & Hin & Hc).
  intros Hnil. assert (In c (strip_cr r)) as Hc'.
  { unfold strip_cr. apply List.filter_In. split; [by apply list_elem_of_In|].
    apply negb_true_iff, N.eqb_neq. exact Hc. }
  rewrite Hnil in Hc'. destruct Hc'.
Qed.

(** Exchanging one gap for another is invisible after [tidy]. *)
Lemma tidy_gap a b r r' : ws_gap r -> ws_gap r' -> tidy (a ++ r ++ b) = tidy (a ++ r' ++ b).
Proof.
  intros Hr Hr'. unfold tidy, collapse_ws. f_equal.
  rewrite !strip_cr_app, !straight_double_app, !straight_single_app.
  apply strip_cr_gap in Hr as Hr1, Hr' as Hr1'.
  rewrite (straight_ws (strip_cr r)), (straight_ws (strip_cr r')) by apply Hr1 || apply Hr1'.
  by rewrite !squeeze_run.
Qed.

(** Exchanging two quotes [normalize] identifies is invisible after [tidy]. *)
Lemma tidy_quote a b c d :
  (double_quote c /\ double_quote d) \/ (single_quote_seen c /\ single_quote_seen d) ->
  tidy (a ++ c :: b) = tidy (a ++ d :: b).
Proof.
  intros H. unfold tidy. do 2 f_equal.
  rewrite !strip_cr_app, !straight_double_app, !straight_single_app.
  f_equal.
  destruct H as [[Hc Hd]|[Hc Hd]];
    destruct Hc as [->|Hc]; destruct Hd as [->|Hd];
    repeat match goal with H : _ \/ _ |- _ => destruct H as [->| ->] | H : _ = _ |- _ => subst end;
    reflexivity.
Qed.

(** *** What [tidy] leaves is neat, and [tidy] keeps what is neat *)

Lemma space_or_plain_not_cr c : c = SP \/ plain c -> (c =? CR)%N = false.
Proof.
  intros [->|[H _]]; [done|]. apply N.eqb_neq. intros ->. discriminate H.
Qed.

Lemma strip_cr_neat s : Forall (fun c => c = SP \/ plain c) s -> strip_cr s = s.
Proof.
  unfold strip_cr. induction 1 as [|c s Hc _ IH]; [done|]. simpl.
  by rewrite (space_or_plain_not_cr c Hc), IH.
Qed.

Lemma straight_neat s :
  Forall (fun c => c = SP \/ plain c) s -> straight_single (straight_double s) = s.
Proof.
  unfold straight_single, straight_double.
  induction 1 as [|c s Hc _ IH]; [done|]. simpl. rewrite IH. f_equal.
  destruct Hc as [->|(_ & H1 & H2 & H3)]; [done|].
  apply N.eqb_neq in H1, H2, H3. rewrite H1, H2. simpl. by rewrite H3.
Qed.

Lemma squeeze_neat s f :
  Forall (fun c => c = SP \/ plain c) s -> no_double_space s ->
  (f = true -> head s <> Some SP) -> squeeze f s = s.
Proof.
  intros Hall. revert f. induction Hall as [|c s Hc Hs IH]; intros f Hnd Hhd; [done|].
  simpl. destruct Hc as [->|Hc].
  - change (is_ws SP) with true. cbv iota. destruct f; [by destruct Hhd|].
    f_equal. apply IH; [by destruct s; [|destruct Hnd]|].
    intros _. destruct s as [|b s]; [done|]. simpl. destruct Hnd as [Hnd _].
    intros [= ->]. by apply Hnd.
  - rewrite (plain_not_ws c Hc). f_equal. apply IH; [|done].
    by destruct s; [|destruct Hnd].
Qed.

Lemma drop_ws_id s : (forall c, head s = Some c -> is_ws c = false) -> drop_ws s = s.
Proof. destruct s as [|c s]; [done|]. intros H. simpl. by rewrite (H c). Qed.

Lemma neat_head_not_ws s c :
  Forall (fun c => c = SP \/ plain c) s -> head s <> Some SP -> head s = Some c -> is_ws c = false.
Proof.
  intros Hall Hne Hc. destruct s as [|x s]; [done|]. simpl in *. injection Hc as ->.
  inversion Hall as [|? ? [->|Hp] _]; subst; [done|]. by apply plain_not_ws.
Qed.

Lemma tidy_neat_id s : neat s -> tidy s = s.
Proof.
  intros (Hall & Hnd & Hhd & Hlast). unfold tidy, collapse_ws.
  rewrite (strip_cr_neat s Hall), (straight_neat s Hall), (squeeze_neat s false Hall Hnd) by done.
  unfold trim. rewrite (drop_ws_id s) by (intros c; by apply neat_head_not_ws).
  rewrite (drop_ws_id (reverse s)); [apply reverse_involutive|].
  intros c. apply neat_head_not_ws; [by apply Forall_reverse | by rewrite head_reverse].
Qed.

Lemma nds_cons a s :
  no_double_space (a :: s) <-> ~ (a = SP /\ head s = Some SP) /\ no_double_space s.
Proof.
  destruct s as [|b s]; simpl.
  - split; [intros _; split; [by intros [_ ?]|done] | done].
  - split; intros [H1 H2]; (split; [|done]); intros [-> H]; apply H1.
    + by injection H as ->.
    + by subst.
Qed.

Lemma nds_app p q :
  no_double_space (p ++ q) <->
  no_double_space p /\ no_double_space q /\ ~ (last p = Some SP /\ head q = Some SP).
Proof.
  induction p as [|a p IH].
  - simpl. split; [intros H; repeat split; [done|by intros [? _]] | by intros (_ & ? & _)].
  - rewrite <- app_comm_cons, !nds_cons, IH.
    destruct p as [|b p].
    + simpl. split.
      * intros (H1 & _ & H2 & _). repeat split; [by intros [_ ?]|done|].
        intros [[= ->] Hq]. by apply H1.
      * intros (_ & H2 & H3). repeat split; [|done|by intros [? _]].
        intros [-> Hq]. by apply H3.
    + change (last (a :: b :: p)) with (last (b :: p)). simpl. tauto.
Qed.

Lemma nds_reverse s : no_double_space s -> no_double_space (reverse s).
Proof.
  induction s as [|a s IH]; [done|]. rewrite nds_cons, reverse_cons, nds_app.
  intros [H1 H2]. split; [by apply IH|]. split; [done|].
  rewrite last_reverse. simpl. intros [Hh [= ->]]. by apply H1.
Qed.

(** [drop_ws] leaves a suffix that does not start with whitespace. *)
Lemma drop_ws_suffix s :
  exists p, s = p ++ drop_ws s /\ forall c, head (drop_ws s) = Some c -> is_ws c = false.
Proof.
  induction s as [|a s (p & Hp & Hh)]; [by exists []|]. simpl.
  destruct (is_ws a) eqn:Ha.
  - exists (a :: p). split; [by rewrite <- app_comm_cons, <- Hp|done].
  - exists []. split; [done|]. simpl. by intros c [= <-].
Qed.

Lemma last_suffix {A} (p q : list A) : q <> [] -> last (p ++ q) = last q.
Proof.
  intros Hq. destruct q as [|x q] using rev_ind; [done|]. by rewrite app_assoc, !last_snoc.
Qed.

Lemma head_not_space s :
  (forall c, head s = Some c -> is_ws c = false) -> head s <> Some SP.
Proof. intros H Hs. by specialize (H _ Hs). Qed.

Lemma trim_neat s :
  Forall (fun c => c = SP \/ plain c) s -> no_double_space s -> neat (trim s).
Proof.
  intros Hall Hnd. unfold trim.
  destruct (drop_ws_suffix s) as (p & Hp & Hh). set (z := drop_ws s) in *.
  assert (Forall (fun c => c = SP \/ plain c) z) as Hz.
  { rewrite Hp in Hall. by apply Forall_app in Hall as [_ ?]. }
  assert (no_double_space z) as Hndz.
  { rewrite Hp in Hnd. by apply nds_app in Hnd as (_ & ? & _). }
  destruct (drop_ws_suffix (reverse z)) as (p' & Hp' & Hh'). set (y := drop_ws (reverse z)) in *.
  assert (Forall (fun c => c = SP \/ plain c) y) as Hy.
  { apply Forall_reverse in Hz. rewrite Hp' in Hz. by apply Forall_app in Hz as [_ ?]. }
  assert (no_double_space y) as Hndy.
  { apply nds_reverse in Hndz. rewrite Hp' in Hndz. by apply nds_app in Hndz as (_ & ? & _). }
  repeat split.
  - by apply Forall_reverse.
  - by apply nds_reverse.
  - rewrite head_reverse. destruct (decide (y = [])) as [->|Hne]; [done|].
    rewrite <- (last_suffix p' y Hne), <- Hp', last_reverse. by apply head_not_space.
  - rewrite last_reverse. by apply head_not_space.
Qed.

Lemma straight_ws_or_plain c :
  let c' := (if (c =? RSQUO)%N then APOS else c) in
  forall c0, c = (if ((c0 =? LDQUO) || (c0 =? RDQUO))%N then QUOT else c0) ->
  is_ws c' = true \/ plain c'.
Proof.
  intros c' c0 Hc. subst c'.
  destruct (c =? RSQUO)%N eqn:E3.
  { right. by repeat split. }
  destruct (is_ws c) eqn:Hws; [by left|right].
  apply N.eqb_neq in E3. repeat split; [done| | |done]; intros ->;
    destruct ((c0 =? LDQUO) || (c0 =? RDQUO))%N eqn:E; try discriminate Hc;
    subst c0; discriminate E.
Qed.

Lemma straightened_chars s :
  Forall (fun c => is_ws c = true \/ plain c) (straight_single (straight_double s)).
Proof.
  unfold straight_single, straight_double. induction s as [|c s IH]; simpl; [constructor|].
  constructor; [|done]. by eapply straight_ws_or_plain.
Qed.

Lemma squeeze_shape s f :
  Forall (fun c => is_ws c = true \/ plain c) s ->
  Forall (fun c => c = SP \/ plain c) (squeeze f s)
  /\ no_double_space (squeeze f s)
  /\ (f = true -> head (squeeze f s) <> Some SP).
Proof.
  intros Hall. revert f. induction Hall as [|c s Hc _ IH]; intros f; simpl; [done|].
  destruct (is_ws c) eqn:Hws.
  - destruct (IH true) as (H1 & H2 & H3). destruct f.
    + done.
    + split; [constructor; [by left|done]|]. split; [|done].
      apply nds_cons. split; [|done]. intros [_ H]. by apply H3.
  - destruct Hc as [Hc|Hc]; [congruence|].
    destruct (IH false) as (H1 & H2 & _).
    split; [constructor; [by right|done]|]. split.
    + apply nds_cons. split; [|done]. intros [-> _]. discriminate Hws.
    + intros _ [= ->]. discriminate Hws.
Qed.

Lemma tidy_neat s : neat (tidy s).
Proof.
  unfold tidy, collapse_ws.
  destruct (squeeze_shape _ false (straightened_chars (strip_cr s))) as (H1 & H2 & _).
  by apply trim_neat.
Qed.

(** *** Neat texts are words *)

Lemma words_head_plain x : words x -> exists c r, x = c :: r /\ plain c.
Proof.
  intros [w Hne Hw|w r Hne Hw _]; destruct Hw as [|c w Hc Hw]; try done;
    by exists c; eexists.
Qed.

Lemma words_cons c x : plain c -> words x -> words (c :: x).
Proof.
  intros Hc [w Hne Hw|w r Hne Hw Hr].
  - apply words_one; [done|by constructor].
  - rewrite app_comm_cons. apply words_more; [done|by constructor|done].
Qed.

Lemma neat_tail_words x :
  Forall (fun c => c = SP \/ plain c) x -> no_double_space x -> last x <> Some SP ->
  forall c, plain c -> words (c :: x).
Proof.
  induction x as [x IH] using (induction_ltof1 _ (@length N)); unfold ltof in *.
  intros Hall Hnd Hlast c Hc. destruct x as [|d r].
  { apply words_one; [done|by constructor]. }
  apply Forall_cons in Hall as [Hd Hall]. apply nds_cons in Hnd as [Hdd Hnd].
  destruct Hd as [->|Hd].
  - destruct r as [|e r']; [done|].
    apply Forall_cons in Hall as [He Hall]. apply nds_cons in Hnd as [Hee Hnd].
    destruct He as [->|He]; [by destruct Hdd|].
    apply (words_more [c]); [done|by constructor|].
    apply IH; simpl; [lia|done|done| |done].
    destruct r'; [done|exact Hlast].
  - apply words_cons; [done|]. apply IH; simpl; [lia|done|done| |done].
    destruct r; [done|exact Hlast].
Qed.

Lemma neat_words x : neat x -> x = [] \/ words x.
Proof.
  intros (Hall & Hnd & Hhd & Hlast). destruct x as [|c x]; [by left|right].
  apply Forall_cons in Hall as [Hc Hall]. apply nds_cons in Hnd as [_ Hnd].
  destruct Hc as [->|Hc]; [done|].
  apply neat_tail_words; [done|done| |done]. destruct x; [done|exact Hlast].
Qed.

Lemma plain_all_neat w : w <> [] -> Forall plain w -> neat w.
Proof.
  intros Hne Hw. repeat split.
  - eapply Forall_impl; [exact Hw|]. by right.
  - clear Hne. induction Hw as [|c w Hc Hw IH]; [done|]. apply nds_cons. split; [|done].
    intros [-> _]. by apply plain_not_space in Hc.
  - destruct Hw as [|c w Hc _]; [done|]. simpl. intros [= ->].
    by apply plain_not_space in Hc.
  - destruct w as [|c w] using rev_ind; [done|]. rewrite last_snoc. intros [= ->].
    apply Forall_app in Hw as [_ Hc]. apply Forall_cons in Hc as [Hc _].
    by apply plain_not_space in Hc.
Qed.

Lemma words_neat x : words x -> neat x.
Proof.
  induction 1 as [w Hne Hw|w r Hne Hw Hr (Hall & Hnd & Hhd & Hlast)].
  - by apply plain_all_neat.
  - destruct (plain_all_neat w Hne Hw) as (Hall' & Hnd' & Hhd' & Hlast').
    destruct (words_head_plain r Hr) as (c & r' & -> & Hc).
    repeat split.
    + apply Forall_app. split; [done|]. constructor; [by left|done].
    + apply nds_app. split; [done|]. split.
      * apply nds_cons. split; [|done]. simpl. intros [_ [= ->]].
        by apply plain_not_space in Hc.
      * by intros [? _].
    + destruct w; [done|exact Hhd'].
    + rewrite last_suffix by done. exact Hlast.
Qed.

(** *** Idempotence, for every lower-casing that behaves as the engine's *)

Section NormalizeLaws.

Variable toLowerCase : jsstring -> jsstring.

(** What the proof needs of [toLowerCase]: it is idempotent, maps the
    empty string to itself, works on the two sides of a space apart,
    never deletes a text, and makes neither whitespace nor one of the
    replaced quotes out of other code units. *)
Hypothesis lower_idem : forall s, toLowerCase (toLowerCase s) = toLowerCase s.
Hypothesis lower_nil : toLowerCase [] = [].
Hypothesis lower_space :
  forall a b, toLowerCase (a ++ SP :: b) = toLowerCase a ++ SP :: toLowerCase b.
Hypothesis lower_nonempty : forall s, s <> [] -> toLowerCase s <> [].
Hypothesis lower_plain : forall s, Forall plain s -> Forall plain (toLowerCase s).

Lemma lower_words x : words x -> words (toLowerCase x).
Proof.
  induction 1 as [w Hne Hw|w r Hne Hw Hr IH].
  - apply words_one; [by apply lower_nonempty|by apply lower_plain].
  - rewrite lower_space. apply words_more; [by apply lower_nonempty|by apply lower_plain|done].
Qed.

Lemma lower_neat x : neat x -> neat (toLowerCase x).
Proof.
  intros [->|Hw]%neat_words.
  - rewrite lower_nil. by repeat split.
  - by apply words_neat, lower_words.
Qed.

Lemma normalize_idempotent s :
  normalize toLowerCase (normalize toLowerCase s) = normalize toLowerCase s.
Proof.
  unfold normalize. rewrite (tidy_neat_id (toLowerCase (tidy s))).
  - apply lower_idem.
  - apply lower_neat, tidy_neat.
Qed.

Lemma normalize_differ_only s t :
  differ_only single_quote_seen ws_gap s t ->
  normalize toLowerCase s = normalize toLowerCase t.
Proof.
  unfold normalize. intros H. f_equal.
  induction H as [s|a b c d H|a b r r' Hr Hr'|s t u _ IH1 _ IH2].
  - done.
  - by apply tidy_quote.
  - by apply tidy_gap.
  - by rewrite IH1.
Qed.

(** C8, as amended: [normalize] is idempotent, and two strings that
    differ only in curly double quotes against the straight one, in the
    right single curly quote U+2019 against the apostrophe, or in runs
    of whitespace that hold more than carriage returns, normalise to
    the same value. *)
Theorem normalize_idempotent_and_insensitive :
  (forall s, normalize toLowerCase (normalize toLowerCase s) = normalize toLowerCase s)
  /\ (forall s t, differ_only single_quote_seen ws_gap s t ->
                  normalize toLowerCase s = normalize toLowerCase t).
Proof. split; [apply normalize_idempotent | apply normalize_differ_only]. Qed.

End NormalizeLaws.

(** The stand-in for the engine obeys the laws. *)
Lemma lower_unit_idem c : lower_unit (lower_unit c) = lower_unit c.
Proof.
  unfold lower_unit.
  destruct ((65 <=? c) && (c <=? 90))%N eqn:E1.
  - apply andb_true_iff in E1 as [H1 H2]. apply N.leb_le in H1, H2.
    replace ((65 <=? c + 32) && (c + 32 <=? 90))%N with false
      by (symmetry; apply andb_false_iff; right; apply N.leb_gt; lia).
    replace ((192 <=? c + 32) && (c + 32 <=? 222) && negb (c + 32 =? 215))%N with false; [done|].
    symmetry. apply andb_false_iff; left. apply andb_false_iff; left. apply N.leb_gt; lia.
  - destruct ((192 <=? c) && (c <=? 222) && negb (c =? 215))%N eqn:E2; [|by rewrite E1, E2].
    apply andb_true_iff in E2 as [E2 _]. apply andb_true_iff in E2 as [H1 H2].
    apply N.leb_le in H1, H2.
    replace ((65 <=? c + 32) && (c + 32 <=? 90))%N with false
      by (symmetry; apply andb_false_iff; right; apply N.leb_gt; lia).
    replace ((192 <=? c + 32) && (c + 32 <=? 222) && negb (c + 32 =? 215))%N with false; [done|].
    symmetry. apply andb_false_iff; left. apply andb_false_iff; right. apply N.leb_gt; lia.
Qed.

Lemma lower_unit_cases c :
  lower_unit c = c \/
  (lower_unit c = (c + 32)%N /\ ((65 <= c <= 90)%N \/ (192 <= c <= 222)%N)).
Proof.
  unfold lower_unit.
  destruct ((65 <=? c) && (c <=? 90))%N eqn:E1.
  - right. apply andb_true_iff in E1 as [H1 H2]. apply N.leb_le in H1, H2. lia.
  - destruct ((192 <=? c) && (c <=? 222) && negb (c =? 215))%N eqn:E2; [|by left].
    right. apply andb_true_iff in E2 as [E2 _]. apply andb_true_iff in E2 as [H1 H2].
    apply N.leb_le in H1, H2. lia.
Qed.

Lemma is_ws_small c : (97 <= c <= 254)%N -> is_ws c = true -> c = 160%N.
Proof.
  intros Hc. unfold is_ws. rewrite !orb_true_iff, !andb_true_iff, !N.eqb_eq, !N.leb_le. lia.
Qed.

Lemma lower_unit_plain c : plain c -> plain (lower_unit c).
Proof.
  intros Hc. destruct (lower_unit_cases c) as [->|[-> Hr]]; [done|].
  unfold plain, LDQUO, RDQUO, RSQUO. repeat split; try lia.
  destruct (is_ws (c + 32)) eqn:E; [|done].
  apply is_ws_small in E; lia.
Qed.

Lemma toLowerCase_latin_idem s : toLowerCase_latin (toLowerCase_latin s) = toLowerCase_latin s.
Proof.
  unfold toLowerCase_latin. rewrite List.map_map. apply List.map_ext, lower_unit_idem.
Qed.

Lemma toLowerCase_latin_space a b :
  toLowerCase_latin (a ++ SP :: b) = toLowerCase_latin a ++ SP :: toLowerCase_latin b.
Proof. unfold toLowerCase_latin. by rewrite List.map_app. Qed.

Lemma toLowerCase_latin_nonempty s : s <> [] -> toLowerCase_latin s <> [].
Proof. by destruct s. Qed.

Lemma toLowerCase_latin_plain s : Forall plain s -> Forall plain (toLowerCase_latin s).
Proof.
  unfold toLowerCase_latin. induction 1; simpl; constructor; [by apply lower_unit_plain|done].
Qed.

Lemma toLowerCase_latin_nil : toLowerCase_latin [] = [].
Proof. reflexivity. Qed.

(** The amended C8 at work on the text [ “Hi”  there ] against
    [ "Hi" there ], with the lower-casing of Latin letters. *)
Lemma normalize_idempotent_and_insensitive_witness :
  normalize toLowerCase_latin
    (normalize toLowerCase_latin ([LDQUO] ++ js "Hi" ++ [RDQUO] ++ js "  there"))
  = normalize toLowerCase_latin ([LDQUO] ++ js "Hi" ++ [RDQUO] ++ js "  there")
  /\ normalize toLowerCase_latin ([LDQUO] ++ js "Hi" ++ [RDQUO] ++ js "  there")
     = normalize toLowerCase_latin ([QUOT] ++ js "Hi" ++ [RDQUO] ++ js "  there").
Proof.
  destruct (normalize_idempotent_and_insensitive toLowerCase_latin
              toLowerCase_latin_idem toLowerCase_latin_nil toLowerCase_latin_space
              toLowerCase_latin_nonempty toLowerCase_latin_plain) as [Hidem Hsame].
  split; [apply Hidem|]. apply Hsame.
  apply (differ_quote single_quote_seen ws_gap [] (js "Hi" ++ [RDQUO] ++ js "  there") LDQUO QUOT).
  left. split; [right; by left | by left].
Defined.

(** C8 as it is worded fails: a lone carriage return is a run of
    whitespace, yet it is deleted where a space is kept; and the left
    single curly quote U+2018 is not replaced by the apostrophe. *)
Lemma normalize_not_insensitive :
  (differ_only single_quote ws_run (js "a" ++ [CR] ++ js "b") (js "a" ++ [SP] ++ js "b")
   /\ normalize toLowerCase_latin (js "a" ++ [CR] ++ js "b")
      <> normalize toLowerCase_latin (js "a" ++ [SP] ++ js "b"))
  /\ (differ_only single_quote ws_run ([] ++ LSQUO :: js "hi") ([] ++ APOS :: js "hi")
      /\ normalize toLowerCase_latin ([] ++ LSQUO :: js "hi")
         <> normalize toLowerCase_latin ([] ++ APOS :: js "hi")).
Proof.
  split; split.
  - apply differ_run; split; try done; by repeat constructor.
  - vm_compute. discriminate.
  - apply differ_quote. right. split; [right; by left | by left].
  - vm_compute. discriminate.
Qed.

(** ** Statements on a connection *)

Lemma same_store_refl w : same_store w w.
Proof. by repeat split. Qed.

Lemma same_store_trans w1 w2 w3 : same_store w1 w2 -> same_store w2 w3 -> same_store w1 w3.
Proof. intros (?&?&?) (?&?&?). repeat split; congruence. Qed.

Lemma same_but_draws_refl w : same_but_draws w w.
Proof. split; [apply same_store_refl|done]. Qed.

Lemma same_but_draws_trans w1 w2 w3 :
  same_but_draws w1 w2 -> same_but_draws w2 w3 -> same_but_draws w1 w3.
Proof. intros [H1 ?] [H2 ?]. split; [by eapply same_store_trans|congruence]. Qed.

(** A statement either meets a fault or goes on with the same store. *)
Lemma tick_cases w :
  (exists w', tick w = (Throw SqliteFault, w') /\ same_store w w')
  \/ (exists w', tick w = (Ok tt, w') /\ same_store w w').
Proof.
  unfold tick. destruct (w_faults w) as [|[] fs].
  - right. eexists. split; [done|apply same_store_refl].
  - left. eexists. split; [done|by repeat split].
  - right. eexists. split; [done|by repeat split].
Qed.

Lemma tick_healthy w : w_faults w = [] -> tick w = (Ok tt, w).
Proof. unfold tick. by intros ->. Qed.

Lemma query_cases {A} (q : db -> A) w :
  (exists w', query q w = (Throw SqliteFault, w') /\ same_store w w')
  \/ (exists w', query q w = (Ok (q (w_db w)), w') /\ same_store w w').
Proof.
  unfold query, bind.
  destruct (tick_cases w) as [(w' & -> & Hs)|(w' & -> & Hs)]; [left|right]; eexists.
  - by split.
  - split; [|exact Hs]. by destruct Hs as (-> & _).
Qed.

Lemma query_healthy {A} (q : db -> A) w :
  w_faults w = [] -> query q w = (Ok (q (w_db w)), w).
Proof. intros H. unfold query, bind. by rewrite tick_healthy. Qed.

Lemma run_healthy {A} (stmt : db -> option (A * db)) w :
  w_faults w = [] ->
  run stmt w = match stmt (w_db w) with
               | Some (a, d) => (Ok a, set_db d w)
               | None => (Throw SqliteConstraint, w)
               end.
Proof. intros H. unfold run, bind. by rewrite tick_healthy. Qed.

Lemma setting_healthy key fallback w :
  w_faults w = [] ->
  getIntSetting key fallback w = (Ok (setting_of (w_db w) key fallback), w).
Proof.
  intros H. unfold getIntSetting, getSetting, bind, ret. rewrite query_healthy by done.
  unfold setting_of. by destruct (app_settings (w_db w) !! key).
Qed.

Lemma setting_cases key fallback w :
  (exists w', getIntSetting key fallback w = (Throw SqliteFault, w') /\ same_store w w')
  \/ (exists w', getIntSetting key fallback w = (Ok (setting_of (w_db w) key fallback), w')
                 /\ same_store w w').
Proof.
  unfold getIntSetting, getSetting, bind, ret.
  destruct (query_cases (fun d => app_settings d !! key) w) as [(w' & -> & Hs)|(w' & -> & Hs)];
    [left|right]; eexists; (split; [|exact Hs]); [done|].
  unfold setting_of. by destruct (app_settings (w_db w) !! key).
Qed.

Lemma random_below_draws n w :
  exists i w', random_below n w = (Ok i, w') /\ same_but_draws w w'
               /\ (n <> 0%nat -> (i < n)%nat).
Proof.
  unfold random_below. destruct (w_random w) as [|r rs].
  - exists 0%nat, w. split; [done|]. split; [apply same_but_draws_refl|lia].
  - exists (r mod n)%nat. eexists. split; [done|]. split; [by repeat split|].
    intros Hn. by apply Nat.mod_upper_bound.
Qed.

(** Reduction of the projections of a world, and one step of a handler on
    a store that answers. *)
Ltac wsimpl :=
  cbn [w_db w_txn w_faults w_random w_now set_db set_txn set_faults set_random fst snd].

Ltac healthy_step :=
  first [ rewrite query_healthy by done
        | rewrite run_healthy by done
        | rewrite setting_healthy by done ];
  wsimpl.

Lemma run_cases {A} (stmt : db -> option (A * db)) w :
  exists w0, same_store w w0 /\
    (run stmt w = (Throw SqliteFault, w0)
     \/ (stmt (w_db w) = None /\ run stmt w = (Throw SqliteConstraint, w0))
     \/ (exists a d, stmt (w_db w) = Some (a, d) /\ run stmt w = (Ok a, set_db d w0))).
Proof.
  unfold run, bind.
  destruct (tick_cases w) as [(w' & -> & Hs)|(w' & -> & Hs)]; exists w'; (split; [done|]).
  - by left.
  - right. destruct Hs as (-> & _). destruct (stmt (w_db w)) as [[a d]|] eqn:E.
    + right. by exists a, d.
    + by left.
Qed.

(** *** What a result says about the steps taken *)

Lemma bind_ok {A B} (m : M A) (k : A -> M B) w b w' :
  bind m k w = (Ok b, w') -> exists a w1, m w = (Ok a, w1) /\ k a w1 = (Ok b, w').
Proof.
  unfold bind. destruct (m w) as [[a|e|] w1]; [|done..]. intros H. by exists a, w1.
Qed.

Lemma try_catch_ok {A} (m : M A) (h : exn -> M A) w a w' :
  try_catch m h w = (Ok a, w') ->
  m w = (Ok a, w') \/ exists e w1, m w = (Throw e, w1) /\ h e w1 = (Ok a, w').
Proof.
  unfold try_catch. destruct (m w) as [[a'|e|] w1]; [by left| |done].
  intros H. right. by exists e, w1.
Qed.

Lemma tick_ok w w' : tick w = (Ok tt, w') -> same_store w w'.
Proof.
  destruct (tick_cases w) as [(w1 & -> & _)|(w1 & -> & Hs)]; [done|]. by intros [= <-].
Qed.

Lemma query_ok {A} (q : db -> A) w a w' :
  query q w = (Ok a, w') -> a = q (w_db w) /\ same_store w w'.
Proof.
  destruct (query_cases q w) as [(w1 & -> & _)|(w1 & -> & Hs)]; [done|]. by intros [= <- <-].
Qed.

Lemma run_ok {A} (stmt : db -> option (A * db)) w a w' :
  run stmt w = (Ok a, w') ->
  stmt (w_db w) = Some (a, w_db w') /\ w_txn w' = w_txn w /\ w_now w' = w_now w.
Proof.
  destruct (run_cases stmt w) as (w0 & (Hdb & Htx & Hnow) & [->|[[_ ->]|(a' & d & Hs & ->)]]);
    [done..|]. intros [= <- <-]. by rewrite Hs.
Qed.

Lemma setting_ok key fallback w n w' :
  getIntSetting key fallback w = (Ok n, w') ->
  n = setting_of (w_db w) key fallback /\ same_store w w'.
Proof.
  destruct (setting_cases key fallback w) as [(w1 & -> & _)|(w1 & -> & Hs)]; [done|].
  by intros [= <- <-].
Qed.

Lemma random_below_ok n w i w' : random_below n w = (Ok i, w') -> same_store w w'.
Proof.
  destruct (random_below_draws n w) as (i' & w1 & -> & [Hs _] & _). by intros [= <- <-].
Qed.

Lemma same_store_committed w w' : same_store w w' -> committed w' = committed w.
Proof. intros (Hd & Ht & _). unfold committed. by rewrite Hd, Ht. Qed.

Lemma keeps_ret {A} (a : A) : keeps_store (ret a).
Proof. intros w. apply same_store_refl. Qed.

Lemma keeps_throw {A} e : keeps_store (@throw A e).
Proof. intros w. apply same_store_refl. Qed.

Lemma keeps_query {A} (q : db -> A) : keeps_store (query q).
Proof. intros w. by destruct (query_cases q w) as [(w' & -> & ?)|(w' & -> & ?)]. Qed.

Lemma keeps_setting key fallback : keeps_store (getIntSetting key fallback).
Proof.
  intros w. by destruct (setting_cases key fallback w) as [(w' & -> & ?)|(w' & -> & ?)].
Qed.

Lemma keeps_random n : keeps_store (random_below n).
Proof. intros w. by destruct (random_below_draws n w) as (i & w' & -> & [? _] & _). Qed.

Lemma keeps_bind {A B} (m : M A) (k : A -> M B) :
  keeps_store m -> (forall a, keeps_store (k a)) -> keeps_store (bind m k).
Proof.
  intros Hm Hk w. unfold bind. specialize (Hm w).
  destruct (m w) as [[a|e|] w1]; simpl in *; [|done..].
  eapply same_store_trans; [exact Hm|apply Hk].
Qed.

Lemma keeps_try_catch {A} (m : M A) (h : exn -> M A) :
  keeps_store m -> (forall e, keeps_store (h e)) -> keeps_store (try_catch m h).
Proof.
  intros Hm Hh w. unfold try_catch. specialize (Hm w).
  destruct (m w) as [[a|e|] w1]; simpl in *; [done| |done].
  eapply same_store_trans; [exact Hm|apply Hh].
Qed.

Lemma keeps_query_random {A} (q : db -> list A) : keeps_store (query_random q).
Proof.
  unfold query_random. apply keeps_bind; [apply keeps_query|]. intros [|x l]; [apply keeps_ret|].
  apply keeps_bind; [apply keeps_random|]. intros i. apply keeps_ret.
Qed.

Lemma keeps_ok {A} (m : M A) w a w' : keeps_store m -> m w = (Ok a, w') -> same_store w w'.
Proof. intros H E. specialize (H w). by rewrite E in H. Qed.

(** ** Redemption ledger *)

Lemma user_by_id_update uid f d u :
  (forall r, u_id (f r) = u_id r) ->
  user_by_id uid d = Some u ->
  user_by_id uid (update_user uid f d) = Some (f u).
Proof.
  intros Hf. unfold user_by_id, update_user. simpl.
  induction (users d) as [|r l IH]; [done|]. simpl.
  destruct (u_id r =? uid) eqn:E.
  - intros [= ->]. simpl. by rewrite Hf, E.
  - simpl. by rewrite E.
Qed.

Lemma user_by_id_update_other uid uid' f d :
  (forall r, u_id (f r) = u_id r) -> uid' <> uid ->
  user_by_id uid' (update_user uid f d) = user_by_id uid' d.
Proof.
  intros Hf Hne. unfold user_by_id, update_user. simpl.
  induction (users d) as [|r l IH]; [done|]. simpl.
  destruct (u_id r =? uid) eqn:E.
  - apply Z.eqb_eq in E. rewrite Hf.
    replace (u_id r =? uid') with false by (symmetry; apply Z.eqb_neq; lia). done.
  - destruct (u_id r =? uid'); [done|apply IH].
Qed.

Lemma setting_default d key fallback :
  app_settings d !! key = None -> setting_of d key fallback = fallback.
Proof. unfold setting_of. by intros ->. Qed.

Lemma redeem_below d txn rnd now uid u :
  user_by_id uid d = Some u ->
  bonus_ksh u < setting_of d (js "referral_redeem_threshold_ksh") 1000 ->
  redeem uid (mkWorld d txn [] rnd now)
  = (Ok (mkResponse 400 (PThreshold (setting_of d (js "referral_redeem_threshold_ksh") 1000))),
     mkWorld d txn [] rnd now).
Proof.
  intros Hu Hlt. unfold redeem, bind. healthy_step. rewrite Hu. do 2 healthy_step.
  by apply Z.ltb_lt in Hlt as ->.
Qed.

Lemma redeem_reached d txn rnd now uid u :
  user_by_id uid d = Some u ->
  setting_of d (js "referral_redeem_threshold_ksh") 1000 <= bonus_ksh u ->
  let transfer := setting_of d (js "referral_redeem_transfer_ksh") 1000 in
  redeem uid (mkWorld d txn [] rnd now)
  = (Ok (mkResponse 200 (PWallet (Some (balance_ksh u + transfer, bonus_ksh u - transfer)))),
     mkWorld (update_user uid (fun r => add_bonus (- transfer) (add_balance transfer r)) d)
             txn [] rnd now).
Proof.
  intros Hu Hge transfer. unfold redeem, bind. healthy_step. rewrite Hu. do 2 healthy_step.
  apply Z.ltb_ge in Hge as ->. do 2 healthy_step. fold transfer.
  rewrite (user_by_id_update uid _ d u) by done. simpl. unfold ret. repeat f_equal; lia.
Qed.

Lemma redeem_fixed_below d txn rnd now uid u :
  user_by_id uid d = Some u -> bonus_ksh u < 1000 ->
  redeem_fixed uid (mkWorld d txn [] rnd now)
  = (Ok (mkResponse 400 (PError "Bonus must reach KSH 1000 to redeem.")),
     mkWorld d txn [] rnd now).
Proof.
  intros Hu Hlt. unfold redeem_fixed, bind. healthy_step. rewrite Hu.
  by apply Z.ltb_lt in Hlt as ->.
Qed.

Lemma redeem_fixed_reached d txn rnd now uid u :
  user_by_id uid d = Some u -> 1000 <= bonus_ksh u ->
  redeem_fixed uid (mkWorld d txn [] rnd now)
  = (Ok (mkResponse 200 (PRedeemed 1000 (balance_ksh u + 1000) (bonus_ksh u - 1000))),
     mkWorld (with_bonus_redemptions (fun l => l ++ [mkRedemption uid 1000])
                (update_user uid (fun r => add_bonus (- 1000) (add_balance 1000 r)) d))
             txn [] rnd now).
Proof.
  intros Hu Hge. unfold redeem_fixed, bind. healthy_step. rewrite Hu.
  apply Z.ltb_ge in Hge as ->. do 2 healthy_step. unfold insert_redemption. healthy_step.
  change (user_by_id uid (with_bonus_redemptions ?f ?x)) with (user_by_id uid x).
  rewrite (user_by_id_update uid _ d u) by done. simpl. unfold ret. do 3 f_equal.
Qed.

(** C4, as amended: on a store that answers, Redeem fails with
    ThresholdNotMet exactly when the bonus is below the configured
    threshold (1000 when unset); when it succeeds the balance grows and
    the bonus shrinks by exactly the configured transfer amount (1000
    when unset), and the route of referrals.js moves exactly 1000 past a
    threshold of 1000. *)
Theorem redeem_threshold_and_amount d txn rnd now uid u :
  user_by_id uid d = Some u ->
  let w := mkWorld d txn [] rnd now in
  let threshold := setting_of d (js "referral_redeem_threshold_ksh") 1000 in
  let transfer := setting_of d (js "referral_redeem_transfer_ksh") 1000 in
  (fst (redeem uid w) = Ok (mkResponse 400 (PThreshold threshold)) <-> bonus_ksh u < threshold)
  /\ (threshold <= bonus_ksh u ->
      fst (redeem uid w)
      = Ok (mkResponse 200 (PWallet (Some (balance_ksh u + transfer, bonus_ksh u - transfer))))
      /\ balance_of uid (w_db (snd (redeem uid w))) = Some (balance_ksh u + transfer)
      /\ bonus_of uid (w_db (snd (redeem uid w))) = Some (bonus_ksh u - transfer))
  /\ (app_settings d !! js "referral_redeem_threshold_ksh" = None -> threshold = 1000)
  /\ (app_settings d !! js "referral_redeem_transfer_ksh" = None -> transfer = 1000)
  /\ (fst (redeem_fixed uid w)
      = Ok (mkResponse 400 (PError "Bonus must reach KSH 1000 to redeem."))
      <-> bonus_ksh u < 1000)
  /\ (1000 <= bonus_ksh u ->
      fst (redeem_fixed uid w)
      = Ok (mkResponse 200 (PRedeemed 1000 (balance_ksh u + 1000) (bonus_ksh u - 1000)))
      /\ balance_of uid (w_db (snd (redeem_fixed uid w))) = Some (balance_ksh u + 1000)
      /\ bonus_of uid (w_db (snd (redeem_fixed uid w))) = Some (bonus_ksh u - 1000)).
Proof.
  intros Hu w threshold transfer. subst w.
  split; [|split; [|split; [|split; [|split]]]].
  - split.
    + intros H. destruct (Z.lt_ge_cases (bonus_ksh u) threshold) as [|Hge]; [done|].
      rewrite (redeem_reached d txn rnd now uid u Hu Hge) in H. discriminate H.
    + intros H. by rewrite (redeem_below d txn rnd now uid u Hu H).
  - intros Hge. rewrite (redeem_reached d txn rnd now uid u Hu Hge). simpl.
    unfold balance_of, bonus_of. rewrite (user_by_id_update uid _ d u) by done. simpl.
    fold transfer. repeat split; f_equal; lia.
  - apply setting_default.
  - apply setting_default.
  - split.
    + intros H. destruct (Z.lt_ge_cases (bonus_ksh u) 1000) as [|Hge]; [done|].
      rewrite (redeem_fixed_reached d txn rnd now uid u Hu Hge) in H. discriminate H.
    + intros H. by rewrite (redeem_fixed_below d txn rnd now uid u Hu H).
  - intros Hge. rewrite (redeem_fixed_reached d txn rnd now uid u Hu Hge). simpl.
    unfold balance_of, bonus_of.
    change (user_by_id uid (with_bonus_redemptions ?f ?x)) with (user_by_id uid x).
    rewrite (user_by_id_update uid _ d u) by done. simpl. repeat split; f_equal; lia.
Qed.

(** The scenario of the specification: a bonus of 1050 and a balance of
    200 under the default settings. *)
Lemma redeem_threshold_and_amount_witness :
  fst (redeem 1 (mkWorld (wallet_db 200 1050 ∅) None [] [] 0))
  = Ok (mkResponse 200 (PWallet (Some (200 + 1000, 1050 - 1000)))).
Proof.
  pose proof (redeem_threshold_and_amount (wallet_db 200 1050 ∅) None [] 0 1
                (wallet_user 200 1050) eq_refl) as H.
  cbv zeta in H. destruct H as (_ & H & _).
  exact (proj1 (H ltac:(vm_compute; discriminate))).
Defined.

(** C4 as it is worded fails: with the transfer setting at 500 a bonus of
    1000 redeems 500, not 1000. *)
Lemma redeem_amount_not_always_1000 :
  let d := wallet_db 0 1000 {[ js "referral_redeem_transfer_ksh" := js "500" ]} in
  let w' := snd (redeem 1 (mkWorld d None [] [] 0)) in
  fst (redeem 1 (mkWorld d None [] [] 0)) = Ok (mkResponse 200 (PWallet (Some (500, 500))))
  /\ balance_of 1 (w_db w') = Some 500 /\ bonus_of 1 (w_db w') = Some 500
  /\ ~ (balance_of 1 (w_db w') = Some (0 + 1000) /\ bonus_of 1 (w_db w') = Some (1000 - 1000)).
Proof. vm_compute. repeat split; try done. by intros [[=] _]. Qed.

(** C5 fails on the main server: with a threshold of 500 and a transfer
    of 1000, a bonus of 600 passes the check and ends at -400. *)
Lemma redeem_overdraws_bonus :
  let d := wallet_db 0 600 {[ js "referral_redeem_threshold_ksh" := js "500";
                              js "referral_redeem_transfer_ksh" := js "1000" ]} in
  let w' := snd (redeem 1 (mkWorld d None [] [] 0)) in
  bonus_of 1 d = Some 600
  /\ fst (redeem 1 (mkWorld d None [] [] 0)) = Ok (mkResponse 200 (PWallet (Some (1000, -400))))
  /\ bonus_of 1 (w_db w') = Some (-400).
Proof. vm_compute. done. Qed.

(** ** Administrative overrides *)

Lemma parse_amount_spec key body z :
  parse_amount key body = Some z ->
  0 <= z /\ exists fields n, body = JObj fields /\ field_of key fields = Some (JNum n)
                             /\ num_int n = Some z.
Proof.
  unfold parse_amount. destruct body as [| | | | |fields]; try done.
  destruct (field_of key fields) as [[| |n| | |]|] eqn:E; try done.
  destruct (num_int n) as [z'|] eqn:En; [|done].
  destruct (0 <=? z') eqn:Ez; [|done]. intros [= <-].
  split; [by apply Z.leb_le|]. by exists fields, n.
Qed.

Lemma audit_keeps_users adminId act ent id w :
  users (w_db (snd (audit adminId act ent id w))) = users (w_db w).
Proof.
  unfold audit, try_catch.
  destruct (run_cases (fun d => Some (tt, with_admin_audit
            (fun l => l ++ [mkAudit adminId act ent
                              (if num_truthy id then Some id else None)]) d)) w)
    as (w0 & (Hdb & _) & [->|[[? ->]|(a & d & [= <- <-] & ->)]]); simpl; by rewrite ?Hdb.
Qed.

Lemma audit_total adminId act ent id w :
  exists w', audit adminId act ent id w = (Ok tt, w').
Proof.
  unfold audit, try_catch.
  destruct (run_cases (fun d => Some (tt, with_admin_audit
            (fun l => l ++ [mkAudit adminId act ent
                              (if num_truthy id then Some id else None)]) d)) w)
    as (w0 & _ & [->|[[? ->]|(a & d & [= <- <-] & ->)]]); by eexists.
Qed.

Lemma override_users (key : list N) (f : Z -> user -> user) adminId act id body w :
  let handler :=
    respond_caught 400
      (match parse_amount key body with
       | None => throw ZodError
       | Some amount =>
           if negb (num_isFinite id) then ret (mkResponse 400 (PError "Invalid id"))
           else
             run (fun d => Some (tt, update_user_num id (f amount) d)) ;;;
             audit adminId act "user" id ;;;
             u <- query (user_by_num id) ;;
             ret (mkResponse 200 (PRow u))
       end) in
  users (w_db (snd (handler w))) = users (w_db w)
  \/ exists z, parse_amount key body = Some z
       /\ users (w_db (snd (handler w)))
          = List.map (fun u => if num_is id (u_id u) then f z u else u) (users (w_db w)).
Proof.
  intros handler. subst handler. unfold respond_caught, try_catch.
  destruct (parse_amount key body) as [amount|]; [|by left].
  destruct (negb (num_isFinite id)); [by left|].
  unfold bind.
  destruct (run_cases (fun d => Some (tt, update_user_num id (f amount) d)) w)
    as (w0 & (Hdb & _) & [->|[[? ->]|(a & d & [= <- <-] & ->)]]); simpl; [left; by rewrite Hdb..|].
  right. exists amount. split; [done|].
  pose proof (audit_keeps_users adminId act "user" id (set_db (update_user_num id (f amount) (w_db w)) w0)) as Hk.
  destruct (audit_total adminId act "user" id (set_db (update_user_num id (f amount) (w_db w)) w0)) as (w1 & Ha).
  rewrite Ha in Hk |- *. simpl in Hk.
  destruct (query_cases (user_by_num id) w1) as [(w2 & -> & (Hdb2 & _))|(w2 & -> & (Hdb2 & _))];
    simpl; by rewrite Hdb2, Hk.
Qed.

Lemma overridden_rows (id : jsnum) (f : user -> user) (value : user -> Z) z l :
  (forall u, u_id (f u) = u_id u) -> (forall u, value (f u) = z) ->
  Forall (fun u => num_is id (u_id u) = true -> value u = z)
         (List.map (fun u => if num_is id (u_id u) then f u else u) l).
Proof.
  intros Hid Hval. induction l as [|u l IH]; simpl; constructor; [|done].
  destruct (num_is id (u_id u)) eqn:E; [by rewrite Hval|]. by rewrite E.
Qed.

(** C10: whatever an administrator posts to the balance or the bonus
    override, the rows of users either stay as they were or, when the
    body holds a number that is an integer [z] with [0 <= z], the rows of
    the addressed key, and only those, get [z] as their balance (their
    bonus): no override stores a negative or a fractional amount. *)
Theorem admin_override_non_negative adminId id body w :
  (users (w_db (snd (admin_set_balance adminId id body w))) = users (w_db w)
   \/ exists z fields n,
        body = JObj fields /\ field_of (js "balance_ksh") fields = Some (JNum n)
        /\ num_int n = Some z /\ 0 <= z
        /\ users (w_db (snd (admin_set_balance adminId id body w)))
           = List.map (fun u => if num_is id (u_id u) then set_balance z u else u)
                      (users (w_db w))
        /\ Forall (fun u => num_is id (u_id u) = true -> balance_ksh u = z)
                  (users (w_db (snd (admin_set_balance adminId id body w)))))
  /\ (users (w_db (snd (admin_set_bonus adminId id body w))) = users (w_db w)
      \/ exists z fields n,
           body = JObj fields /\ field_of (js "bonus_ksh") fields = Some (JNum n)
           /\ num_int n = Some z /\ 0 <= z
           /\ users (w_db (snd (admin_set_bonus adminId id body w)))
              = List.map (fun u => if num_is id (u_id u) then set_bonus z u else u)
                         (users (w_db w))
           /\ Forall (fun u => num_is id (u_id u) = true -> bonus_ksh u = z)
                     (users (w_db (snd (admin_set_bonus adminId id body w))))).
Proof.
  split.
  - destruct (override_users (js "balance_ksh") set_balance adminId "set_balance" id body w)
      as [H|(z & Hz & H)]; [by left|right].
    destruct (parse_amount_spec _ _ _ Hz) as (Hpos & fields & n & -> & Hf & Hn).
    exists z, fields, n. repeat split; try done.
    unfold admin_set_balance. rewrite H. by apply overridden_rows.
  - destruct (override_users (js "bonus_ksh") set_bonus adminId "set_bonus" id body w)
      as [H|(z & Hz & H)]; [by left|right].
    destruct (parse_amount_spec _ _ _ Hz) as (Hpos & fields & n & -> & Hf & Hn).
    exists z, fields, n. repeat split; try done.
    unfold admin_set_bonus. rewrite H. by apply overridden_rows.
Qed.

(** An override with a negative or a fractional amount writes nothing. *)
Example admin_override_rejects :
  let w := mkWorld (wallet_db 200 1050 ∅) None [] [] 0 in
  let id := JsFin (inject_Z 1) in
  snd (admin_set_balance 7 id (JObj [(js "balance_ksh", JNum (JsFin (inject_Z (-5))))]) w) = w
  /\ snd (admin_set_bonus 7 id (JObj [(js "bonus_ksh", JNum (JsFin (1 # 2)))]) w) = w
  /\ balance_of 1 (w_db (snd (admin_set_balance 7 id
                     (JObj [(js "balance_ksh", JNum (JsFin (inject_Z 40)))]) w))) = Some 40.
Proof. vm_compute. done. Qed.

(** ** Task completion *)

(** A write inside a transaction leaves the transaction open. *)
Lemma run_in_txn {A} (stmt : db -> option (A * db)) w d0 :
  w_txn w = Some d0 ->
  exists w', w_txn w' = Some d0 /\
    ((exists e, run stmt w = (Throw e, w'))
     \/ (exists a, stmt (w_db w) = Some (a, w_db w') /\ run stmt w = (Ok a, w'))).
Proof.
  intros Ht.
  destruct (run_cases stmt w) as (w0 & (Hdb & Htx & _) & [H|[[_ H]|(a & d & Hs & H)]]).
  - exists w0. split; [congruence|]. left. by eexists.
  - exists w0. split; [congruence|]. left. by eexists.
  - exists (set_db d w0). split; [simpl; congruence|]. right. by exists a.
Qed.

Lemma rollback_in_txn w d0 :
  w_txn w = Some d0 ->
  exists o w', run_rollback w = (o, w') /\ committed w' = d0 /\ o <> Spin.
Proof.
  intros Ht. unfold run_rollback, bind.
  destruct (tick_cases w) as [(w' & -> & (Hdb & Htx & _))|(w' & -> & (Hdb & Htx & _))].
  - do 2 eexists. split; [done|]. unfold committed. rewrite Htx, Ht. done.
  - rewrite Htx, Ht. do 2 eexists. split; [done|]. done.
Qed.

Lemma begin_cases w :
  exists w1, same_store w w1 /\
    ((exists e, run_begin w = (Throw e, w1))
     \/ (w_txn w = None /\ run_begin w = (Ok tt, set_txn (Some (w_db w)) w1))).
Proof.
  unfold run_begin, bind.
  destruct (tick_cases w) as [(w' & -> & Hs)|(w' & -> & Hs)]; exists w'; (split; [done|]).
  - left. by eexists.
  - destruct Hs as (Hdb & Htx & _). rewrite Htx, Hdb. destruct (w_txn w).
    + left. by eexists.
    + by right.
Qed.

Lemma commit_in_txn w d0 :
  w_txn w = Some d0 ->
  exists w', w_db w' = w_db w /\
    ((exists e, run_commit w = (Throw e, w') /\ w_txn w' = Some d0)
     \/ (run_commit w = (Ok tt, w') /\ w_txn w' = None)).
Proof.
  intros Ht. unfold run_commit, bind.
  destruct (tick_cases w) as [(w' & -> & (Hdb & Htx & _))|(w' & -> & (Hdb & Htx & _))].
  - exists w'. split; [done|]. left. eexists. split; [done|congruence].
  - rewrite Htx, Ht. eexists. split; [|by right]. done.
Qed.

(** The three writes and the COMMIT, run inside an open transaction:
    all of them take effect, or the transaction is still open. *)
Lemma writes_in_txn uid taskId rowId reward now ans w d0 :
  w_txn w = Some d0 ->
  exists o w',
    (run (fun d => Some (tt, stamp rowId now ans d)) ;;;
     run (insert_completion uid taskId reward (Some ans) now) ;;;
     run (fun d => Some (tt, credit uid reward d)) ;;;
     run_commit) w = (o, w')
    /\ ((o = Ok tt /\ w_txn w' = None
         /\ completion_of uid taskId rowId reward now ans (w_db w) = Some (w_db w'))
        \/ ((exists e, o = Throw e) /\ w_txn w' = Some d0)).
Proof.
  intros Ht. unfold bind.
  destruct (run_in_txn (fun d => Some (tt, stamp rowId now ans d)) w d0 Ht)
    as (w1 & Ht1 & [[e ->]|(a & [= <- Hd1] & ->)]).
  { do 2 eexists. split; [done|]. right. split; [by eexists|done]. }
  destruct (run_in_txn (insert_completion uid taskId reward (Some ans) now) w1 d0 Ht1)
    as (w2 & Ht2 & [[e ->]|([] & Hd2 & ->)]).
  { do 2 eexists. split; [done|]. right. split; [by eexists|done]. }
  destruct (run_in_txn (fun d => Some (tt, credit uid reward d)) w2 d0 Ht2)
    as (w3 & Ht3 & [[e ->]|(a3 & [= <- Hd3] & ->)]).
  { do 2 eexists. split; [done|]. right. split; [by eexists|done]. }
  destruct (commit_in_txn w3 d0 Ht3) as (w4 & Hdb4 & [(e & -> & Ht4)|[-> Ht4]]).
  { do 2 eexists. split; [done|]. right. split; [by eexists|done]. }
  do 2 eexists. split; [done|]. left. repeat split; [done|].
  unfold completion_of. rewrite Hd1, Hd2, Hdb4. by rewrite Hd3.
Qed.

Lemma complete_writes_atomic uid taskId rowId reward now ans w :
  exists o w', complete_writes uid taskId rowId reward now ans w = (o, w') /\
    ((o = Ok tt /\ w_txn w = None /\ w_txn w' = None
      /\ completion_of uid taskId rowId reward now ans (w_db w) = Some (w_db w'))
     \/ ((exists e, o = Throw e) /\ committed w' = committed w)).
Proof.
  unfold complete_writes, bind at 1.
  destruct (begin_cases w) as (w1 & Hs & [[e ->]|[Hnone ->]]).
  { do 2 eexists. split; [done|]. right. split; [by eexists|by apply same_store_committed]. }
  unfold try_catch.
  destruct (writes_in_txn uid taskId rowId reward now ans (set_txn (Some (w_db w)) w1) (w_db w) eq_refl)
    as (o & w2 & -> & [(-> & Ht2 & Hc)|[[e ->] Ht2]]).
  - do 2 eexists. split; [done|]. left. repeat split; try done.
    destruct Hs as (Hdb & _). cbn [w_db set_txn] in Hc. by rewrite Hdb in Hc.
  - unfold bind.
    destruct (rollback_in_txn w2 (w_db w) Ht2) as (o & w3 & -> & Hc & Hspin).
    assert (committed w = w_db w) as Hcw by (unfold committed; by rewrite Hnone).
    destruct o as [[]|e'|]; [| |done].
    + do 2 eexists. split; [done|]. right. split; [by eexists|congruence].
    + do 2 eexists. split; [done|]. right. split; [by eexists|congruence].
Qed.

Lemma complete_atomic req w :
  exists o w', complete req w = (Ok o, w') /\
    ((committed w' = committed w /\ status o <> 200)
     \/ (exists dt task,
           w_txn w = None /\ w_txn w' = None
           /\ assigned_row (cr_user req) (nairobi_day (w_now w)) (cr_id req) (w_db w) = Some dt
           /\ completed_at dt = None
           /\ active_task (cr_id req) (w_db w) = Some task
           /\ completion_of (cr_user req) (cr_id req) (dt_id dt) (reward_ksh task)
                (w_now w) (answer_of req) (w_db w) = Some (w_db w'))).
Proof.
  unfold complete, try_catch, bind at 1, clock. fold (answer_of req).
  destruct (negb (num_isFinite (cr_id req))).
  { do 2 eexists. split; [done|]. left. by split. }
  destruct (Z.of_nat (length (answer_of req)) <? 2).
  { do 2 eexists. split; [done|]. left. by split. }
  unfold bind at 1.
  destruct (query_cases (assigned_row (cr_user req) (nairobi_day (w_now w)) (cr_id req)) w)
    as [(w1 & -> & Hs1)|(w1 & -> & Hs1)].
  { do 2 eexists. split; [done|]. left. split; [by apply same_store_committed|done]. }
  destruct (assigned_row _ _ _ (w_db w)) as [dt|] eqn:Hdt.
  2: { do 2 eexists. split; [done|]. left. split; [by apply same_store_committed|done]. }
  destruct (completed_at dt) eqn:Hdone.
  { do 2 eexists. split; [done|]. left. split; [by apply same_store_committed|done]. }
  unfold bind at 1.
  destruct (query_cases (active_task (cr_id req)) w1) as [(w2 & -> & Hs2)|(w2 & -> & Hs2)].
  { do 2 eexists. split; [done|]. left.
    split; [apply same_store_committed; by eapply same_store_trans|done]. }
  pose proof (same_store_trans _ _ _ Hs1 Hs2) as Hs12.
  destruct Hs1 as (Hdb1 & _). rewrite Hdb1.
  destruct (active_task (cr_id req) (w_db w)) as [task|] eqn:Htask.
  2: { do 2 eexists. split; [done|]. left. split; [by apply same_store_committed|done]. }
  unfold bind at 1.
  destruct (complete_writes_atomic (cr_user req) (cr_id req) (dt_id dt) (reward_ksh task)
              (w_now w) (answer_of req) w2)
    as (o & w3 & -> & [(-> & Ht2 & Ht3 & Hc)|[[e ->] Hc]]).
  2: { do 2 eexists. split; [done|]. left. split; [|done].
       rewrite Hc. by apply same_store_committed. }
  set (tail := bind (query (user_by_id (cr_user req))) _).
  assert (keeps_store tail) as Htail.
  { apply keeps_bind; [apply keeps_query|]. intros me.
    apply keeps_bind; [apply keeps_setting|]. intros limit.
    apply keeps_bind; [apply keeps_query|]. intros rows. apply keeps_ret. }
  specialize (Htail w3). destruct Hs12 as (Hdb2 & Htx2 & _).
  destruct (tail w3) as [[r| |] w4] eqn:Et; simpl in Htail; destruct Htail as (Hdb4 & Htx4 & _).
  - do 2 eexists. split; [done|]. right. exists dt, task.
    repeat split; try congruence.
  - do 2 eexists. split; [done|]. right. exists dt, task.
    repeat split; try congruence.
  - exfalso. subst tail. unfold bind in Et.
    destruct (query_cases (user_by_id (cr_user req)) w3) as [(w5 & E5 & _)|(w5 & E5 & _)];
      rewrite E5 in Et; [done|].
    destruct (setting_cases (js "tasks_per_day") 10 w5) as [(w6 & E6 & _)|(w6 & E6 & _)];
      rewrite E6 in Et; [done|].
    destruct (query_cases (day_rows (cr_user req) (nairobi_day (w_now w))
                (setting_of (w_db w5) (js "tasks_per_day") 10)) w6)
      as [(w7 & E7 & _)|(w7 & E7 & _)]; rewrite E7 in Et; done.
Qed.

(** On the main server a completion is all or nothing, whatever the
    storage layer rejects: the committed tables are those before the
    call, or those with the three writes done. *)
Lemma complete_all_or_nothing req w :
  committed (snd (complete req w)) = committed w
  \/ exists dt task,
       assigned_row (cr_user req) (nairobi_day (w_now w)) (cr_id req) (w_db w) = Some dt
       /\ active_task (cr_id req) (w_db w) = Some task
       /\ completion_of (cr_user req) (cr_id req) (dt_id dt) (reward_ksh task)
            (w_now w) (answer_of req) (committed w)
          = Some (committed (snd (complete req w))).
Proof.
  destruct (complete_atomic req w) as (o & w' & -> & [[H _]|(dt & task & H1 & H2 & H3 & _ & H5 & H6)]).
  - by left.
  - right. exists dt, task. unfold committed. simpl. by rewrite H1, H2.
Qed.

(** C1 fails on the route of tasks_transcription.js: it writes the
    completion and the credit as two statements of their own. When the
    storage layer rejects the second one, the completion stays recorded
    and the balance stays uncredited. *)
Lemma complete_daily_record_without_credit :
  let w := mkWorld completion_db None [false; false; false; false; false; false; true] [] noon in
  let w' := snd (complete_daily toLowerCase_latin daily_submission w) in
  fst (complete_daily toLowerCase_latin daily_submission w)
  = Ok (mkResponse 400 (PThrown SqliteFault))
  /\ task_completions (committed w') = [mkCompletion 1 1 7 20 None noon]
  /\ balance_of 1 (committed w) = Some 0
  /\ balance_of 1 (committed w') = Some 0.
Proof. vm_compute. done. Qed.

(** The same submission on a store that answers: recorded and credited. *)
Example complete_daily_credited :
  let w := mkWorld completion_db None [] [] noon in
  let w' := snd (complete_daily toLowerCase_latin daily_submission w) in
  fst (complete_daily toLowerCase_latin daily_submission w)
  = Ok (mkResponse 200 (PCompletedDaily 20 1 4))
  /\ task_completions (committed w') = [mkCompletion 1 1 7 20 None noon]
  /\ balance_of 1 (committed w') = Some 20.
Proof. vm_compute. done. Qed.

(** The main server under the same fault, on the third write: nothing stays. *)
Example complete_rolled_back :
  let w := mkWorld completion_db None [false; false; false; false; false; true] [] noon in
  let req := mkCompleteRequest 1 (JsFin (inject_Z 7)) (Some (js "hello world")) None in
  fst (complete req w) = Ok (mkResponse 500 (PThrown SqliteFault))
  /\ w_db (snd (complete req w)) = completion_db.
Proof. vm_compute. done. Qed.

(** C9, as amended: when the task id of the path is a finite number and
    the trimmed answer is shorter than two code units, the answer is
    refused with [Answer is required] before any table is read, whatever
    the store holds, and the world is as it was. *)
Theorem complete_short_answer_refused req w :
  num_isFinite (cr_id req) = true ->
  (length (answer_of req) < 2)%nat ->
  complete req w = (Ok (mkResponse 400 (PError "Answer is required")), w).
Proof.
  intros Hid Hlen. unfold complete, try_catch, bind, clock. fold (answer_of req).
  rewrite Hid. simpl.
  replace (Z.of_nat (length (answer_of req)) <? 2) with true; [done|].
  symmetry. apply Z.ltb_lt. lia.
Qed.

Lemma complete_short_answer_refused_witness :
  complete (mkCompleteRequest 1 (JsFin (inject_Z 99)) (Some (js "  a  ")) None)
           (mkWorld completion_db None [] [] noon)
  = (Ok (mkResponse 400 (PError "Answer is required")), mkWorld completion_db None [] [] noon).
Proof.
  apply complete_short_answer_refused; [reflexivity | vm_compute; lia].
Defined.

(** C9 as it is worded fails: a path whose id is no number is refused as
    an invalid task id before the answer is looked at. *)
Lemma complete_invalid_id_first :
  let req := mkCompleteRequest 1 JsNaN None None in
  (length (answer_of req) < 2)%nat
  /\ complete req (mkWorld completion_db None [] [] noon)
     = (Ok (mkResponse 400 (PError "Invalid task id")), mkWorld completion_db None [] [] noon)
  /\ fst (complete req (mkWorld completion_db None [] [] noon))
     <> Ok (mkResponse 400 (PError "Answer is required")).
Proof. vm_compute. repeat split; [lia|discriminate]. Qed.

(** ** Registration and referral crediting *)

Lemma keeps_makeReferralCode name : keeps_store (makeReferralCode name).
Proof.
  unfold makeReferralCode. apply keeps_bind; [apply keeps_random|]. intros r. apply keeps_ret.
Qed.

Lemma keeps_fresh_code n name code : keeps_store (fresh_code n name code).
Proof.
  revert code. induction n as [|n IH]; intros code; simpl; [apply keeps_ret|].
  apply keeps_bind; [apply keeps_query|]. intros [u|]; [|apply keeps_ret].
  apply keeps_bind; [apply keeps_makeReferralCode|]. intros c. apply IH.
Qed.

Lemma keeps_random_code n : keeps_store (random_code n).
Proof.
  induction n as [|n IH]; simpl; [apply keeps_ret|].
  apply keeps_bind; [apply keeps_random|]. intros i.
  apply keeps_bind; [apply IH|]. intros r. apply keeps_ret.
Qed.

Lemma keeps_generateReferralCode n : keeps_store (generateReferralCode n).
Proof.
  induction n as [|n IH]; cbn -[random_code]; [apply keeps_throw|].
  apply keeps_bind; [apply keeps_random_code|]. intros c.
  apply keeps_bind; [apply keeps_query|]. intros [u|]; [apply IH|apply keeps_ret].
Qed.

(** The key of a new row is above every key of the table. *)
Lemma next_id_fresh seq ids : Forall (fun i => i < next_id seq ids) ids.
Proof.
  unfold next_id. induction ids as [|i ids IH]; [constructor|]. simpl. constructor; [lia|].
  eapply Forall_impl; [exact IH|]. simpl. intros x Hx. lia.
Qed.

Lemma insert_user_spec name mail hash ph code referrer d key d' :
  insert_user name mail hash ph code referrer d = Some (key, d') ->
  users d' = users d ++ [mkUser key name mail hash code referrer 0 0 ph]
  /\ app_settings d' = app_settings d
  /\ Forall (fun u => u_id u <> key) (users d).
Proof.
  unfold insert_user. destruct (_ || _); [done|]. intros [= <- <-]. repeat split.
  pose proof (next_id_fresh (seq_users d) (List.map u_id (users d))) as H.
  apply Forall_map in H. eapply Forall_impl; [exact H|]. simpl. intros u Hu. lia.
Qed.

Lemma insert_activation_spec uid fee d d' :
  insert_activation uid fee d = Some (tt, d') ->
  users d' = users d /\ app_settings d' = app_settings d.
Proof.
  unfold insert_activation. destruct (existsb _ _); [by intros [= <-]|].
  destruct (has_user d uid); [by intros [= <-]|done].
Qed.

Lemma setting_of_ext d d' key fallback :
  app_settings d' = app_settings d -> setting_of d' key fallback = setting_of d key fallback.
Proof. unfold setting_of. by intros ->. Qed.

Lemma user_by_id_app uid d l :
  user_by_id uid d = None \/ find (fun u => u_id u =? uid) (users d ++ l) = user_by_id uid d.
Proof.
  unfold user_by_id. induction (users d) as [|u us IH]; [by left|]. simpl.
  destruct (u_id u =? uid); [by right|done].
Qed.

Lemma find_app_l {A} (p : A -> bool) l l' x :
  find p l = Some x -> find p (l ++ l') = Some x.
Proof. induction l as [|a l IH]; [done|]. simpl. by destruct (p a). Qed.

Lemma find_app_none {A} (p : A -> bool) l l' :
  find p l = None -> find p (l ++ l') = find p l'.
Proof. induction l as [|a l IH]; [done|]. simpl. by destruct (p a). Qed.

Lemma find_map_update uid (f : user -> user) l :
  (forall r, u_id (f r) = u_id r) ->
  forall uid',
  find (fun u => u_id u =? uid') (List.map (fun u => if u_id u =? uid then f u else u) l)
  = (fun u => if u_id u =? uid then f u else u) <$> find (fun u => u_id u =? uid') l.
Proof.
  intros Hf uid'. induction l as [|r l IH]; [done|]. simpl.
  destruct (u_id r =? uid) eqn:E; rewrite ?Hf; destruct (u_id r =? uid') eqn:E'; simpl;
    by rewrite ?E.
Qed.

Lemma user_by_code_id code d r : user_by_code code d = Some r -> has_user d (u_id r) = true.
Proof.
  unfold user_by_code, has_user. intros H. apply find_some in H as [Hin _].
  apply existsb_exists. exists r. split; [done|]. apply Z.eqb_refl.
Qed.

Lemma has_user_found d uid : has_user d uid = true -> is_Some (user_by_id uid d).
Proof.
  unfold has_user, user_by_id. intros H. apply existsb_exists in H as (u & Hin & Hu).
  destruct (find _ _) eqn:E; [done|]. by rewrite (find_none _ _ E u Hin) in Hu.
Qed.

Section RegisterFacts.

Variable zod_email : list N -> bool.
Variable bcrypt_hash : list N -> list N.

(** What a registration that answers 200 has done to the table of users. *)
Lemma register_success b w uid w' :
  register zod_email bcrypt_hash b w = (Ok (mkResponse 200 (PToken uid)), w') ->
  exists data code,
    parse_register zod_email b = Some data
    /\ users (w_db w')
       = credited (u_id <$> referrer_of (rd_referral data) (w_db w))
           (setting_of (w_db w) (js "referral_bonus_ksh") 100)
           (users (w_db w)
            ++ [mkUser uid (rd_username data) (rd_email data) (bcrypt_hash (rd_password data))
                       (Some code) (u_id <$> referrer_of (rd_referral data) (w_db w)) 0 0 None])
    /\ Forall (fun u => u_id u <> uid) (users (w_db w)).
Proof.
  unfold register. intros H.
  apply try_catch_ok in H as [H|(e & w1 & _ & [=])].
  destruct (parse_register zod_email b) as [data|]; [|done].
  exists data.
  enough (exists code,
    users (w_db w')
    = credited (u_id <$> referrer_of (rd_referral data) (w_db w))
        (setting_of (w_db w) (js "referral_bonus_ksh") 100)
        (users (w_db w)
         ++ [mkUser uid (rd_username data) (rd_email data) (bcrypt_hash (rd_password data))
                    (Some code) (u_id <$> referrer_of (rd_referral data) (w_db w)) 0 0 None])
    /\ Forall (fun u => u_id u <> uid) (users (w_db w))) as (code & ? & ?)
    by (by exists code).
  apply bind_ok in H as (existsEmail & w1 & [-> Hs1]%query_ok & H).
  destruct (find _ (users (w_db w))) eqn:Hemail; [done|].
  apply bind_ok in H as (existsUser & w2 & [-> Hs2]%query_ok & H).
  pose proof (same_store_trans _ _ _ Hs1 Hs2) as (Hdb2 & _). destruct Hs1 as (Hdb1 & _).
  rewrite Hdb1 in H. destruct (find _ (users (w_db w))) eqn:Huser in H; [done|].
  cbv zeta in H.
  assert (forall referredById w3,
    w_db w3 = w_db w ->
    (code0 <- makeReferralCode (rd_username data) ;;
     referral_code <- fresh_code 10 (rd_username data) code0 ;;
     lastID <- run (insert_user (rd_username data) (rd_email data)
                      (bcrypt_hash (rd_password data)) None (Some referral_code) referredById) ;;
     run (insert_activation lastID ACTIVATION_FEE_KSH) ;;;
     (match referredById with
      | Some rid =>
          if rid =? 0 then ret tt
          else
            rb <- getIntSetting (js "referral_bonus_ksh") 100 ;;
            if 0 <? rb
            then run (fun d => Some (tt, update_user rid (add_bonus rb) d))
            else ret tt
      | None => ret tt
      end) ;;;
     ret (mkResponse 200 (PToken lastID))) w3 = (Ok (mkResponse 200 (PToken uid)), w') ->
    exists code,
      users (w_db w')
      = credited referredById (setting_of (w_db w) (js "referral_bonus_ksh") 100)
          (users (w_db w)
           ++ [mkUser uid (rd_username data) (rd_email data) (bcrypt_hash (rd_password data))
                      (Some code) referredById 0 0 None])
      /\ Forall (fun u => u_id u <> uid) (users (w_db w))) as Hcont.
  { clear H. intros referredById w3 Hdb3 H.
    apply bind_ok in H as (code0 & w4 & Hs4%(keeps_ok _ _ _ _ (keeps_makeReferralCode _)) & H).
    apply bind_ok in H as (code & w5 & Hs5%(keeps_ok _ _ _ _ (keeps_fresh_code _ _ _)) & H).
    apply bind_ok in H as (lastID & w6 & (Hins & _)%run_ok & H).
    apply bind_ok in H as ([] & w7 & (Hact & _)%run_ok & H).
    apply bind_ok in H as ([] & w8 & Hcredit & [= <- <-]).
    destruct Hs4 as (Hdb4 & _), Hs5 as (Hdb5 & _).
    rewrite Hdb5, Hdb4, Hdb3 in Hins.
    apply insert_user_spec in Hins as (Hu6 & Hset6 & Hfresh).
    apply insert_activation_spec in Hact as (Hu7 & Hset7).
    exists code. split; [|done].
    unfold credited. destruct referredById as [rid|].
    - destruct (rid =? 0); [injection Hcredit as <-; simpl; congruence|].
      apply bind_ok in Hcredit as (rb & w9 & [-> (Hdb9 & _)]%setting_ok & Hcredit).
      rewrite (setting_of_ext (w_db w7) (w_db w)) in * by congruence.
      destruct (0 <? _); simpl.
      + apply run_ok in Hcredit as ([= <-] & _). rewrite Hdb9. unfold credit_rows. simpl. congruence.
      + injection Hcredit as <-. congruence.
    - injection Hcredit as <-. congruence. }
  unfold referrer_of. destruct (trim (rd_referral data)) as [|c code'] eqn:Htrim.
  - destruct (Hcont None w2 Hdb2 H) as (code & H1 & H2). by exists code.
  - apply bind_ok in H as (ref & w3 & [-> (Hdb3 & _)]%query_ok & H).
    rewrite Hdb2 in H.
    destruct (user_by_code (c :: code') (w_db w)) as [r|] eqn:Hr; [|done].
    assert (w_db w3 = w_db w) as Hdb3' by congruence.
    destruct (Hcont (Some (u_id r)) w3 Hdb3' H) as (code & H1 & H2).
    by exists code.
Qed.

End RegisterFacts.

Lemma find_id_map_other rid (f : user -> user) l uid' :
  (forall r, u_id (f r) = u_id r) -> uid' <> rid ->
  find (fun u => u_id u =? uid') (List.map (fun u => if u_id u =? rid then f u else u) l)
  = find (fun u => u_id u =? uid') l.
Proof.
  intros Hf Hne. rewrite find_map_update by done.
  destruct (find _ l) as [u|] eqn:E; [|done]. simpl.
  apply find_some in E as [_ E]. apply Z.eqb_eq in E.
  replace (u_id u =? rid) with false; [done|]. symmetry. apply Z.eqb_neq. lia.
Qed.

Lemma credit_rows_referrer rid rb l new :
  existsb (fun u => u_id u =? rid) l = true ->
  bonus_ksh <$> find (fun u => u_id u =? rid) (credit_rows rid rb (l ++ [new]))
  = (fun x => x + rb) <$> (bonus_ksh <$> find (fun u => u_id u =? rid) l).
Proof.
  intros Hin. unfold credit_rows.
  destruct (find (fun u => u_id u =? rid) l) as [u|] eqn:E.
  2: { apply existsb_exists in Hin as (u & Hu & Hid). by rewrite (find_none _ _ E u Hu) in Hid. }
  rewrite find_map_update by done. rewrite (find_app_l _ _ _ _ E). simpl.
  apply find_some in E as [_ ->]. done.
Qed.

Lemma find_app_other l new uid' :
  uid' <> u_id new ->
  find (fun u => u_id u =? uid') (l ++ [new]) = find (fun u => u_id u =? uid') l.
Proof.
  intros Hnew. destruct (find (fun u => u_id u =? uid') l) as [u|] eqn:E.
  - by apply find_app_l.
  - rewrite find_app_none by done. simpl.
    replace (u_id new =? uid') with false; [done|]. symmetry. apply Z.eqb_neq. lia.
Qed.

Lemma credit_rows_new_row rid rb l new :
  exists row, In row (credit_rows rid rb (l ++ [new]))
              /\ email row = email new /\ username row = username new.
Proof.
  exists (if u_id new =? rid then add_bonus rb new else new). split.
  - apply (in_map (fun u => if u_id u =? rid then add_bonus rb u else u)).
    apply in_or_app; right; by left.
  - by destruct (u_id new =? rid).
Qed.

(** The referrer's bonus after [credited]: one credit of [rb]. *)
Lemma credited_referrer rid rb l new :
  existsb (fun u => u_id u =? rid) l = true -> rid <> 0 -> 0 <= rb ->
  bonus_ksh <$> find (fun u => u_id u =? rid) (credited (Some rid) rb (l ++ [new]))
  = (fun x => x + rb) <$> (bonus_ksh <$> find (fun u => u_id u =? rid) l).
Proof.
  intros Hin Hrid Hrb. unfold credited.
  replace (rid =? 0) with false by (symmetry; by apply Z.eqb_neq).
  destruct (0 <? rb) eqn:Epos; simpl; [by apply credit_rows_referrer|].
  destruct (find (fun u => u_id u =? rid) l) as [u|] eqn:E.
  2: { apply existsb_exists in Hin as (u & Hu & Hid). by rewrite (find_none _ _ E u Hu) in Hid. }
  rewrite (find_app_l _ _ _ _ E). simpl. apply Z.ltb_ge in Epos. f_equal. lia.
Qed.

(** Nobody else is credited. *)
Lemma credited_others referrer rb l new uid' :
  Some uid' <> referrer -> uid' <> u_id new ->
  find (fun u => u_id u =? uid') (credited referrer rb (l ++ [new]))
  = find (fun u => u_id u =? uid') l.
Proof.
  intros Hne Hnew. unfold credited.
  destruct referrer as [rid|]; [|by apply find_app_other].
  destruct ((rid =? 0) || negb (0 <? rb)); [by apply find_app_other|].
  unfold credit_rows. rewrite find_id_map_other; [by apply find_app_other|done|congruence].
Qed.

Lemma credited_router_others referrer l new uid' :
  Some uid' <> referrer -> uid' <> u_id new ->
  find (fun u => u_id u =? uid') (credited_router referrer (l ++ [new]))
  = find (fun u => u_id u =? uid') l.
Proof.
  intros Hne Hnew. unfold credited_router.
  destruct referrer as [rid|]; [|by apply find_app_other].
  unfold credit_rows. rewrite find_id_map_other; [by apply find_app_other|done|congruence].
Qed.

(** The new row is in the table, under its name and address. *)
Lemma credited_new_row referrer rb l new :
  exists row, In row (credited referrer rb (l ++ [new]))
              /\ email row = email new /\ username row = username new.
Proof.
  unfold credited.
  assert (In new (l ++ [new])) as Hin by (apply in_or_app; right; by left).
  destruct referrer as [rid|]; [|by exists new].
  destruct ((rid =? 0) || negb (0 <? rb)); [by exists new|]. apply credit_rows_new_row.
Qed.

Lemma credited_router_new_row referrer l new :
  exists row, In row (credited_router referrer (l ++ [new]))
              /\ email row = email new /\ username row = username new.
Proof.
  unfold credited_router. destruct referrer as [rid|]; [apply credit_rows_new_row|].
  exists new. split; [|done]. apply in_or_app; right; by left.
Qed.

Section RegisterAgain.

Variable zod_email : list N -> bool.
Variable bcrypt_hash : list N -> list N.

(** A registration under a name or an address the table already holds is
    refused before any write. *)
Lemma register_again b data w :
  parse_register zod_email b = Some data ->
  (exists row, In row (users (w_db w))
               /\ (email row = rd_email data \/ username row = rd_username data)) ->
  exists o w', register zod_email bcrypt_hash b w = (Ok o, w')
               /\ status o = 400 /\ w_db w' = w_db w.
Proof.
  intros Hparse (row & Hin & Hsame). unfold register, try_catch. rewrite Hparse. unfold bind at 1.
  destruct (query_cases (fun d => find (fun u => bool_decide (email u = rd_email data)) (users d)) w)
    as [(w1 & -> & (Hdb1 & _))|(w1 & -> & (Hdb1 & _))].
  { by do 2 eexists. }
  cbv beta. destruct (find _ (users (w_db w))) eqn:Hemail.
  { by do 2 eexists. }
  unfold bind at 1.
  destruct (query_cases (fun d => find (fun u => bool_decide (username u = rd_username data)) (users d)) w1)
    as [(w2 & -> & (Hdb2 & _))|(w2 & -> & (Hdb2 & _))].
  { do 2 eexists. split; [done|]. split; [done|]. simpl. congruence. }
  cbv beta. rewrite Hdb1.
  destruct (find (fun u => bool_decide (username u = rd_username data)) (users (w_db w))) eqn:Huser.
  { do 2 eexists. split; [done|]. split; [done|]. simpl. congruence. }
  exfalso. destruct Hsame as [He|Hu].
  - pose proof (find_none _ _ Hemail row Hin) as Hn. simpl in Hn.
    by rewrite bool_decide_eq_false in Hn.
  - pose proof (find_none _ _ Huser row Hin) as Hn. simpl in Hn.
    by rewrite bool_decide_eq_false in Hn.
Qed.

End RegisterAgain.

Lemma insert_referral_spec a b d d' :
  insert_referral a b d = Some (tt, d') ->
  users d' = users d /\ app_settings d' = app_settings d.
Proof. unfold insert_referral. destruct (existsb _ _); by intros [= <-]. Qed.

Section RouterFacts.

Variable zod_email : list N -> bool.
Variable bcrypt_hash : list N -> list N.

(** What a registration on the auth router that answers 200 has done to
    the table of users. *)
Lemma register_router_success b w uid w' :
  register_router zod_email bcrypt_hash b w = (Ok (mkResponse 200 (PToken uid)), w') ->
  exists data code,
    parse_register_router zod_email b = Some data
    /\ users (w_db w')
       = credited_router (u_id <$> referrer_of (rd_referral data) (w_db w))
           (users (w_db w)
            ++ [mkUser uid (rd_username data) (rd_email data) (bcrypt_hash (rd_password data))
                       (Some code) (u_id <$> referrer_of (rd_referral data) (w_db w)) 0 0
                       (Some (rd_phone data))])
    /\ Forall (fun u => u_id u <> uid) (users (w_db w)).
Proof.
  unfold register_router. intros H.
  apply try_catch_ok in H as [H|(e & w1 & _ & H)]; [|by destruct e].
  destruct (parse_register_router zod_email b) as [data|]; [|done].
  exists data.
  enough (exists code,
    users (w_db w')
    = credited_router (u_id <$> referrer_of (rd_referral data) (w_db w))
        (users (w_db w)
         ++ [mkUser uid (rd_username data) (rd_email data) (bcrypt_hash (rd_password data))
                    (Some code) (u_id <$> referrer_of (rd_referral data) (w_db w)) 0 0
                    (Some (rd_phone data))])
    /\ Forall (fun u => u_id u <> uid) (users (w_db w))) as (code & ? & ?)
    by (by exists code).
  apply bind_ok in H as (existing & w1 & [-> (Hdb1 & _)]%query_ok & H).
  destruct (find _ (users (w_db w))) eqn:Hexisting; [done|].
  cbv zeta in H.
  assert (forall (referrer : option user) w3,
    w_db w3 = w_db w ->
    (myCode <- generateReferralCode 50 ;;
     newUserId <- run (insert_user (rd_username data) (rd_email data)
                         (bcrypt_hash (rd_password data)) (Some (rd_phone data)) (Some myCode)
                         (option_map u_id referrer)) ;;
     (match referrer with
      | Some referrer =>
          run (insert_referral (u_id referrer) newUserId) ;;;
          run (fun d => Some (tt, update_user (u_id referrer) (add_bonus 100) d))
      | None => ret tt
      end) ;;;
     user <- query (user_by_id newUserId) ;;
     match user with
     | None => throw (JsError "Cannot read properties of undefined")
     | Some user => ret (mkResponse 200 (PToken (u_id user)))
     end) w3 = (Ok (mkResponse 200 (PToken uid)), w') ->
    exists code,
      users (w_db w')
      = credited_router (u_id <$> referrer)
          (users (w_db w)
           ++ [mkUser uid (rd_username data) (rd_email data) (bcrypt_hash (rd_password data))
                      (Some code) (u_id <$> referrer) 0 0 (Some (rd_phone data))])
      /\ Forall (fun u => u_id u <> uid) (users (w_db w))) as Hcont.
  { clear H. intros referrer w3 Hdb3 H.
    apply bind_ok in H as (code & w4 & Hs4%(keeps_ok _ _ _ _ (keeps_generateReferralCode _)) & H).
    apply bind_ok in H as (newUserId & w5 & (Hins & _)%run_ok & H).
    apply bind_ok in H as ([] & w6 & Hcredit & H).
    apply bind_ok in H as (user & w7 & [-> (Hdb7 & _)]%query_ok & H).
    destruct (user_by_id newUserId (w_db w6)) as [user|] eqn:Huser; [|done].
    injection H as <- <-.
    apply find_some in Huser as [_ Hid%Z.eqb_eq]. rewrite Hid.
    destruct Hs4 as (Hdb4 & _). rewrite Hdb4, Hdb3 in Hins.
    apply insert_user_spec in Hins as (Hu5 & Hset5 & Hfresh).
    exists code. split; [|done]. rewrite Hdb7.
    unfold credited_router. destruct referrer as [r|]; simpl.
    - apply bind_ok in Hcredit as ([] & w8 & (Href & _)%run_ok & Hcredit).
      apply insert_referral_spec in Href as (Hu8 & _).
      apply run_ok in Hcredit as ([= <-] & _). unfold credit_rows. simpl. by rewrite Hu8, Hu5.
    - injection Hcredit as <-. by rewrite Hu5. }
  unfold referrer_of. destruct (trim (rd_referral data)) as [|c code'] eqn:Htrim.
  - destruct (Hcont None w1 Hdb1 H) as (code & H1 & H2). by exists code.
  - apply bind_ok in H as (ref & w3 & [-> (Hdb3 & _)]%query_ok & H).
    rewrite Hdb1 in H.
    destruct (user_by_code (c :: code') (w_db w)) as [r|] eqn:Hr; [|done].
    assert (w_db w3 = w_db w) as Hdb3' by congruence.
    destruct (Hcont (Some r) w3 Hdb3' H) as (code & H1 & H2).
    by exists code.
Qed.

Lemma register_router_again b data w :
  parse_register_router zod_email b = Some data ->
  (exists row, In row (users (w_db w))
               /\ (email row = rd_email data \/ username row = rd_username data)) ->
  exists o w', register_router zod_email bcrypt_hash b w = (Ok o, w')
               /\ status o <> 200 /\ w_db w' = w_db w.
Proof.
  intros Hparse (row & Hin & Hsame). unfold register_router, try_catch. rewrite Hparse.
  unfold bind at 1.
  destruct (query_cases (fun d => find (fun u => bool_decide (email u = rd_email data)
                            || bool_decide (username u = rd_username data)) (users d)) w)
    as [(w1 & -> & (Hdb1 & _))|(w1 & -> & (Hdb1 & _))].
  { by do 2 eexists. }
  cbv beta. destruct (find _ (users (w_db w))) eqn:Hexisting.
  { by do 2 eexists. }
  exfalso. pose proof (find_none _ _ Hexisting row Hin) as Hn. simpl in Hn.
  apply orb_false_iff in Hn as [H1 H2]. rewrite bool_decide_eq_false in H1, H2.
  by destruct Hsame.
Qed.

End RouterFacts.

Section ReferralOnce.

Variable zod_email : jsstring -> bool.
Variable bcrypt_hash : jsstring -> jsstring.

(** A registration that answers 200 with a referral code has credited
    the referrer's bonus once, by the configured referral bonus amount on
    the main server (setting referral_bonus_ksh, 100 when unset; the
    amount is taken not to be negative and the key of the referrer not
    to be 0) and by 100 on the auth router, and credits nobody else;
    every later attempt under the same address or the same name is
    refused by the uniqueness check before any write, so the tables,
    and with them the referrer's bonus, stay as the first registration
    left them. *)
Theorem referral_credited_once b w uid w' :
  (register zod_email bcrypt_hash b w = (Ok (mkResponse 200 (PToken uid)), w') ->
   exists data,
     parse_register zod_email b = Some data
     /\ (forall r, referrer_of (rd_referral data) (w_db w) = Some r ->
           u_id r <> 0 -> 0 <= setting_of (w_db w) (js "referral_bonus_ksh") 100 ->
           is_Some (bonus_of (u_id r) (w_db w))
           /\ bonus_of (u_id r) (w_db w')
              = (fun x => x + setting_of (w_db w) (js "referral_bonus_ksh") 100)
                  <$> bonus_of (u_id r) (w_db w))
     /\ (forall other, Some other <> (u_id <$> referrer_of (rd_referral data) (w_db w)) ->
           other <> uid -> bonus_of other (w_db w') = bonus_of other (w_db w))
     /\ (forall b2 data2 w2,
           parse_register zod_email b2 = Some data2 ->
           rd_email data2 = rd_email data \/ rd_username data2 = rd_username data ->
           w_db w2 = w_db w' ->
           exists o w2', register zod_email bcrypt_hash b2 w2 = (Ok o, w2')
                         /\ status o = 400 /\ w_db w2' = w_db w'))
  /\ (register_router zod_email bcrypt_hash b w = (Ok (mkResponse 200 (PToken uid)), w') ->
      exists data,
        parse_register_router zod_email b = Some data
        /\ (forall r, referrer_of (rd_referral data) (w_db w) = Some r ->
              is_Some (bonus_of (u_id r) (w_db w))
              /\ bonus_of (u_id r) (w_db w')
                 = (fun x => x + 100) <$> bonus_of (u_id r) (w_db w))
        /\ (forall other, Some other <> (u_id <$> referrer_of (rd_referral data) (w_db w)) ->
              other <> uid -> bonus_of other (w_db w') = bonus_of other (w_db w))
        /\ (forall b2 data2 w2,
              parse_register_router zod_email b2 = Some data2 ->
              rd_email data2 = rd_email data \/ rd_username data2 = rd_username data ->
              w_db w2 = w_db w' ->
              exists o w2', register_router zod_email bcrypt_hash b2 w2 = (Ok o, w2')
                            /\ status o <> 200 /\ w_db w2' = w_db w')).
Proof.
  split; intros H.
  - apply register_success in H as (data & code & Hparse & Husers & Hfresh).
    exists data. split; [done|]. unfold bonus_of, user_by_id. rewrite Husers.
    split; [|split].
    + intros r Hr Hid Hrb. rewrite Hr. simpl.
      assert (has_user (w_db w) (u_id r) = true) as Hhas.
      { unfold referrer_of in Hr. destruct (trim _); [done|]. by eapply user_by_code_id. }
      split; [by apply fmap_is_Some, has_user_found|].
      by apply credited_referrer.
    + intros other Hother Hnew. by rewrite credited_others.
    + intros b2 data2 w2 Hparse2 Hsame Hdb.
      destruct (register_again zod_email bcrypt_hash b2 data2 w2 Hparse2) as (o & w2' & ? & ? & ?).
      { rewrite Hdb, Husers.
        destruct (credited_new_row (u_id <$> referrer_of (rd_referral data) (w_db w))
                    (setting_of (w_db w) (js "referral_bonus_ksh") 100) (users (w_db w))
                    (mkUser uid (rd_username data) (rd_email data)
                       (bcrypt_hash (rd_password data)) (Some code)
                       (u_id <$> referrer_of (rd_referral data) (w_db w)) 0 0 None))
          as (row & Hin & He & Hu).
        exists row. split; [done|]. simpl in He, Hu. destruct Hsame; [left|right]; congruence. }
      exists o, w2'. repeat split; congruence.
  - apply register_router_success in H as (data & code & Hparse & Husers & Hfresh).
    exists data. split; [done|]. unfold bonus_of, user_by_id. rewrite Husers.
    split; [|split].
    + intros r Hr. rewrite Hr. simpl.
      assert (has_user (w_db w) (u_id r) = true) as Hhas.
      { unfold referrer_of in Hr. destruct (trim _); [done|]. by eapply user_by_code_id. }
      split; [by apply fmap_is_Some, has_user_found|].
      by apply credit_rows_referrer.
    + intros other Hother Hnew. by rewrite credited_router_others.
    + intros b2 data2 w2 Hparse2 Hsame Hdb.
      destruct (register_router_again zod_email bcrypt_hash b2 data2 w2 Hparse2)
        as (o & w2' & ? & ? & ?).
      { rewrite Hdb, Husers.
        destruct (credited_router_new_row (u_id <$> referrer_of (rd_referral data) (w_db w))
                    (users (w_db w))
                    (mkUser uid (rd_username data) (rd_email data)
                       (bcrypt_hash (rd_password data)) (Some code)
                       (u_id <$> referrer_of (rd_referral data) (w_db w)) 0 0
                       (Some (rd_phone data))))
          as (row & Hin & He & Hu).
        exists row. split; [done|]. simpl in He, Hu. destruct Hsame; [left|right]; congruence. }
      exists o, w2'. repeat split; congruence.
Qed.

End ReferralOnce.

(** On a store that answers, the user of [wallet_db] refers a new user
    on either route and is credited 100 once; the same body sent again
    is refused with 400. *)
Lemma referral_credited_once_witness :
  let w := mkWorld (wallet_db 200 950 ∅) None [] [] noon in
  let first := register any_address plain_hash (referred_body "referralCode") w in
  let routed := register_router any_address plain_hash (referred_body "referral_code") w in
  bonus_of 1 (w_db (snd first)) = Some (950 + 100)
  /\ (exists o w2, register any_address plain_hash (referred_body "referralCode") (snd first)
                   = (Ok o, w2) /\ status o = 400 /\ w_db w2 = w_db (snd first))
  /\ bonus_of 1 (w_db (snd routed)) = Some (950 + 100).
Proof.
  intros w first routed.
  destruct (referral_credited_once any_address plain_hash
              (referred_body "referralCode") w 2 (snd first)) as [H _].
  destruct (H eq_refl) as (data & Hparse & Hcredit & _ & Hagain).
  injection Hparse as <-.
  destruct (referral_credited_once any_address plain_hash
              (referred_body "referral_code") w 2 (snd routed)) as [_ H'].
  destruct (H' eq_refl) as (data' & Hparse' & Hcredit' & _).
  injection Hparse' as <-.
  split; [|split].
  - destruct (Hcredit (wallet_user 200 950) eq_refl) as [_ Hb]; [done|done|exact Hb].
  - apply (Hagain (referred_body "referralCode") _ (snd first) eq_refl); [by left|done].
  - destruct (Hcredit' (wallet_user 200 950) eq_refl) as [_ Hb]. exact Hb.
Defined.

(** ** A registration cut short *)

(** C7 fails on both register handlers: they insert the new user and
    credit the referrer in separate statements outside any transaction.
    When the storage layer rejects the UPDATE that credits the referrer,
    the referred user is stored, the referrer's bonus is as before, and
    the same registration sent again, on a store that answers, is
    refused by the uniqueness check: the referrer is credited not once
    but never. *)
Lemma referred_user_stored_without_credit :
  let stored (d : db) :=
    referred_by <$> user_by_email (js "brian@example.com") d in
  let w := mkWorld (wallet_db 200 950 ∅) None (repeat false 7 ++ [true]) [] noon in
  let first := register any_address plain_hash (referred_body "referralCode") w in
  let again := register any_address plain_hash (referred_body "referralCode") (snd first) in
  let wr := mkWorld (wallet_db 200 950 ∅) None (repeat false 5 ++ [true]) [] noon in
  let first_r := register_router any_address plain_hash (referred_body "referral_code") wr in
  let again_r :=
    register_router any_address plain_hash (referred_body "referral_code") (snd first_r) in
  (stored (w_db w) = None
   /\ fst first = Ok (mkResponse 400 (PThrown SqliteFault))
   /\ stored (w_db (snd first)) = Some (Some 1)
   /\ bonus_of 1 (w_db (snd first)) = Some 950
   /\ w_faults (snd first) = []
   /\ fst again = Ok (mkResponse 400 (PError "Email already registered"))
   /\ bonus_of 1 (w_db (snd again)) = Some 950)
  /\ (fst first_r = Ok (mkResponse 500 (PThrown SqliteFault))
      /\ stored (w_db (snd first_r)) = Some (Some 1)
      /\ referrals (w_db (snd first_r)) = [mkReferral 1 2 100]
      /\ bonus_of 1 (w_db (snd first_r)) = Some 950
      /\ w_faults (snd first_r) = []
      /\ fst again_r = Ok (mkResponse 400 (PError "Email or username already exists"))
      /\ bonus_of 1 (w_db (snd again_r)) = Some 950).
Proof. vm_compute. repeat split. Qed.

(** ** Daily allocation *)

Lemma keeps_any {A} (m : M A) w o w' : keeps_store m -> m w = (o, w') -> same_store w w'.
Proof. intros H E. specialize (H w). by rewrite E in H. Qed.

(** A random row is one of the rows selected. *)
Lemma query_random_facts {A} (q : db -> list A) w :
  exists o w', query_random q w = (o, w') /\ same_store w w' /\ o <> Spin
    /\ (forall r, o = Ok (Some r) -> In r (q (w_db w)))
    /\ (o = Ok None -> q (w_db w) = [])
    /\ (w_faults w = [] ->
        w_faults w' = [] /\ exists r, o = Ok r /\ (q (w_db w) <> [] -> is_Some r)).
Proof.
  unfold query_random, bind.
  destruct (w_faults w) as [|f fs] eqn:Hf.
  - rewrite query_healthy by done.
    destruct (q (w_db w)) as [|x l] eqn:Hq.
    + do 2 eexists. split; [done|]. split; [apply same_store_refl|]. repeat split; try done.
      by eexists.
    + destruct (random_below_draws (length (x :: l)) w) as (i & w1 & -> & [Hs Hfl] & Hi).
      specialize (Hi ltac:(done)).
      destruct (lookup_lt_is_Some_2 (x :: l) i Hi) as [r Hr]. rewrite Hr. unfold ret.
      do 2 eexists. split; [done|]. split; [done|]. split; [done|]. repeat split.
      * intros r' [= <-]. apply list_elem_of_In. by eapply list_elem_of_lookup_2.
      * done.
      * congruence.
      * by eexists.
  - destruct (query_cases q w) as [(w1 & -> & Hs)|(w1 & -> & Hs)].
    { do 2 eexists. split; [done|]. split; [done|]. repeat split; try done. }
    destruct (q (w_db w)) as [|x l] eqn:Hq.
    + do 2 eexists. split; [done|]. split; [done|]. repeat split; try done.
    + destruct (random_below_draws (length (x :: l)) w1) as (i & w2 & -> & [Hs2 Hfl] & Hi).
      specialize (Hi ltac:(done)).
      destruct (lookup_lt_is_Some_2 (x :: l) i Hi) as [r Hr]. rewrite Hr. unfold ret.
      do 2 eexists. split; [done|]. split; [by eapply same_store_trans|].
      split; [done|]. repeat split; try done.
      intros r' [= <-]. apply list_elem_of_In. by eapply list_elem_of_lookup_2.
Qed.

Lemma pick_fit limit existing row p :
  full limit existing p = false -> picks_fit limit existing (pick row p).
Proof.
  unfold full, picks_fit, pick. simpl. intros H%Z.leb_gt. rewrite length_app. simpl. lia.
Qed.

Lemma pick_known d row p :
  In row (tasks d) -> picks_known d p -> picks_known d (pick row p).
Proof.
  unfold picks_known, pick. simpl. intros Hin Hp. apply Forall_app. split; [done|].
  constructor; [|done]. unfold has_task. apply existsb_exists. exists row.
  split; [done|apply Z.eqb_refl].
Qed.

Lemma pick_wanted limit existing row p :
  full limit existing p = false ->
  S (wanted limit existing (pick row p)) = wanted limit existing p.
Proof.
  unfold full, wanted, pick. simpl. intros H%Z.leb_gt. rewrite length_app. simpl. lia.
Qed.

Lemma full_wanted limit existing p :
  full limit existing p = true <-> wanted limit existing p = 0%nat.
Proof. unfold full, wanted. rewrite Z.leb_le. lia. Qed.

Lemma pass_ok_same limit existing p w w1 o w' :
  same_store w w1 -> (w_faults w = [] -> w_faults w1 = []) ->
  pass_ok limit existing p w1 o w' -> pass_ok limit existing p w o w'.
Proof.
  intros Hs Hf (Hs' & Hp & Hf'). split; [by eapply same_store_trans|]. split.
  - intros p' Ho. destruct Hs as (Hdb & _). rewrite <- Hdb. by apply Hp.
  - intros H. by apply Hf', Hf.
Qed.

Lemma pass_ok_pick limit existing row p w o w' :
  full limit existing p = false -> In row (tasks (w_db w)) ->
  pass_ok limit existing (pick row p) w o w' -> pass_ok limit existing p w o w'.
Proof.
  intros Hfull Hin (Hs & Hp & Hf). split; [done|]. split; [|done].
  intros p' Ho. destruct (Hp p' Ho) as [H1 H2]. split.
  - intros _. by apply H1, pick_fit.
  - intros Hk. by apply H2, pick_known.
Qed.

Lemma pass_ok_ret limit existing p w : pass_ok limit existing p w (Ok p) w.
Proof.
  split; [apply same_store_refl|]. split; [|done]. by intros p' [= <-].
Qed.

Lemma active_in_category_tasks cat d row : In row (active_in_category cat d) -> In row (tasks d).
Proof. unfold active_in_category. by intros [? _]%List.filter_In. Qed.

Lemma active_of_type_tasks typ d row : In row (active_of_type typ d) -> In row (tasks d).
Proof. unfold active_of_type. by intros [? _]%List.filter_In. Qed.

Lemma active_tasks_tasks d row : In row (active_tasks d) -> In row (tasks d).
Proof. unfold active_tasks. by intros [? _]%List.filter_In. Qed.

Lemma pass_categories_facts limit existing cats p w :
  exists o w', pass_categories limit existing cats p w = (o, w')
    /\ pass_ok limit existing p w o w' /\ o <> Spin
    /\ (w_faults w = [] -> exists p', o = Ok p').
Proof.
  revert p w. induction cats as [|cat rest IH]; intros p w; simpl.
  { do 2 eexists. split; [done|]. split; [apply pass_ok_ret|]. split; [done|]. by eexists. }
  destruct (full limit existing p) eqn:Hfull.
  { do 2 eexists. split; [done|]. split; [apply pass_ok_ret|]. split; [done|]. by eexists. }
  destruct (bool_decide (cat ∈ usedCats p)); [apply IH|].
  unfold bind.
  destruct (query_random_facts (active_in_category cat) w)
    as (o1 & w1 & -> & Hs1 & Hspin & Hrow & _ & Hh).
  destruct o1 as [[row|]|e|]; [| | |done].
  - specialize (Hrow row eq_refl). apply active_in_category_tasks in Hrow.
    destruct (bool_decide (t_type row ∈ used p)).
    + destruct (IH p w1) as (o & w' & -> & Hok & Hns & Hret).
      do 2 eexists. split; [done|]. split; [|split; [done|]].
      * eapply pass_ok_same; [done| |done]. intros H. by apply Hh.
      * intros H. apply Hret. by apply Hh.
    + destruct (IH (pick row p) w1) as (o & w' & -> & Hok & Hns & Hret).
      do 2 eexists. split; [done|]. split; [|split; [done|]].
      * eapply pass_ok_pick; [done|done|].
        eapply pass_ok_same; [done| |done]. intros H. by apply Hh.
      * intros H. apply Hret. by apply Hh.
  - destruct (IH p w1) as (o & w' & -> & Hok & Hns & Hret).
    do 2 eexists. split; [done|]. split; [|split; [done|]].
    + eapply pass_ok_same; [done| |done]. intros H. by apply Hh.
    + intros H. apply Hret. by apply Hh.
  - do 2 eexists. split; [done|]. split; [|split; [done|]].
    + split; [done|]. split; [done|]. intros H. by apply Hh.
    + intros H. destruct (Hh H) as (_ & r & [=] & _).
Qed.

Lemma pass_types_facts limit existing types p w :
  exists o w', pass_types limit existing types p w = (o, w')
    /\ pass_ok limit existing p w o w' /\ o <> Spin
    /\ (w_faults w = [] -> exists p', o = Ok p').
Proof.
  revert p w. induction types as [|typ rest IH]; intros p w; simpl.
  { do 2 eexists. split; [done|]. split; [apply pass_ok_ret|]. split; [done|]. by eexists. }
  destruct (full limit existing p) eqn:Hfull.
  { do 2 eexists. split; [done|]. split; [apply pass_ok_ret|]. split; [done|]. by eexists. }
  destruct (bool_decide (typ ∈ used p)); [apply IH|].
  unfold bind.
  destruct (query_random_facts (active_of_type typ) w)
    as (o1 & w1 & -> & Hs1 & Hspin & Hrow & _ & Hh).
  destruct o1 as [[row|]|e|]; [| | |done].
  - specialize (Hrow row eq_refl). apply active_of_type_tasks in Hrow.
    destruct (IH (pick row p) w1) as (o & w' & -> & Hok & Hns & Hret).
    do 2 eexists. split; [done|]. split; [|split; [done|]].
    + eapply pass_ok_pick; [done|done|].
      eapply pass_ok_same; [done| |done]. intros H. by apply Hh.
    + intros H. apply Hret. by apply Hh.
  - destruct (IH p w1) as (o & w' & -> & Hok & Hns & Hret).
    do 2 eexists. split; [done|]. split; [|split; [done|]].
    + eapply pass_ok_same; [done| |done]. intros H. by apply Hh.
    + intros H. apply Hret. by apply Hh.
  - do 2 eexists. split; [done|]. split; [|split; [done|]].
    + split; [done|]. split; [done|]. intros H. by apply Hh.
    + intros H. destruct (Hh H) as (_ & r & [=] & _).
Qed.

Lemma pass_ok_picks limit existing p1 p2 w o w' :
  picks p1 = picks p2 -> pass_ok limit existing p1 w o w' -> pass_ok limit existing p2 w o w'.
Proof.
  unfold pass_ok, picks_fit, picks_known. intros ->. done.
Qed.

Lemma full_picks limit existing p1 p2 :
  picks p1 = picks p2 -> full limit existing p1 = full limit existing p2.
Proof. unfold full. by intros ->. Qed.

Lemma wanted_picks limit existing p1 p2 :
  picks p1 = picks p2 -> wanted limit existing p1 = wanted limit existing p2.
Proof. unfold wanted. by intros ->. Qed.

(** The relaxation loop: on a store that answers, 251 turns for each
    pick still wanted are enough, less the attempts already counted. *)
Lemma fill_facts fuel limit existing a p w :
  exists o w', fill fuel limit existing a p w = (o, w')
    /\ pass_ok limit existing p w o w'
    /\ (w_faults w = [] -> 0 <= a <= 250 ->
        (251 * wanted limit existing p <= fuel + Z.to_nat a)%nat ->
        exists p', o = Ok p'
                   /\ (active_tasks (w_db w) <> [] -> full limit existing p' = true)).
Proof.
  revert a p w. induction fuel as [|fuel IH]; intros a p w.
  - simpl. destruct (full limit existing p) eqn:Hfull.
    + do 2 eexists. split; [done|]. split; [apply pass_ok_ret|]. intros _ _ _. by exists p.
    + do 2 eexists. split; [done|]. split.
      * split; [apply same_store_refl|]. by split.
      * intros _ Ha Hfuel. exfalso.
        assert (wanted limit existing p <> 0%nat) by (rewrite <- full_wanted; congruence). lia.
  - cbn [fill]. destruct (full limit existing p) eqn:Hfull.
    { do 2 eexists. split; [done|]. split; [apply pass_ok_ret|]. intros _ _ _. by exists p. }
    assert (wanted limit existing p <> 0%nat) as Hwant by (rewrite <- full_wanted; congruence).
    cbv zeta. unfold bind.
    destruct (query_random_facts active_tasks w)
      as (o1 & w1 & -> & Hs1 & Hspin & Hrow & Hnone & Hh).
    set (p1 := if 250 <? a + 1 then clear_used p else p).
    set (a1 := if 250 <? a + 1 then 0 else a + 1).
    assert (picks p1 = picks p) as Hp1 by (subst p1; by destruct (250 <? a + 1)).
    assert (full limit existing p1 = false) as Hfull1 by (by rewrite (full_picks _ _ _ _ Hp1)).
    destruct o1 as [[row|]|e|]; [| | |done].
    + specialize (Hrow row eq_refl). apply active_tasks_tasks in Hrow.
      destruct (bool_decide (t_type row ∈ used p1)) eqn:Hused.
      * destruct (IH a1 p1 w1) as (o & w' & -> & Hok & Hret).
        do 2 eexists. split; [done|]. split.
        { eapply pass_ok_picks; [exact Hp1|].
          eapply pass_ok_same; [done| |done]. intros H. by apply Hh. }
        intros Hf Ha Hfuel.
        destruct (250 <? a + 1) eqn:Hrelax.
        { exfalso. subst p1. simpl in Hused. apply bool_decide_eq_true in Hused.
          by apply not_elem_of_empty in Hused. }
        apply Z.ltb_ge in Hrelax. subst a1.
        destruct Hs1 as (Hdb1 & _). rewrite <- Hdb1.
        apply Hret; [by apply Hh|lia|]. rewrite (wanted_picks _ _ _ _ Hp1). lia.
      * destruct (IH a1 (pick row p1) w1) as (o & w' & -> & Hok & Hret).
        do 2 eexists. split; [done|]. split.
        { eapply pass_ok_picks; [exact Hp1|]. eapply pass_ok_pick; [done|done|].
          eapply pass_ok_same; [done| |done]. intros H. by apply Hh. }
        intros Hf Ha Hfuel.
        pose proof (pick_wanted limit existing row p1 Hfull1) as Hw.
        rewrite (wanted_picks _ _ _ _ Hp1) in Hw.
        destruct Hs1 as (Hdb1 & _). rewrite <- Hdb1.
        apply Hret; [by apply Hh| |]; subst a1; destruct (250 <? a + 1) eqn:Hrelax;
          try apply Z.ltb_lt in Hrelax; try apply Z.ltb_ge in Hrelax; lia.
    + do 2 eexists. split; [done|]. split.
      * eapply pass_ok_picks; [exact Hp1|]. split; [done|]. split.
        { by intros p' [= <-]. }
        { intros H. by apply Hh. }
      * intros Hf _ _. exists p1. split; [done|]. intros Hne. by destruct Hne, Hnone.
    + do 2 eexists. split; [done|]. split.
      * split; [done|]. split; [done|]. intros H. by apply Hh.
      * intros Hf _ _. destruct (Hh Hf) as (_ & r & [=] & _).
Qed.

(** *** Rows inserted and rows deleted *)

Lemma grown_refl uid day d : grown uid day 0 d d.
Proof. repeat split; try done. lia. Qed.

Lemma grown_trans uid day n1 n2 d d1 d2 :
  grown uid day n1 d d1 -> grown uid day n2 d1 d2 -> grown uid day (n1 + n2) d d2.
Proof.
  intros (Hu1 & Ht1 & Hs1 & Ho1 & Hc1) (Hu2 & Ht2 & Hs2 & Ho2 & Hc2).
  repeat split; try congruence.
  - intros u k Hne. rewrite Ho2, Ho1; done.
  - lia.
Qed.

Lemma count_rows_snoc u k d d' row :
  daily_tasks d' = daily_tasks d ++ [row] ->
  count_rows u k d'
  = (count_rows u k d
     + (if ((dt_user_id row =? u)%Z && (day_key row =? k)%Z) then 1 else 0))%nat.
Proof.
  unfold count_rows, rows_of. intros ->. rewrite List.filter_app, length_app. simpl.
  by destruct ((dt_user_id row =? u) && (day_key row =? k)).
Qed.

Lemma insert_daily_grown uid day tid now d d' :
  insert_daily uid day tid now d = Some (tt, d') -> grown uid day 1 d d'.
Proof.
  unfold insert_daily. destruct (existsb _ _).
  { intros [= <-]. repeat split; try done. lia. }
  destruct (has_user d uid && has_task d tid); [|done]. intros [= <-].
  repeat split.
  - intros u k Hne. erewrite (count_rows_snoc u k d); [|reflexivity].
    simpl. replace ((uid =? u) && (day =? k)) with false; [lia|].
    symmetry. apply andb_false_iff. destruct Hne; [left|right]; apply Z.eqb_neq; lia.
  - erewrite (count_rows_snoc uid day d); [|reflexivity].
    simpl. rewrite !Z.eqb_refl. simpl. lia.
Qed.

Lemma insert_daily_answers uid day tid now d :
  has_user d uid = true -> has_task d tid = true ->
  exists d', insert_daily uid day tid now d = Some (tt, d').
Proof.
  intros Hu Ht. unfold insert_daily. destruct (existsb _ _); [by eexists|].
  rewrite Hu, Ht. by eexists.
Qed.

Lemma grown_has uid day n d d' :
  grown uid day n d d' ->
  (forall u, has_user d' u = has_user d u) /\ (forall t, has_task d' t = has_task d t).
Proof. intros (Hu & Ht & _). unfold has_user, has_task. by rewrite Hu, Ht. Qed.

Lemma insert_picks_grown uid day now ids w :
  exists o w', insert_picks uid day now ids w = (o, w') /\ o <> Spin
    /\ grown uid day (length ids) (w_db w) (w_db w').
Proof.
  revert w. induction ids as [|tid rest IH]; intros w; cbn [insert_picks].
  { do 2 eexists. split; [done|]. split; [done|]. apply grown_refl. }
  unfold bind.
  destruct (run_cases (insert_daily uid day tid now) w)
    as (w0 & (Hdb0 & _) & [E|[[Hnone E]|([] & d & Hins & E)]]).
  - rewrite E. do 2 eexists. split; [done|]. split; [done|].
    rewrite Hdb0. repeat split; try done. lia.
  - rewrite E. do 2 eexists. split; [done|]. split; [done|].
    rewrite Hdb0. repeat split; try done. lia.
  - rewrite E. destruct (IH (set_db d w0)) as (o & w' & -> & Hns & Hg).
    pose proof (insert_daily_grown _ _ _ _ _ _ Hins) as Hg1.
    do 2 eexists. split; [done|]. split; [done|].
    change (length (tid :: rest)) with (1 + length rest)%nat.
    eapply grown_trans; [exact Hg1|exact Hg].
Qed.

Lemma insert_picks_healthy uid day now ids w :
  w_faults w = [] -> has_user (w_db w) uid = true ->
  Forall (fun t => has_task (w_db w) t = true) ids ->
  exists w', insert_picks uid day now ids w = (Ok tt, w')
             /\ w_db w' = store_picks uid day now ids (w_db w).
Proof.
  revert w. induction ids as [|tid rest IH]; intros w Hf Hu Ht; cbn [insert_picks].
  { by eexists. }
  apply Forall_cons in Ht as [Ht1 Ht].
  unfold bind. rewrite run_healthy by done.
  destruct (insert_daily_answers uid day tid now (w_db w) Hu Ht1) as (d' & Hd'). rewrite Hd'.
  destruct (grown_has _ _ _ _ _ (insert_daily_grown _ _ _ _ _ _ Hd')) as [Hhu Hht].
  destruct (IH (set_db d' w)) as (w' & -> & Hdb').
  - done.
  - simpl. by rewrite Hhu.
  - simpl. eapply Forall_impl; [exact Ht|]. simpl. intros t. by rewrite Hht.
  - exists w'. split; [done|]. simpl in *. by rewrite Hd'.
Qed.

Lemma filter_filter_length {A} (p q : A -> bool) l :
  (length (List.filter p (List.filter q l)) <= length (List.filter p l))%nat.
Proof.
  induction l as [|x l IH]; [done|]. simpl.
  destruct (q x); simpl; destruct (p x); simpl; lia.
Qed.

Lemma shrunk_refl d : shrunk d d.
Proof. by repeat split. Qed.

Lemma shrunk_trans d d1 d2 : shrunk d d1 -> shrunk d1 d2 -> shrunk d d2.
Proof.
  intros (Hu1 & Ht1 & Hs1 & Hc1) (Hu2 & Ht2 & Hs2 & Hc2). repeat split; try congruence.
  intros u k. specialize (Hc1 u k). specialize (Hc2 u k). lia.
Qed.

Lemma shrunk_delete_users d : shrunk d (delete_orphans_of_users d).
Proof. repeat split. intros u k. apply filter_filter_length. Qed.

Lemma shrunk_delete_tasks d : shrunk d (delete_orphans_of_tasks d).
Proof. repeat split. intros u k. apply filter_filter_length. Qed.

Lemma shrunk_cleaned d : shrunk d (cleaned d).
Proof.
  unfold cleaned. eapply shrunk_trans; [apply shrunk_delete_users|apply shrunk_delete_tasks].
Qed.

(** *** The whole allocation, whatever the storage layer rejects *)

Lemma step_keeps {A B} (m : M A) (k : A -> M B) (P : db -> Prop) w :
  keeps_store m -> P (w_db w) ->
  (forall a w1, m w = (Ok a, w1) -> same_store w w1 -> P (w_db (snd (k a w1)))) ->
  P (w_db (snd (bind m k w))).
Proof.
  intros Hk HP Hok. unfold bind. destruct (m w) as [[a|e|] w1] eqn:E.
  - apply Hok; [done|]. by eapply keeps_any.
  - simpl. by destruct (keeps_any m w _ _ Hk E) as (-> & _).
  - simpl. by destruct (keeps_any m w _ _ Hk E) as (-> & _).
Qed.

Lemma step_run {B} (f : db -> db) (k : unit -> M B) (P : db -> Prop) w :
  P (w_db w) ->
  (forall w1, w_db w1 = f (w_db w) -> P (w_db (snd (k tt w1)))) ->
  P (w_db (snd (bind (run (fun d => Some (tt, f d))) k w))).
Proof.
  intros HP Hok. unfold bind.
  destruct (run_cases (fun d => Some (tt, f d)) w)
    as (w0 & (Hdb0 & _) & [->|[[? ->]|([] & d & [= <-] & ->)]]); simpl.
  - by rewrite Hdb0.
  - by rewrite Hdb0.
  - by apply Hok.
Qed.

Lemma keeps_shuffle {A} i (l : list A) : keeps_store (shuffle i l).
Proof.
  revert l. induction i as [|i IH]; intros l; simpl; [apply keeps_ret|].
  apply keeps_bind; [apply keeps_random|]. intros j. apply IH.
Qed.

Lemma keeps_clock : keeps_store clock.
Proof. intros w. apply same_store_refl. Qed.

Lemma existing_ids_length uid day d : length (existing_ids uid day d) = count_rows uid day d.
Proof. unfold existing_ids, count_rows. apply length_map. Qed.

(** After a call the tables are the old ones with rows deleted, or such
    tables with at most [n] rows added for the user on the day, where
    [n] and the rows the user had fit the limit. *)
Lemma ensure_bounded fuel uid day w :
  let d' := w_db (snd (ensureDailyTasks fuel uid day w)) in
  shrunk (w_db w) d'
  \/ exists d1 n, shrunk (w_db w) d1 /\ grown uid day n d1 d'
       /\ Z.of_nat (count_rows uid day d1 + n) <= setting_of (w_db w) (js "tasks_per_day") 10.
Proof.
  set (P := fun d' => shrunk (w_db w) d'
    \/ exists d1 n, shrunk (w_db w) d1 /\ grown uid day n d1 d'
         /\ Z.of_nat (count_rows uid day d1 + n) <= setting_of (w_db w) (js "tasks_per_day") 10).
  change (P (w_db (snd (ensureDailyTasks fuel uid day w)))).
  assert (forall d1, shrunk (w_db w) d1 -> P d1) as Hleft by (intros d1 H; by left).
  unfold ensureDailyTasks.
  apply (step_run (fun d => d)); [apply Hleft, shrunk_refl|]. intros w1 Hdb1.
  apply step_run; [rewrite Hdb1; apply Hleft, shrunk_refl|]. intros w2 Hdb2.
  apply step_run; [rewrite Hdb2, Hdb1; apply Hleft, shrunk_delete_users|]. intros w3 Hdb3.
  rewrite Hdb2, Hdb1 in Hdb3. fold (cleaned (w_db w)) in Hdb3.
  pose proof (shrunk_cleaned (w_db w)) as Hshr. rewrite <- Hdb3 in Hshr.
  apply step_keeps; [apply keeps_query|by apply Hleft|]. intros user w4 _ (Hdb4 & _).
  destruct user as [user|]; [|simpl; rewrite Hdb4; by apply Hleft].
  apply step_keeps; [apply keeps_setting|rewrite Hdb4; by apply Hleft|].
  intros limit w5 [-> _]%setting_ok (Hdb5 & _).
  rewrite Hdb4 in Hdb5 |- *.
  rewrite (setting_of_ext (w_db w) (w_db w3)) by apply Hshr.
  apply step_keeps; [apply keeps_query|rewrite Hdb5; by apply Hleft|].
  intros existing w6 [-> _]%query_ok (Hdb6 & _). rewrite Hdb5 in Hdb6 |- *.
  rewrite existing_ids_length.
  destruct (_ <=? _) eqn:Hfull; [simpl; rewrite Hdb6; by apply Hleft|].
  apply Z.leb_gt in Hfull.
  apply step_keeps; [apply keeps_query|rewrite Hdb6; by apply Hleft|].
  intros existingTypes w7 _ (Hdb7 & _). rewrite Hdb6 in Hdb7.
  apply step_keeps; [apply keeps_query|rewrite Hdb7; by apply Hleft|].
  intros existingCats w8 _ (Hdb8 & _). rewrite Hdb7 in Hdb8.
  apply step_keeps; [apply keeps_query|rewrite Hdb8; by apply Hleft|].
  intros typeRows w9 _ (Hdb9 & _). rewrite Hdb8 in Hdb9.
  apply step_keeps; [apply keeps_query|rewrite Hdb9; by apply Hleft|].
  intros catRows w10 _ (Hdb10 & _). rewrite Hdb9 in Hdb10.
  apply step_keeps; [apply keeps_shuffle|rewrite Hdb10; by apply Hleft|].
  intros categories w11 _ (Hdb11 & _). rewrite Hdb10 in Hdb11.
  set (existing := existing_ids uid day (w_db w3)).
  set (limit := setting_of (w_db w) (js "tasks_per_day") 10) in *.
  set (p0 := mkPicker _ _ []).
  assert (picks_fit limit existing p0) as Hfit0.
  { unfold picks_fit. simpl. subst existing. rewrite existing_ids_length. lia. }
  unfold bind at 1.
  destruct (pass_categories_facts limit existing categories p0 w11)
    as (o1 & w12 & -> & ((Hdb12 & _) & Hp1 & _) & _ & _).
  rewrite Hdb11 in Hdb12.
  destruct o1 as [p1| |]; [|simpl; rewrite Hdb12; by apply Hleft..].
  destruct (Hp1 p1 eq_refl) as [Hfit1 _]. specialize (Hfit1 Hfit0).
  unfold bind at 1.
  destruct (pass_types_facts limit existing
              match typeRows with [] => FALLBACK_TYPES | _ :: _ => typeRows end p1 w12)
    as (o2 & w13 & -> & ((Hdb13 & _) & Hp2 & _) & _ & _).
  rewrite Hdb12 in Hdb13.
  destruct o2 as [p2| |]; [|simpl; rewrite Hdb13; by apply Hleft..].
  destruct (Hp2 p2 eq_refl) as [Hfit2 _]. specialize (Hfit2 Hfit1).
  unfold bind at 1.
  destruct (fill_facts fuel limit existing 0 p2 w13)
    as (o3 & w14 & -> & ((Hdb14 & _) & Hp3 & _) & _).
  rewrite Hdb13 in Hdb14.
  destruct o3 as [p3| |]; [|simpl; rewrite Hdb14; by apply Hleft..].
  destruct (Hp3 p3 eq_refl) as [Hfit3 _]. specialize (Hfit3 Hfit2).
  unfold bind at 1, clock.
  destruct (insert_picks_grown uid day (w_now w14) (picks p3) w14) as (o4 & w15 & -> & _ & Hg).
  simpl. right. exists (w_db w3), (length (picks p3)). rewrite Hdb14 in Hg.
  split; [done|]. split; [done|].
  unfold picks_fit in Hfit3. subst existing. rewrite existing_ids_length in Hfit3. lia.
Qed.

(** *** The whole allocation on a store that answers *)

Lemma shuffle_draws {A} i (l : list A) w :
  exists l' w', shuffle i l w = (Ok l', w') /\ same_but_draws w w'.
Proof.
  revert l w. induction i as [|i IH]; intros l w; simpl.
  { exists l, w. split; [done|apply same_but_draws_refl]. }
  unfold bind. destruct (random_below_draws (S (S i)) w) as (j & w1 & -> & Hs1 & _).
  destruct (IH (swap (S i) j l) w1) as (l' & w' & -> & Hs2).
  exists l', w'. split; [done|]. by eapply same_but_draws_trans.
Qed.

Lemma found_has_user uid d u : user_by_id uid d = Some u -> has_user d uid = true.
Proof.
  unfold user_by_id, has_user. intros [Hin Hid]%find_some.
  apply existsb_exists. by exists u.
Qed.

Lemma wanted_le limit existing p : (wanted limit existing p <= Z.to_nat limit)%nat.
Proof. unfold wanted. lia. Qed.

Lemma ensure_terminates d txn rnd now uid day fuel :
  (251 * Z.to_nat (setting_of d (js "tasks_per_day") 10) <= fuel)%nat ->
  exists ids w',
    ensureDailyTasks fuel uid day (mkWorld d txn [] rnd now) = (Ok tt, w')
    /\ w_db w' = store_picks uid day now ids (cleaned d)
    /\ (has_user d uid = true ->
        Z.of_nat (count_rows uid day (cleaned d)) < setting_of d (js "tasks_per_day") 10 ->
        active_tasks d <> [] ->
        Z.of_nat (length ids + count_rows uid day (cleaned d))
        = setting_of d (js "tasks_per_day") 10).
Proof.
  intros Hfuel. unfold ensureDailyTasks, bind.
  do 4 healthy_step. fold (cleaned d).
  destruct (user_by_id uid (cleaned d)) as [user|] eqn:Huser.
  2: { exists [], (mkWorld (cleaned d) txn [] rnd now). split; [done|]. split; [done|].
       intros Hu. apply has_user_found in Hu as [u Hu].
       unfold user_by_id in *. simpl in Huser. congruence. }
  healthy_step. rewrite (setting_of_ext d (cleaned d)) by done.
  set (limit := setting_of d (js "tasks_per_day") 10) in *.
  healthy_step. rewrite existing_ids_length.
  destruct (limit <=? _) eqn:Hfull.
  { exists [], (mkWorld (cleaned d) txn [] rnd now). split; [done|]. split; [done|].
    apply Z.leb_le in Hfull. lia. }
  apply Z.leb_gt in Hfull.
  do 4 healthy_step.
  set (w1 := set_db (cleaned d) _).
  set (catRows := distinct_active category (cleaned d)).
  destruct (shuffle_draws (length catRows - 1) catRows w1)
    as (categories & w2 & -> & ((Hdb2 & _ & Hnow2) & Hf2)).
  set (existing := existing_ids uid day (cleaned d)).
  set (p0 := mkPicker _ _ []).
  assert (picks_fit limit existing p0) as Hfit0.
  { unfold picks_fit. simpl. subst existing. rewrite existing_ids_length. lia. }
  assert (picks_known (w_db w2) p0) as Hknown0 by constructor.
  destruct (pass_categories_facts limit existing categories p0 w2)
    as (o1 & w3 & -> & ((Hdb3 & _ & Hnow3) & Hp1 & Hf3) & _ & Hret1).
  destruct (Hret1 Hf2) as (p1 & ->). destruct (Hp1 p1 eq_refl) as [Hfit1 Hknown1].
  specialize (Hfit1 Hfit0). specialize (Hknown1 Hknown0). specialize (Hf3 Hf2).
  destruct (pass_types_facts limit existing
              match distinct_active t_type (cleaned d) with
              | [] => FALLBACK_TYPES | _ :: _ => distinct_active t_type (cleaned d) end p1 w3)
    as (o2 & w4 & -> & ((Hdb4 & _ & Hnow4) & Hp2 & Hf4) & _ & Hret2).
  destruct (Hret2 Hf3) as (p2 & ->). destruct (Hp2 p2 eq_refl) as [Hfit2 Hknown2].
  rewrite Hdb3 in Hknown2, Hdb4.
  specialize (Hfit2 Hfit1). specialize (Hknown2 Hknown1). specialize (Hf4 Hf3).
  destruct (fill_facts fuel limit existing 0 p2 w4)
    as (o3 & w5 & -> & ((Hdb5 & _ & Hnow5) & Hp3 & Hf5) & Hret3).
  destruct (Hret3 Hf4 ltac:(lia)) as (p3 & -> & Hfull3).
  { pose proof (wanted_le limit existing p2). lia. }
  destruct (Hp3 p3 eq_refl) as [Hfit3 Hknown3].
  rewrite Hdb4 in Hknown3, Hdb5.
  specialize (Hfit3 Hfit2). specialize (Hknown3 Hknown2). specialize (Hf5 Hf4).
  unfold clock.
  destruct (insert_picks_healthy uid day (w_now w5) (picks p3) w5) as (w6 & -> & Hdb6).
  - done.
  - rewrite Hdb5, Hdb2. by eapply found_has_user.
  - by rewrite Hdb5.
  - exists (picks p3), w6. split; [done|]. split.
    + rewrite Hdb6, Hdb5, Hdb2, Hnow5, Hnow4, Hnow3, Hnow2. done.
    + intros _ _ Hactive.
      assert (full limit existing p3 = true) as Hfull'.
      { apply Hfull3. by rewrite Hdb4, Hdb2. }
      unfold full in Hfull'. apply Z.leb_le in Hfull'. unfold picks_fit in Hfit3.
      subst existing. rewrite existing_ids_length in *. lia.
Qed.

(** C2, as amended: whatever the storage layer rejects and however the
    draws fall, a call of [ensureDailyTasks] never takes a user and day
    past the configured daily limit: after the call a pair holds at most
    the larger of the rows it had and the limit, a pair other than the
    one of the call gains no row, and the call leaves the limit as it
    is. *)
Theorem ensureDailyTasks_never_passes_the_limit fuel uid day w u k :
  let d' := w_db (snd (ensureDailyTasks fuel uid day w)) in
  Z.of_nat (count_rows u k d')
  <= Z.max (Z.of_nat (count_rows u k (w_db w))) (setting_of (w_db w) (js "tasks_per_day") 10)
  /\ (u <> uid \/ k <> day -> (count_rows u k d' <= count_rows u k (w_db w))%nat)
  /\ setting_of d' (js "tasks_per_day") 10 = setting_of (w_db w) (js "tasks_per_day") 10.
Proof.
  intros d'. subst d'.
  destruct (ensure_bounded fuel uid day w)
    as [(_ & _ & Hset & Hcnt)|(d1 & n & (_ & _ & Hset1 & Hcnt1) & (_ & _ & Hset & Hother & Hcnt) & Hfit)].
  - specialize (Hcnt u k). split; [lia|]. split; [done|]. by apply setting_of_ext.
  - specialize (Hcnt1 u k). split; [|split].
    + destruct (decide (u = uid /\ k = day)) as [[-> ->]|Hne].
      * lia.
      * rewrite Hother by (destruct (decide (u = uid)); [right|left]; naive_solver). lia.
    + intros Hne. by rewrite Hother.
    + apply setting_of_ext. congruence.
Qed.

Lemma ensureDailyTasks_never_passes_the_limit_witness :
  let d' := w_db (snd (ensureDailyTasks 2510 1 (nairobi_day noon)
                         (mkWorld catalog3_db None [] [] noon))) in
  Z.of_nat (count_rows 1 (nairobi_day noon) d') <= 10
  /\ (count_rows 2 (nairobi_day noon) d' <= 0)%nat.
Proof.
  intros d'.
  destruct (ensureDailyTasks_never_passes_the_limit 2510 1 (nairobi_day noon)
              (mkWorld catalog3_db None [] [] noon) 1 (nairobi_day noon)) as (H1 & _ & _).
  destruct (ensureDailyTasks_never_passes_the_limit 2510 1 (nairobi_day noon)
              (mkWorld catalog3_db None [] [] noon) 2 (nairobi_day noon)) as (_ & H2 & _).
  split; [exact H1|]. apply H2. left. discriminate.
Defined.

(** C2 as it is worded fails: the rows of a day can exceed the
    configured daily limit. With a limit of 3 the allocation gives the
    user three rows; the administrator then lowers tasks_per_day to 1
    with the settings form, which deletes no row; the user has three
    rows under a limit of 1, and a further call of the allocation leaves
    them. *)
Lemma rows_exceed_a_lowered_limit :
  let day := nairobi_day noon in
  let filled := ensureDailyTasks 0 1 day (mkWorld trio_db None [] [] noon) in
  let lowered := admin_update_settings 1 one_a_day (snd filled) in
  let called := ensureDailyTasks 0 1 day (snd lowered) in
  fst filled = Ok tt
  /\ setting_of (w_db (snd filled)) (js "tasks_per_day") 10 = 3
  /\ count_rows 1 day (w_db (snd filled)) = 3%nat
  /\ fst lowered = Ok (mkReply 200 (VSettings [(js "tasks_per_day", js "1")]))
  /\ setting_of (w_db (snd lowered)) (js "tasks_per_day") 10 = 1
  /\ count_rows 1 day (w_db (snd lowered)) = 3%nat
  /\ fst called = Ok tt
  /\ setting_of (w_db (snd called)) (js "tasks_per_day") 10 = 1
  /\ count_rows 1 day (w_db (snd called)) = 3%nat
  /\ ~ Z.of_nat (count_rows 1 day (w_db (snd called)))
       <= setting_of (w_db (snd called)) (js "tasks_per_day") 10.
Proof. vm_compute. repeat split. intros H. by apply H. Qed.

(** C6 as it is worded fails: with three active tasks of three types and
    a daily limit of 10 the call returns with ten picks, seven of them
    tasks picked before, and the user ends with three rows, not ten. *)
Lemma three_tasks_give_three_rows :
  let w := mkWorld catalog3_db None [] [] noon in
  length (remove_dups (List.map t_type (active_tasks catalog3_db))) = 3%nat
  /\ setting_of catalog3_db (js "tasks_per_day") 10 = 10
  /\ fst (ensureDailyTasks 2510 1 (nairobi_day noon) w) = Ok tt
  /\ existing_ids 1 (nairobi_day noon) (w_db (snd (ensureDailyTasks 2510 1 (nairobi_day noon) w)))
     = [3; 1; 2]
  /\ count_rows 1 (nairobi_day noon) (w_db (snd (ensureDailyTasks 2510 1 (nairobi_day noon) w)))
     <> 10%nat.
Proof. vm_compute. repeat split; discriminate. Qed.

(** *** A second call once the quota is filled *)

Lemma filter_all {A} (p : A -> bool) l : Forall (fun x => p x = true) l -> List.filter p l = l.
Proof. induction 1 as [|x l Hx _ IH]; [done|]. simpl. by rewrite Hx, IH. Qed.

Lemma with_daily_tasks_same f d : f (daily_tasks d) = daily_tasks d -> with_daily_tasks f d = d.
Proof. unfold with_daily_tasks. intros ->. by destruct d. Qed.

Lemma no_orphans_cleaned d : no_orphans d -> cleaned d = d.
Proof.
  intros H. unfold cleaned.
  assert (delete_orphans_of_users d = d) as ->.
  { unfold delete_orphans_of_users. apply with_daily_tasks_same, filter_all.
    eapply Forall_impl; [exact H|]. by intros r [? _]. }
  unfold delete_orphans_of_tasks. apply with_daily_tasks_same, filter_all.
  eapply Forall_impl; [exact H|]. by intros r [_ ?].
Qed.

Lemma cleaned_no_orphans d : no_orphans (cleaned d).
Proof.
  unfold no_orphans, cleaned, delete_orphans_of_tasks, delete_orphans_of_users. simpl.
  apply Forall_forall. intros r Hr. apply list_elem_of_In in Hr.
  apply List.filter_In in Hr as [Hr Ht]. apply List.filter_In in Hr as [_ Hu]. done.
Qed.

Lemma insert_daily_no_orphans uid day tid now d d' :
  insert_daily uid day tid now d = Some (tt, d') -> no_orphans d -> no_orphans d'.
Proof.
  unfold insert_daily. destruct (existsb _ _); [by intros [= <-]|].
  destruct (has_user d uid && has_task d tid) eqn:E; [|done]. intros [= <-] H.
  apply andb_true_iff in E as [Hu Ht]. unfold no_orphans in *. simpl.
  apply Forall_app. split; [done|]. by constructor.
Qed.

Lemma store_picks_no_orphans uid day now ids d :
  no_orphans d -> no_orphans (store_picks uid day now ids d).
Proof.
  revert d. induction ids as [|tid rest IH]; intros d H; [done|]. simpl. apply IH.
  destruct (insert_daily uid day tid now d) as [[[] d']|] eqn:E; [|done].
  by eapply insert_daily_no_orphans.
Qed.

(** A call for a user at or above the limit, on tables without orphans,
    changes nothing and draws nothing. *)
Lemma ensure_full_is_noop d txn rnd now uid day fuel :
  no_orphans d ->
  setting_of d (js "tasks_per_day") 10 <= Z.of_nat (count_rows uid day d) ->
  ensureDailyTasks fuel uid day (mkWorld d txn [] rnd now) = (Ok tt, mkWorld d txn [] rnd now).
Proof.
  intros Hno Hfull. unfold ensureDailyTasks, bind.
  do 4 healthy_step. fold (cleaned d). rewrite (no_orphans_cleaned d Hno).
  destruct (user_by_id uid d); [|done].
  do 2 healthy_step. rewrite existing_ids_length.
  by apply Z.leb_le in Hfull as ->.
Qed.

(** Once a call has filled the quota of the day, a second call right
    after it, whatever its draws, leaves the world as it is. *)
Lemma second_call_noop_when_full d txn rnd now uid day fuel fuel' rnd' now' :
  (251 * Z.to_nat (setting_of d (js "tasks_per_day") 10) <= fuel)%nat ->
  let d1 := w_db (snd (ensureDailyTasks fuel uid day (mkWorld d txn [] rnd now))) in
  setting_of d (js "tasks_per_day") 10 <= Z.of_nat (count_rows uid day d1) ->
  ensureDailyTasks fuel' uid day (mkWorld d1 txn [] rnd' now')
  = (Ok tt, mkWorld d1 txn [] rnd' now').
Proof.
  intros Hfuel d1 Hfull.
  destruct (ensure_terminates d txn rnd now uid day fuel Hfuel) as (ids & w' & E & Hdb & _).
  subst d1. rewrite E in *. simpl in *.
  apply ensure_full_is_noop.
  - rewrite Hdb. apply store_picks_no_orphans, cleaned_no_orphans.
  - destruct (ensure_bounded fuel uid day (mkWorld d txn [] rnd now))
      as [(_ & _ & Hset & _)|(d1 & n & (_ & _ & Hset1 & _) & (_ & _ & Hset & _) & _)];
      rewrite E in *; simpl in *.
    + by rewrite (setting_of_ext d (w_db w')).
    + rewrite (setting_of_ext d (w_db w')); [done|congruence].
Qed.

(** C3 fails: with two active tasks of one type and a daily limit of 2,
    a first call whose draws all fall on task 1 picks it twice and
    stores one row; a second call right after it, whose draws fall on
    task 2, stores a second row. *)
Lemma second_call_adds_a_row :
  let w0 := mkWorld twin_db None [] [] noon in
  let w1 := snd (ensureDailyTasks 502 1 (nairobi_day noon) w0) in
  let w2 := snd (ensureDailyTasks 502 1 (nairobi_day noon) (set_random (repeat 1%nat 251) w1)) in
  fst (ensureDailyTasks 502 1 (nairobi_day noon) w0) = Ok tt
  /\ existing_ids 1 (nairobi_day noon) (w_db w1) = [1]
  /\ fst (ensureDailyTasks 502 1 (nairobi_day noon) (set_random (repeat 1%nat 251) w1)) = Ok tt
  /\ existing_ids 1 (nairobi_day noon) (w_db w2) = [1; 2]
  /\ assigned_set 1 (nairobi_day noon) (w_db w2) <> assigned_set 1 (nairobi_day noon) (w_db w1).
Proof.
  vm_compute. repeat split; try reflexivity. intros H.
  assert (2 ∈ ({[1; 2]} : gset Z)) as Hin by set_solver.
  assert (2 ∉ ({[1]} : gset Z)) as Hout by set_solver.
  apply Hout. revert Hin. unfold assigned_set in *.
  by replace ({[1]} : gset Z) with ({[1; 2]} : gset Z).
Qed.

(** ** Wallets stay non-negative where the amounts allow it *)

Lemma wallets_update uid (f : user -> user) l :
  wallets_ok l ->
  (forall u, In u l -> u_id u = uid -> 0 <= balance_ksh (f u) /\ 0 <= bonus_ksh (f u)) ->
  wallets_ok (List.map (fun u => if u_id u =? uid then f u else u) l).
Proof.
  unfold wallets_ok. intros Hl Hf. apply Forall_forall. intros x Hx.
  apply list_elem_of_In, in_map_iff in Hx as (u & <- & Hu).
  destruct (u_id u =? uid) eqn:E.
  - apply Hf; [done|by apply Z.eqb_eq].
  - rewrite Forall_forall in Hl. by apply Hl, list_elem_of_In.
Qed.

Lemma same_key_same_row (l : list user) u r :
  NoDup (List.map u_id l) -> In u l -> In r l -> u_id r = u_id u -> r = u.
Proof.
  induction l as [|x l IH]; [done|]. simpl. intros Hnd Hu Hr Hid.
  apply NoDup_cons in Hnd as [Hx Hnd].
  destruct Hu as [->|Hu], Hr as [->|Hr]; [done| | |by apply IH].
  - exfalso. apply Hx. rewrite <- Hid. apply list_elem_of_In. by apply in_map.
  - exfalso. apply Hx. rewrite Hid. apply list_elem_of_In. by apply in_map.
Qed.

(** Redeem on the main server keeps the wallets non-negative when the
    transfer amount is neither negative nor above the threshold. *)
Lemma redeem_keeps_wallets uid w :
  NoDup (List.map u_id (users (w_db w))) ->
  wallets_ok (users (w_db w)) ->
  0 <= setting_of (w_db w) (js "referral_redeem_transfer_ksh") 1000
    <= setting_of (w_db w) (js "referral_redeem_threshold_ksh") 1000 ->
  wallets_ok (users (w_db (snd (redeem uid w)))).
Proof.
  intros Hnd Hok Hset. unfold redeem.
  pose (P := fun d => wallets_ok (users d)).
  apply (step_keeps _ _ P); [apply keeps_query|done|]. intros u w1 [-> _]%query_ok (Hdb1 & _).
  destruct (user_by_id uid (w_db w)) as [u|] eqn:Hu; [|simpl; by rewrite Hdb1].
  apply (step_keeps _ _ P); [apply keeps_setting|by rewrite Hdb1|].
  intros threshold w2 [-> _]%setting_ok (Hdb2 & _). rewrite Hdb1 in Hdb2 |- *.
  apply (step_keeps _ _ P); [apply keeps_setting|by rewrite Hdb2|].
  intros transfer w3 [-> _]%setting_ok (Hdb3 & _). rewrite Hdb2 in Hdb3 |- *.
  destruct (bonus_ksh u <? _) eqn:Hlt; [simpl; by rewrite Hdb3|].
  apply Z.ltb_ge in Hlt.
  apply (step_run _ _ P); [by rewrite Hdb3|]. intros w4 Hdb4.
  apply (step_keeps _ _ P); [apply keeps_query| |intros me w5 _ (Hdb5 & _); simpl; rewrite Hdb5];
    rewrite Hdb4, Hdb3; subst P; simpl.
  all: apply wallets_update; [done|]; intros r Hr Hid;
    apply find_some in Hu as [Hin Hidu%Z.eqb_eq];
    assert (r = u) as -> by (apply (same_key_same_row (users (w_db w))); [done..|congruence]);
    unfold wallets_ok in Hok; rewrite Forall_forall in Hok;
    destruct (Hok u ltac:(by apply list_elem_of_In)); simpl; lia.
Qed.

(** The route of referrals.js keeps them non-negative as it is. *)
Lemma redeem_fixed_keeps_wallets uid w :
  NoDup (List.map u_id (users (w_db w))) ->
  wallets_ok (users (w_db w)) ->
  wallets_ok (users (w_db (snd (redeem_fixed uid w)))).
Proof.
  intros Hnd Hok. unfold redeem_fixed.
  pose (P := fun d => wallets_ok (users d)).
  apply (step_keeps _ _ P); [apply keeps_query|done|]. intros u w1 [-> _]%query_ok (Hdb1 & _).
  destruct (user_by_id uid (w_db w)) as [u|] eqn:Hu; [|simpl; by rewrite Hdb1].
  cbv zeta. destruct (bonus_ksh u <? 1000) eqn:Hlt; [simpl; by rewrite Hdb1|].
  apply Z.ltb_ge in Hlt.
  assert (wallets_ok (List.map (fun r => if u_id r =? uid
            then add_bonus (- 1000) (add_balance 1000 r) else r) (users (w_db w)))) as Hnew.
  { apply wallets_update; [done|]. intros r Hr Hid.
    apply find_some in Hu as [Hin Hidu%Z.eqb_eq].
    assert (r = u) as -> by (apply (same_key_same_row (users (w_db w))); [done..|congruence]).
    unfold wallets_ok in Hok. rewrite Forall_forall in Hok.
    destruct (Hok u ltac:(by apply list_elem_of_In)). simpl. lia. }
  apply (step_run _ _ P); [by rewrite Hdb1|]. intros w2 Hdb2.
  unfold bind at 1.
  destruct (run_cases (insert_redemption uid 1000) w2)
    as (w0 & (Hdb0 & _) & [->|[[? ->]|([] & d & [= <-] & ->)]]); simpl.
  - subst P. simpl. by rewrite Hdb0, Hdb2, Hdb1.
  - subst P. simpl. by rewrite Hdb0, Hdb2, Hdb1.
  - apply (step_keeps _ _ P); [apply keeps_query| |intros me w5 _ (Hdb5 & _)];
      subst P; simpl.
    + by rewrite Hdb2, Hdb1.
    + destruct me; simpl; rewrite Hdb5; simpl; by rewrite Hdb2, Hdb1.
Qed.

(** A completion on the main server keeps them non-negative when no
    reward is negative. *)
Lemma complete_keeps_wallets req w :
  wallets_ok (users (committed w)) ->
  Forall (fun t => 0 <= reward_ksh t) (tasks (w_db w)) ->
  wallets_ok (users (committed (snd (complete req w)))).
Proof.
  intros Hok Hrew.
  destruct (complete_all_or_nothing req w) as [->|(dt & task & _ & Htask & Hdone)]; [done|].
  apply find_some in Htask as [Hin%list_elem_of_In _].
  rewrite Forall_forall in Hrew. specialize (Hrew _ Hin).
  unfold completion_of, insert_completion in Hdone.
  destruct (num_int (cr_id req)) as [tid|]; [|done].
  destruct (_ && _); [|done]. injection Hdone as <-. simpl.
  apply wallets_update; [done|]. intros u Hu _.
  unfold wallets_ok in Hok. rewrite Forall_forall in Hok.
  destruct (Hok u ltac:(by apply list_elem_of_In)). simpl. lia.
Qed.

Lemma wallets_credit_rows rid rb l :
  0 <= rb -> wallets_ok l -> wallets_ok (credit_rows rid rb l).
Proof.
  intros Hrb Hok. apply wallets_update; [done|]. intros u Hu _.
  unfold wallets_ok in Hok. rewrite Forall_forall in Hok.
  destruct (Hok u ltac:(by apply list_elem_of_In)). simpl. lia.
Qed.

(** A registration that answers 200 keeps them non-negative on both
    handlers, whatever the configured amount: the main server skips an
    amount that is not positive. *)
Lemma register_keeps_wallets zod_email bcrypt_hash b w uid w' :
  wallets_ok (users (w_db w)) ->
  register zod_email bcrypt_hash b w = (Ok (mkResponse 200 (PToken uid)), w') ->
  wallets_ok (users (w_db w')).
Proof.
  intros Hok (data & code & _ & -> & _)%register_success.
  assert (wallets_ok (users (w_db w) ++ [mkUser uid (rd_username data) (rd_email data)
            (bcrypt_hash (rd_password data)) (Some code)
            (u_id <$> referrer_of (rd_referral data) (w_db w)) 0 0 None])) as Hnew.
  { apply Forall_app. split; [done|]. by repeat constructor. }
  unfold credited. destruct (u_id <$> _) as [rid|]; [|done].
  destruct (rid =? 0); [done|]. simpl. destruct (0 <? _) eqn:Hrb; [|done].
  apply Z.ltb_lt in Hrb. apply wallets_credit_rows; [lia|done].
Qed.

Lemma register_router_keeps_wallets zod_email bcrypt_hash b w uid w' :
  wallets_ok (users (w_db w)) ->
  register_router zod_email bcrypt_hash b w = (Ok (mkResponse 200 (PToken uid)), w') ->
  wallets_ok (users (w_db w')).
Proof.
  intros Hok (data & code & _ & -> & _)%register_router_success.
  unfold credited_router. destruct (u_id <$> _) as [rid|].
  - apply wallets_credit_rows; [lia|]. apply Forall_app. split; [done|]. by repeat constructor.
  - apply Forall_app. split; [done|]. by repeat constructor.
Qed.

(* ===================================================================== *)
(** * Further properties of the handlers *)
(* ===================================================================== *)

(** ** More on running handlers *)

Lemma try_catch_ret_snd {A} (m : M A) (f : exn -> A) w :
  snd (try_catch m (fun e => ret (f e)) w) = snd (m w).
Proof. unfold try_catch. by destruct (m w) as [[a|e|] w']. Qed.

Lemma step_run_opt {A B} (stmt : db -> option (A * db)) (k : A -> M B) (P : db -> Prop) w :
  P (w_db w) ->
  (forall a d' w1, stmt (w_db w) = Some (a, d') -> w_db w1 = d' -> P (w_db (snd (k a w1)))) ->
  P (w_db (snd (bind (run stmt) k w))).
Proof.
  intros HP Hok. unfold bind.
  destruct (run_cases stmt w)
    as (w0 & (Hdb0 & _) & [->|[[? ->]|(a & d & Hs & ->)]]); simpl.
  - by rewrite Hdb0.
  - by rewrite Hdb0.
  - by eapply Hok.
Qed.

Lemma find_map_same {A} (p : A -> bool) (g : A -> A) l :
  (forall x, p (g x) = p x) -> find p (List.map g l) = g <$> find p l.
Proof.
  intros Hg. induction l as [|x l IH]; [done|]. simpl. rewrite Hg.
  by destruct (p x).
Qed.

(** ** Completion on the main server: what a success has done *)

Lemma completion_of_spec uid taskId rowId reward now ans d d' :
  completion_of uid taskId rowId reward now ans d = Some d' ->
  exists tid key,
    num_int taskId = Some tid
    /\ users d' = List.map (fun u => if u_id u =? uid then add_balance reward u else u) (users d)
    /\ task_completions d'
       = task_completions d ++ [mkCompletion key uid tid reward (Some ans) now]
    /\ daily_tasks d' = daily_tasks (stamp rowId now ans d)
    /\ tasks d' = tasks d /\ app_settings d' = app_settings d.
Proof.
  unfold completion_of, insert_completion. intros H.
  destruct (num_int taskId) as [tid|]; [|done].
  destruct (_ && _); [|done]. injection H as <-.
  by exists tid, (next_id (seq_task_completions (stamp rowId now ans d))
                    (List.map tc_id (task_completions (stamp rowId now ans d)))).
Qed.

Lemma complete_success req w p w' :
  complete req w = (Ok (mkResponse 200 p), w') ->
  exists dt task,
    assigned_row (cr_user req) (nairobi_day (w_now w)) (cr_id req) (w_db w) = Some dt
    /\ completed_at dt = None
    /\ active_task (cr_id req) (w_db w) = Some task
    /\ num_isFinite (cr_id req) = true
    /\ (2 <= length (answer_of req))%nat
    /\ completion_of (cr_user req) (cr_id req) (dt_id dt) (reward_ksh task)
         (w_now w) (answer_of req) (w_db w) = Some (w_db w')
    /\ w_txn w' = None
    /\ p = PCompleted (default 0 (balance_of (cr_user req) (w_db w')))
             (remaining_of (day_rows (cr_user req) (nairobi_day (w_now w))
                              (setting_of (w_db w') (js "tasks_per_day") 10) (w_db w'))).
Proof.
  unfold complete. intros H.
  apply try_catch_ok in H as [H|(e & w1 & _ & [=])].
  unfold bind at 1, clock in H. fold (answer_of req) in H.
  destruct (num_isFinite (cr_id req)) eqn:Hfin; [|done]. cbn [negb] in H.
  destruct (Z.of_nat (length (answer_of req)) <? 2) eqn:Hlen; [done|].
  apply Z.ltb_ge in Hlen.
  apply bind_ok in H as (dt & w1 & [-> Hs1]%query_ok & H).
  destruct (assigned_row _ _ _ (w_db w)) as [dt|] eqn:Hdt; [|done].
  destruct (completed_at dt) eqn:Hdone; [done|].
  apply bind_ok in H as (task & w2 & [-> Hs2]%query_ok & H).
  destruct Hs1 as (Hdb1 & Htx1 & Hnow1). rewrite Hdb1 in H.
  destruct (active_task (cr_id req) (w_db w)) as [task|] eqn:Htask; [|done].
  apply bind_ok in H as ([] & w3 & Hw & H).
  destruct (complete_writes_atomic (cr_user req) (cr_id req) (dt_id dt) (reward_ksh task)
              (w_now w) (answer_of req) w2) as (o & w3' & E & Hcase).
  rewrite Hw in E. injection E as <- <-.
  destruct Hcase as [(_ & Ht2 & Ht3 & Hc)|[[e [=]] _]].
  destruct Hs2 as (Hdb2 & Htx2 & Hnow2). rewrite Hdb2, Hdb1 in Hc.
  apply bind_ok in H as (me & w4 & [-> Hs4]%query_ok & H).
  apply bind_ok in H as (limit & w5 & [-> Hs5]%setting_ok & H).
  apply bind_ok in H as (rows & w6 & [-> Hs6]%query_ok & H).
  injection H as <- <-.
  destruct Hs4 as (Hdb4 & Htx4 & Hnow4), Hs5 as (Hdb5 & Htx5 & Hnow5),
           Hs6 as (Hdb6 & Htx6 & Hnow6).
  assert (w_db w6 = w_db w3) as Hdb by congruence.
  exists dt, task. repeat split; try done.
  - lia.
  - by rewrite Hdb.
  - congruence.
  - rewrite Hdb, Hdb5, Hdb4. reflexivity.
Qed.

(** The row [complete] looks up is the stamped one once the writes are done. *)
Lemma assigned_row_completed uid day taskId rowId reward now ans d d' dt :
  completion_of uid taskId rowId reward now ans d = Some d' ->
  assigned_row uid day taskId d = Some dt -> dt_id dt = rowId ->
  exists dt', assigned_row uid day taskId d' = Some dt' /\ completed_at dt' = Some now.
Proof.
  intros (tid & key & _ & _ & _ & Hdaily & _)%completion_of_spec Hdt Hid.
  unfold assigned_row in *. rewrite Hdaily. unfold stamp. cbn [daily_tasks with_daily_tasks].
  rewrite find_map_same; [|intros x; by destruct (dt_id x =? rowId)].
  rewrite Hdt. simpl. rewrite Hid, Z.eqb_refl. by eexists.
Qed.

(** X1: a completion that answered 200 has stamped the assignment, appended
    one completion row carrying the reward of the task and the answer,
    and added that reward to the balance of the caller; the balance it
    reports is the stored one. *)
Theorem complete_credits_the_reward req w p w' :
  complete req w = (Ok (mkResponse 200 p), w') ->
  exists dt task tid key,
    assigned_row (cr_user req) (nairobi_day (w_now w)) (cr_id req) (w_db w) = Some dt
    /\ completed_at dt = None
    /\ active_task (cr_id req) (w_db w) = Some task
    /\ num_int (cr_id req) = Some tid
    /\ users (w_db w')
       = List.map (fun u => if u_id u =? cr_user req
                            then add_balance (reward_ksh task) u else u) (users (w_db w))
    /\ task_completions (w_db w')
       = task_completions (w_db w)
         ++ [mkCompletion key (cr_user req) tid (reward_ksh task)
                          (Some (answer_of req)) (w_now w)]
    /\ daily_tasks (w_db w')
       = daily_tasks (stamp (dt_id dt) (w_now w) (answer_of req) (w_db w))
    /\ w_txn w' = None
    /\ p = PCompleted (default 0 (balance_of (cr_user req) (w_db w')))
             (remaining_of (day_rows (cr_user req) (nairobi_day (w_now w))
                              (setting_of (w_db w') (js "tasks_per_day") 10) (w_db w'))).
Proof.
  intros (dt & task & Hdt & Hdone & Htask & _ & _ & Hc & Htx & Hp)%complete_success.
  apply completion_of_spec in Hc as (tid & key & Hid & Hu & Htc & Hd & _).
  by exists dt, task, tid, key.
Qed.

Lemma complete_credits_the_reward_witness :
  exists dt task tid key,
    assigned_row 1 (nairobi_day noon) (JsFin (inject_Z 7)) completion_db = Some dt
    /\ completed_at dt = None
    /\ active_task (JsFin (inject_Z 7)) completion_db = Some task
    /\ num_int (JsFin (inject_Z 7)) = Some tid
    /\ users (w_db (snd (complete (mkCompleteRequest 1 (JsFin (inject_Z 7)) (Some (js "hello world")) None)
                           (mkWorld completion_db None [] [] noon))))
       = List.map (fun u => if u_id u =? 1 then add_balance (reward_ksh task) u else u)
                  (users completion_db)
    /\ task_completions (w_db (snd (complete (mkCompleteRequest 1 (JsFin (inject_Z 7)) (Some (js "hello world")) None)
                           (mkWorld completion_db None [] [] noon))))
       = [mkCompletion key 1 tid (reward_ksh task) (Some (js "hello world")) noon].
Proof.
  set (req := mkCompleteRequest 1 (JsFin (inject_Z 7)) (Some (js "hello world")) None).
  set (w := mkWorld completion_db None [] [] noon).
  destruct (complete_credits_the_reward req w
              (PCompleted 20 0) (snd (complete req w)))
    as (dt & task & tid & key & H1 & H2 & H3 & H4 & H5 & H6 & _).
  { vm_compute. reflexivity. }
  exists dt, task, tid, key. repeat split; try done.
Defined.

(** X2: a completed task is not credited again: once a completion has
    answered 200, the same request on the same day is refused, whatever
    the storage layer does, and writes nothing. *)
Theorem complete_is_refused_the_second_time req w p w' w2 :
  complete req w = (Ok (mkResponse 200 p), w') ->
  w_db w2 = w_db w' -> nairobi_day (w_now w2) = nairobi_day (w_now w) ->
  exists o w3, complete req w2 = (Ok o, w3)
    /\ same_store w2 w3
    /\ status o <> 200
    /\ (w_faults w2 = [] -> o = mkResponse 400 (PError "Task already completed")).
Proof.
  intros (dt & task & Hdt & Hdone & Htask & Hfin & Hlen & Hc & _)%complete_success Hdb Hday.
  destruct (assigned_row_completed _ (nairobi_day (w_now w)) _ _ _ _ _ _ _ dt Hc Hdt eq_refl)
    as (dt' & Hdt' & Hdone').
  unfold complete, try_catch, bind at 1, clock. fold (answer_of req).
  rewrite Hfin. cbn [negb].
  destruct (Z.of_nat (length (answer_of req)) <? 2) eqn:E; [apply Z.ltb_lt in E; lia|].
  unfold bind at 1.
  destruct (query_cases (assigned_row (cr_user req) (nairobi_day (w_now w2)) (cr_id req)) w2)
    as [(w3 & Hq & Hs)|(w3 & Hq & Hs)]; rewrite Hq.
  - do 2 eexists. split; [done|]. repeat split; try apply Hs; [done|].
    intros Hf. unfold query, bind in Hq. by rewrite tick_healthy in Hq.
  - rewrite Hday, Hdb, Hdt', Hdone'.
    do 2 eexists. split; [done|]. repeat split; try apply Hs; done.
Qed.

Lemma complete_is_refused_the_second_time_witness :
  let req := mkCompleteRequest 1 (JsFin (inject_Z 7)) (Some (js "hello world")) None in
  let w := mkWorld completion_db None [] [] noon in
  exists o w3, complete req (snd (complete req w)) = (Ok o, w3)
    /\ same_store (snd (complete req w)) w3
    /\ status o <> 200.
Proof.
  intros req w.
  destruct (complete_is_refused_the_second_time req w (PCompleted 20 0) (snd (complete req w))
              (snd (complete req w)))
    as (o & w3 & H1 & H2 & H3 & _); [by vm_compute|reflexivity|reflexivity|].
  exists o, w3. split; [exact H1|split; [exact H2|exact H3]].
Defined.

(** ** The daily route of tasks_transcription.js *)

Lemma completions_on_snoc u day d d' row :
  task_completions d' = task_completions d ++ [row] ->
  completions_on u day d'
  = completions_on u day d
    ++ (if (tc_user_id row =? u) && (nairobi_day (created_at row) =? day) then [row] else []).
Proof.
  unfold completions_on. intros ->. rewrite List.filter_app. simpl.
  by destruct (_ && _).
Qed.

Lemma insert_completion_spec uid taskId reward ans now d d' :
  insert_completion uid taskId reward ans now d = Some (tt, d') ->
  exists tid key,
    num_int taskId = Some tid
    /\ task_completions d' = task_completions d ++ [mkCompletion key uid tid reward ans now]
    /\ users d' = users d /\ tasks d' = tasks d
    /\ daily_task_assignments d' = daily_task_assignments d.
Proof.
  unfold insert_completion. intros H.
  destruct (num_int taskId) as [tid|]; [|done].
  destruct (_ && _); [|done]. injection H as <-.
  by exists tid, (next_id (seq_task_completions d) (List.map tc_id (task_completions d))).
Qed.

(** X3: the cap of five completions a day holds on the daily route: a user
    who has at most five completions on a day has at most five after
    any call, whatever the storage layer does. *)
Theorem complete_daily_keeps_the_cap toLowerCase req w u day :
  (length (completions_on u day (w_db w)) <= 5)%nat ->
  (length (completions_on u day (w_db (snd (complete_daily toLowerCase req w)))) <= 5)%nat.
Proof.
  intros Hcap. unfold complete_daily. rewrite try_catch_ret_snd.
  set (P := fun d => (length (completions_on u day d) <= 5)%nat).
  change (P (w_db w)) in Hcap.
  destruct (negb (num_truthy (dr_id req))); [done|].
  unfold bind at 1, clock.
  apply (step_keeps _ _ P); [apply keeps_query|done|]. intros d0 w1 [-> _]%query_ok (Hdb1 & _).
  apply (step_keeps _ _ P); [apply keeps_query|by rewrite Hdb1|].
  intros c w2 [-> _]%query_ok (Hdb2 & _). rewrite Hdb1 in Hdb2 |- *.
  destruct (5 <=? _) eqn:Hc; [simpl; by rewrite Hdb2|]. apply Z.leb_gt in Hc.
  apply (step_keeps _ _ P); [apply keeps_query|by rewrite Hdb2|].
  intros assigned w3 [-> _]%query_ok (Hdb3 & _). rewrite Hdb2 in Hdb3 |- *.
  destruct (find _ (daily_task_assignments (w_db w))); [|simpl; by rewrite Hdb3].
  apply (step_keeps _ _ P); [apply keeps_query|by rewrite Hdb3|].
  intros already w4 [-> _]%query_ok (Hdb4 & _). rewrite Hdb3 in Hdb4 |- *.
  destruct (find _ (completions_on (dr_user req) (nairobi_day (w_now w)) (w_db w)));
    [simpl; by rewrite Hdb4|].
  apply (step_keeps _ _ P); [apply keeps_query|by rewrite Hdb4|].
  intros task w5 [-> _]%query_ok (Hdb5 & _). rewrite Hdb4 in Hdb5 |- *.
  destruct (active_task (dr_id req) (w_db w)) as [task|]; [|simpl; by rewrite Hdb5].
  destruct (parse_transcription (dr_body req)) as [s|]; [|simpl; by rewrite Hdb5].
  destruct (negb _); [simpl; by rewrite Hdb5|].
  apply step_run_opt; [by rewrite Hdb5|]. intros [] d6 w6 Hins Hdb6.
  rewrite Hdb5 in Hins.
  apply insert_completion_spec in Hins as (tid & key & _ & Htc & _).
  assert (P d6) as HP6.
  { unfold P. erewrite completions_on_snoc by exact Htc.
    cbn [tc_user_id created_at]. rewrite length_app.
    destruct (decide (dr_user req = u /\ nairobi_day (w_now w) = day)) as [[<- <-]|Hne].
    - rewrite !Z.eqb_refl. simpl. lia.
    - destruct (_ && _) eqn:E; [|unfold P in Hcap; simpl; lia].
      apply andb_true_iff in E as [?%Z.eqb_eq ?%Z.eqb_eq]. by destruct Hne. }
  apply step_run; [by rewrite Hdb6|]. intros w7 Hdb7.
  assert (P (w_db w7)) as HP7.
  { rewrite Hdb7, Hdb6. unfold P, completions_on in *. exact HP6. }
  apply (step_keeps _ _ P); [apply keeps_query|done|].
  intros me w8 _ (Hdb8 & _).
  apply (step_keeps _ _ P); [apply keeps_query|by rewrite Hdb8|].
  intros c2 w9 _ (Hdb9 & _).
  destruct me; simpl; by rewrite Hdb9, Hdb8.
Qed.

Lemma complete_daily_keeps_the_cap_witness :
  (length (completions_on 1 (nairobi_day noon)
             (w_db (snd (complete_daily toLowerCase_latin daily_submission
                           (mkWorld completion_db None [] [] noon))))) <= 5)%nat.
Proof.
  apply (complete_daily_keeps_the_cap toLowerCase_latin daily_submission
           (mkWorld completion_db None [] [] noon) 1 (nairobi_day noon)).
  simpl. lia.
Defined.

(** X4: a transcription that differs from the expected text only in the
    style of its quotes or in its runs of whitespace is accepted: the
    completion is recorded and the reward credited. *)
Theorem complete_daily_accepts_up_to_layout toLowerCase req w tid task expected s me :
  w_faults w = [] ->
  num_truthy (dr_id req) = true -> num_int (dr_id req) = Some tid ->
  (length (completions_on (dr_user req) (nairobi_day (w_now w)) (w_db w)) < 5)%nat ->
  In (mkAssignment (dr_user req) (nairobi_day (w_now w)) tid) (daily_task_assignments (w_db w)) ->
  Forall (fun c => tc_task_id c <> tid)
         (completions_on (dr_user req) (nairobi_day (w_now w)) (w_db w)) ->
  active_task (dr_id req) (w_db w) = Some task ->
  t_answer_text task = Some expected ->
  parse_transcription (dr_body req) = Some s ->
  differ_only single_quote_seen ws_gap s expected ->
  user_by_id (dr_user req) (w_db w) = Some me ->
  let made := Z.of_nat (length (completions_on (dr_user req) (nairobi_day (w_now w)) (w_db w))) in
  fst (complete_daily toLowerCase req w)
  = Ok (mkResponse 200 (PCompletedDaily (balance_ksh me + reward_ksh task)
                                        (made + 1) (5 - (made + 1))))
  /\ balance_of (dr_user req) (w_db (snd (complete_daily toLowerCase req w)))
     = Some (balance_ksh me + reward_ksh task)
  /\ exists key,
       task_completions (w_db (snd (complete_daily toLowerCase req w)))
       = task_completions (w_db w)
         ++ [mkCompletion key (dr_user req) tid (reward_ksh task) None (w_now w)].
Proof.
  intros Hf Htruthy Hint Hcap Hassigned Hfresh Htask Hexp Hparse Hdiff Hme made.
  destruct w as [d txn faults rnd now]. cbn [w_faults w_db w_now] in *. subst faults.
  set (key := next_id (seq_task_completions d) (List.map tc_id (task_completions d))).
  set (row := mkCompletion key (dr_user req) tid (reward_ksh task) None now).
  set (d1 := with_seqs (seq_users d) (seq_daily_tasks d) key
               (with_task_completions (fun l => l ++ [row]) d)).
  set (d2 := credit (dr_user req) (reward_ksh task) d1).
  assert (user_by_id (dr_user req) d2 = Some (add_balance (reward_ksh task) me)) as Hme'.
  { unfold d2, credit. by apply user_by_id_update. }
  assert (completions_on (dr_user req) (nairobi_day now) d2
          = completions_on (dr_user req) (nairobi_day now) d ++ [row]) as Hrows.
  { unfold completions_on. cbn [task_completions credit update_user with_users d1 d2 with_seqs
      with_task_completions]. rewrite List.filter_app. simpl. by rewrite !Z.eqb_refl. }
  enough (complete_daily toLowerCase req (mkWorld d txn [] rnd now)
          = (Ok (mkResponse 200 (PCompletedDaily (balance_ksh me + reward_ksh task)
                                                 (made + 1) (5 - (made + 1)))),
             mkWorld d2 txn [] rnd now)) as ->.
  { cbn [fst snd w_db]. repeat split.
    - unfold balance_of. by rewrite Hme'.
    - by exists key. }
  unfold complete_daily, try_catch. rewrite Htruthy. cbn [negb].
  unfold bind at 1, clock. cbn [w_now].
  do 2 (unfold bind at 1; healthy_step).
  fold made. destruct (5 <=? made) eqn:E; [apply Z.leb_le in E; lia|].
  unfold bind at 1; healthy_step.
  destruct (find _ (daily_task_assignments d)) eqn:Hfind.
  2: { exfalso. eapply find_none in Hfind; [|exact Hassigned].
       cbn [a_user_id a_day a_task_id] in Hfind. unfold num_is in Hfind.
       by rewrite Hint, !Z.eqb_refl in Hfind. }
  unfold bind at 1; healthy_step.
  destruct (find _ (completions_on _ _ d)) as [c|] eqn:Hdone.
  { exfalso. apply find_some in Hdone as [Hin Hc]. unfold num_is in Hc. rewrite Hint in Hc.
    apply Z.eqb_eq in Hc. rewrite Forall_forall in Hfresh.
    by apply (Hfresh c); [apply list_elem_of_In|]. }
  unfold bind at 1; healthy_step. rewrite Htask, Hparse, Hexp. cbn [default].
  rewrite (normalize_differ_only toLowerCase s expected Hdiff).
  rewrite bool_decide_eq_true_2 by done. cbn [negb].
  assert (has_user d (dr_user req) = true) as Hu by (by eapply found_has_user).
  assert (has_task d tid = true) as Ht.
  { apply find_some in Htask as [Hin Hc]. apply andb_true_iff in Hc as [Hc _].
    unfold num_is in Hc. rewrite Hint in Hc. unfold has_task. apply existsb_exists.
    exists task. split; [done|]. by rewrite Z.eqb_sym. }
  unfold bind at 1; healthy_step. unfold insert_completion. rewrite Hint, Hu, Ht. cbn [andb].
  fold key row d1.
  unfold bind at 1; healthy_step. fold d2.
  unfold bind at 1; healthy_step.
  unfold bind at 1; healthy_step.
  rewrite Hme', Hrows, length_app. cbn [length ret balance_ksh add_balance set_balance].
  do 4 f_equal; unfold made; lia.
Qed.

Lemma complete_daily_accepts_up_to_layout_witness :
  fst (complete_daily toLowerCase_latin
         (mkDailyRequest 1 (JsFin (inject_Z 7))
            (Some (JObj [(js "transcription", JStr (js "hello" ++ [9%N; 10%N] ++ js "world"))])))
         (mkWorld completion_db None [] [] noon))
  = Ok (mkResponse 200 (PCompletedDaily (0 + 20) (0 + 1) (5 - (0 + 1)))).
Proof.
  apply (complete_daily_accepts_up_to_layout toLowerCase_latin
           (mkDailyRequest 1 (JsFin (inject_Z 7))
              (Some (JObj [(js "transcription", JStr (js "hello" ++ [9%N; 10%N] ++ js "world"))])))
           (mkWorld completion_db None [] [] noon) 7 transcription_task (js "hello world")
           (js "hello" ++ [9%N; 10%N] ++ js "world") (wallet_user 0 0));
    try reflexivity.
  - simpl. lia.
  - simpl. by left.
  - constructor.
  - apply (differ_run single_quote_seen ws_gap (js "hello") (js "world") [9%N; 10%N] [SP]).
    + split; [by repeat constructor|]. by apply Exists_cons_hd.
    + split; [by repeat constructor|]. by apply Exists_cons_hd.
Defined.

Lemma complete_daily_success toLowerCase req w p w' :
  complete_daily toLowerCase req w = (Ok (mkResponse 200 p), w') ->
  exists tid key task,
    num_truthy (dr_id req) = true
    /\ num_int (dr_id req) = Some tid
    /\ active_task (dr_id req) (w_db w) = Some task
    /\ task_completions (w_db w')
       = task_completions (w_db w)
         ++ [mkCompletion key (dr_user req) tid (reward_ksh task) None (w_now w)]
    /\ users (w_db w')
       = List.map (fun u => if u_id u =? dr_user req
                            then add_balance (reward_ksh task) u else u) (users (w_db w)).
Proof.
  unfold complete_daily. intros H.
  apply try_catch_ok in H as [H|(e & w1 & _ & [=])].
  destruct (num_truthy (dr_id req)) eqn:Htruthy; [|done]. cbn [negb] in H.
  unfold bind at 1, clock in H.
  apply bind_ok in H as (day & w1 & [-> Hs1]%query_ok & H).
  apply bind_ok in H as (c & w2 & [-> Hs2]%query_ok & H).
  destruct (5 <=? _); [done|].
  apply bind_ok in H as (assigned & w3 & [-> Hs3]%query_ok & H).
  destruct (find _ (daily_task_assignments (w_db w2))); [|done].
  apply bind_ok in H as (already & w4 & [-> Hs4]%query_ok & H).
  destruct (find _ (completions_on _ _ (w_db w3))); [done|].
  apply bind_ok in H as (task & w5 & [-> Hs5]%query_ok & H).
  destruct (active_task (dr_id req) (w_db w4)) as [task|] eqn:Htask; [|done].
  destruct (parse_transcription (dr_body req)) as [s|]; [|done].
  destruct (negb _); [done|].
  apply bind_ok in H as ([] & w6 & (Hins & _)%run_ok & H).
  apply bind_ok in H as ([] & w7 & ([= Hcr] & _)%run_ok & H).
  apply bind_ok in H as (me & w8 & [-> Hs8]%query_ok & H).
  apply bind_ok in H as (c2 & w9 & [-> Hs9]%query_ok & H).
  destruct (user_by_id (dr_user req) (w_db w7)); [|done]. injection H as _ <-.
  destruct Hs1 as (Hdb1 & _), Hs2 as (Hdb2 & _), Hs3 as (Hdb3 & _), Hs4 as (Hdb4 & _),
           Hs5 as (Hdb5 & _), Hs8 as (Hdb8 & _), Hs9 as (Hdb9 & _).
  assert (w_db w5 = w_db w) as Hdb by congruence.
  assert (w_db w4 = w_db w) as Hdb' by congruence.
  rewrite Hdb in Hins. rewrite Hdb' in Htask.
  apply insert_completion_spec in Hins as (tid & key & Hint & Htc & Hu & _).
  exists tid, key, task. repeat split; try done.
  - rewrite Hdb9, Hdb8, <- Hcr. exact Htc.
  - rewrite Hdb9, Hdb8, <- Hcr. cbn [users credit update_user with_users]. by rewrite Hu.
Qed.

(** X5: a transcription is not credited twice: once the daily route has
    answered 200, the same request on the same day is refused, whatever
    the storage layer does, and writes nothing. *)
Theorem complete_daily_is_refused_the_second_time toLowerCase req w p w' w2 :
  complete_daily toLowerCase req w = (Ok (mkResponse 200 p), w') ->
  w_db w2 = w_db w' -> nairobi_day (w_now w2) = nairobi_day (w_now w) ->
  exists o w3, complete_daily toLowerCase req w2 = (Ok o, w3)
    /\ same_store w2 w3
    /\ status o <> 200.
Proof.
  intros (tid & key & task & Htruthy & Hint & _ & Htc & _)%complete_daily_success Hdb Hday.
  unfold complete_daily, try_catch. rewrite Htruthy. cbn [negb].
  unfold bind at 1, clock.
  unfold bind at 1.
  destruct (query_cases (fun _ : db => nairobi_day (w_now w2)) w2)
    as [(w3 & -> & Hs3)|(w3 & -> & Hs3)].
  { by do 2 eexists. }
  unfold bind at 1.
  destruct (query_cases (fun d => Z.of_nat (length (completions_on (dr_user req)
              (nairobi_day (w_now w2)) d))) w3) as [(w4 & -> & Hs4)|(w4 & -> & Hs4)].
  { do 2 eexists. split; [done|]. split; [by eapply same_store_trans|done]. }
  pose proof (same_store_trans _ _ _ Hs3 Hs4) as Hs34.
  destruct (5 <=? _).
  { by do 2 eexists. }
  unfold bind at 1.
  destruct (query_cases (fun d => find (fun a => (a_user_id a =? dr_user req)
              && (a_day a =? nairobi_day (w_now w2)) && num_is (dr_id req) (a_task_id a))
              (daily_task_assignments d)) w4) as [(w5 & -> & Hs5)|(w5 & -> & Hs5)].
  { do 2 eexists. split; [done|]. split; [by eapply same_store_trans|done]. }
  pose proof (same_store_trans _ _ _ Hs34 Hs5) as Hs35.
  destruct (find _ (daily_task_assignments (w_db w4))).
  2: { by do 2 eexists. }
  unfold bind at 1.
  destruct (query_cases (fun d => find (fun c => num_is (dr_id req) (tc_task_id c))
              (completions_on (dr_user req) (nairobi_day (w_now w2)) d)) w5)
    as [(w6 & -> & Hs6)|(w6 & -> & Hs6)].
  { do 2 eexists. split; [done|]. split; [by eapply same_store_trans|done]. }
  pose proof (same_store_trans _ _ _ Hs35 Hs6) as Hs36.
  destruct (find _ (completions_on _ _ (w_db w5))) eqn:Hfind.
  { by do 2 eexists. }
  exfalso.
  destruct Hs35 as (Hdb5 & _). rewrite Hdb5, Hdb in Hfind.
  eapply find_none in Hfind.
  2: { unfold completions_on. apply filter_In. split.
       - rewrite Htc. apply in_or_app. right. by left.
       - cbn [tc_user_id created_at]. by rewrite Hday, !Z.eqb_refl. }
  cbn [tc_task_id] in Hfind. unfold num_is in Hfind. by rewrite Hint, Z.eqb_refl in Hfind.
Qed.

Lemma complete_daily_is_refused_the_second_time_witness :
  let w := mkWorld completion_db None [] [] noon in
  exists o w3,
    complete_daily toLowerCase_latin daily_submission
      (snd (complete_daily toLowerCase_latin daily_submission w)) = (Ok o, w3)
    /\ status o <> 200.
Proof.
  intros w.
  destruct (complete_daily_is_refused_the_second_time toLowerCase_latin daily_submission w
              (PCompletedDaily 20 1 4) (snd (complete_daily toLowerCase_latin daily_submission w))
              (snd (complete_daily toLowerCase_latin daily_submission w)))
    as (o & w3 & H1 & _ & H3); [by vm_compute|reflexivity|reflexivity|].
  exists o, w3. split; [exact H1|exact H3].
Defined.

(** ** Redemption moves money, it makes none *)

Lemma same_totals_refl l : same_totals l l.
Proof. unfold same_totals. induction l; by constructor. Qed.

Lemma same_totals_update uid (f : user -> user) l :
  (forall u, u_id (f u) = u_id u
             /\ balance_ksh (f u) + bonus_ksh (f u) = balance_ksh u + bonus_ksh u) ->
  same_totals l (List.map (fun u => if u_id u =? uid then f u else u) l).
Proof.
  intros Hf. unfold same_totals. induction l as [|u l IH]; simpl; constructor; [|done].
  destruct (u_id u =? uid); [|done]. destruct (Hf u). by split.
Qed.

Lemma transfer_keeps_total x u :
  u_id (add_bonus (- x) (add_balance x u)) = u_id u
  /\ balance_ksh (add_bonus (- x) (add_balance x u)) + bonus_ksh (add_bonus (- x) (add_balance x u))
     = balance_ksh u + bonus_ksh u.
Proof. simpl. split; [done|lia]. Qed.

(** X6: whatever the settings and whatever the storage layer does, a call
    of either redeem route leaves every user with the same total of
    balance and bonus: what leaves the bonus enters the balance. *)
Theorem redeem_keeps_every_total uid w :
  same_totals (users (w_db w)) (users (w_db (snd (redeem uid w))))
  /\ same_totals (users (w_db w)) (users (w_db (snd (redeem_fixed uid w)))).
Proof.
  pose (P := fun d => same_totals (users (w_db w)) (users d)).
  assert (P (w_db w)) as HP0 by apply same_totals_refl.
  assert (forall x, P (update_user uid (fun r => add_bonus (- x) (add_balance x r)) (w_db w)))
    as Hmoved.
  { intros x. apply same_totals_update. intros u. apply transfer_keeps_total. }
  split.
  - unfold redeem.
    apply (step_keeps _ _ P); [apply keeps_query|done|]. intros u w1 _ (Hdb1 & _).
    destruct u as [u|]; [|simpl; by rewrite Hdb1].
    apply (step_keeps _ _ P); [apply keeps_setting|by rewrite Hdb1|].
    intros threshold w2 _ (Hdb2 & _). rewrite Hdb1 in Hdb2.
    apply (step_keeps _ _ P); [apply keeps_setting|by rewrite Hdb2|].
    intros transfer w3 _ (Hdb3 & _). rewrite Hdb2 in Hdb3.
    destruct (bonus_ksh u <? threshold); [simpl; by rewrite Hdb3|].
    apply (step_run _ _ P); [by rewrite Hdb3|]. intros w4 Hdb4. rewrite Hdb3 in Hdb4.
    apply (step_keeps _ _ P); [apply keeps_query|rewrite Hdb4; apply Hmoved|].
    intros me w5 _ (Hdb5 & _). simpl. rewrite Hdb5, Hdb4. apply Hmoved.
  - unfold redeem_fixed.
    apply (step_keeps _ _ P); [apply keeps_query|done|]. intros u w1 _ (Hdb1 & _).
    destruct u as [u|]; [|simpl; by rewrite Hdb1].
    cbv zeta. destruct (bonus_ksh u <? 1000); [simpl; by rewrite Hdb1|].
    apply (step_run _ _ P); [by rewrite Hdb1|]. intros w2 Hdb2. rewrite Hdb1 in Hdb2.
    apply (step_run_opt _ _ P); [rewrite Hdb2; apply Hmoved|].
    intros [] d3 w3 [= <-] Hdb3.
    assert (P (w_db w3)) as HP3.
    { rewrite Hdb3, Hdb2. unfold P. cbn [users with_bonus_redemptions]. apply Hmoved. }
    apply (step_keeps _ _ P); [apply keeps_query|done|].
    intros me w5 _ (Hdb5 & _). destruct me; simpl; by rewrite Hdb5.
Qed.

(** ** The audit trail never blocks a request *)

(** X7: [audit] returns normally whatever the storage layer does; it
    appends at most one row to admin_audit and touches nothing else. *)
Theorem audit_never_blocks adminId act ent id w :
  exists w', audit adminId act ent id w = (Ok tt, w')
    /\ w_txn w' = w_txn w /\ w_now w' = w_now w
    /\ (w_db w' = w_db w
        \/ w_db w' = with_admin_audit
                       (fun l => l ++ [mkAudit adminId act ent
                                         (if num_truthy id then Some id else None)]) (w_db w)).
Proof.
  unfold audit, try_catch.
  destruct (run_cases (fun d => Some (tt, with_admin_audit
              (fun l => l ++ [mkAudit adminId act ent
                                (if num_truthy id then Some id else None)]) d)) w)
    as (w0 & (Hdb0 & Htx0 & Hnow0) & [->|[[[=] _]|([] & d & [= <-] & ->)]]).
  - exists w0. repeat split; try done. by left.
  - eexists. split; [done|]. cbn [w_txn w_now w_db set_db]. repeat split; try done.
    by right.
Qed.

(** ** The shuffle of the categories *)

Lemma insert_delete_perm {A} (l : list A) i x :
  (i < length l)%nat -> <[i:=x]> l ≡ₚ x :: delete i l.
Proof.
  revert i. induction l as [|y l IH]; intros [|i] Hi; simpl in *; try lia; [done|].
  rewrite IH by lia. apply Permutation_swap.
Qed.

Lemma swap_perm {A} i j (l : list A) : swap i j l ≡ₚ l.
Proof.
  unfold swap. destruct (l !! i) as [a|] eqn:Hi; [|done].
  destruct (l !! j) as [b|] eqn:Hj; [|done].
  pose proof (lookup_lt_Some _ _ _ Hi) as Hli.
  pose proof (lookup_lt_Some _ _ _ Hj) as Hlj.
  destruct (decide (i = j)) as [->|Hne].
  { rewrite list_insert_insert_eq. rewrite list_insert_id; [done|congruence]. }
  set (l' := <[j:=a]> l).
  assert (l' !! i = Some a) as Hi' by (unfold l'; by rewrite list_lookup_insert_ne).
  assert (l' ≡ₚ a :: delete j l) as H1 by (by apply insert_delete_perm).
  assert (l ≡ₚ b :: delete j l) as H2 by (by apply delete_Permutation).
  assert (l' ≡ₚ a :: delete i l') as H3 by (by apply delete_Permutation).
  rewrite insert_delete_perm by (unfold l'; by rewrite length_insert).
  rewrite H2. constructor. apply (Permutation_cons_inv (a := a)). by rewrite <- H3.
Qed.

(** X8: whatever is drawn, the shuffle returns the categories it was given,
    each as often as before, and consults the store not at all. *)
Theorem shuffle_permutes {A} i (l : list A) w :
  exists l' w', shuffle i l w = (Ok l', w') /\ l' ≡ₚ l /\ same_but_draws w w'.
Proof.
  revert l w. induction i as [|i IH]; intros l w; simpl.
  { exists l, w. split; [done|]. split; [done|apply same_but_draws_refl]. }
  unfold bind.
  destruct (random_below_draws (S (S i)) w) as (j & w1 & -> & Hs & _).
  destruct (IH (swap (S i) j l) w1) as (l' & w' & -> & Hp & Hs').
  exists l', w'. split; [done|]. split.
  - rewrite Hp. apply swap_perm.
  - by eapply same_but_draws_trans.
Qed.

(** ** Referral codes *)

Lemma digit_unit k : (k < 10)%nat -> digit_val (48 + N.of_nat k)%N = Some (Z.of_nat k).
Proof.
  intros Hk. unfold digit_val.
  assert ((48 <=? 48 + N.of_nat k)%N && (48 + N.of_nat k <=? 57)%N = true) as ->.
  { apply andb_true_iff. split; apply N.leb_le; lia. }
  f_equal. lia.
Qed.

Lemma digits4_value n :
  1000 <= Z.of_nat n <= 9999 -> parseInt (digits4 n) = Some (Z.of_nat n).
Proof.
  intros Hn. unfold parseInt, digits4. cbn [List.map drop_ws].
  assert (forall k, is_ws (48 + N.of_nat (k mod 10)) = false) as Hws.
  { intros k. pose proof (Nat.mod_upper_bound k 10 ltac:(lia)).
    unfold is_ws. repeat (apply orb_false_iff; split);
      try (apply N.eqb_neq; lia); apply andb_false_iff;
      first [left; apply N.leb_gt; lia | right; apply N.leb_gt; lia]. }
  rewrite Hws.
  assert (forall k, ((48 + N.of_nat (k mod 10)) =? 45)%N = false) as H45
    by (intros; apply N.eqb_neq; lia).
  assert (forall k, ((48 + N.of_nat (k mod 10)) =? 43)%N = false) as H43
    by (intros; apply N.eqb_neq; lia).
  rewrite H45, H43. cbn [snd fst digits_prefix].
  rewrite !digit_unit by (apply Nat.mod_upper_bound; lia).
  cbn [default digits_prefix]. f_equal.
  rewrite !Nat2Z.inj_mod, !Nat2Z.inj_div. unfold id.
  change (Z.of_nat 10) with 10. change (Z.of_nat 100) with 100.
  replace (Z.of_nat 1000) with 1000 by lia.
  generalize dependent (Z.of_nat n). clear. intros z Hz.
  Z.div_mod_to_equations. lia.
Qed.

(** X9: a code of the main server is one to six capitals or digits followed
    by the four digits of a number from 1000 to 9999. *)
Theorem makeReferralCode_shape name w :
  exists base n w',
    makeReferralCode name w = (Ok (base ++ digits4 n), w')
    /\ same_store w w'
    /\ (1 <= length base <= 6)%nat
    /\ Forall (fun c => is_digit c || is_upper c = true) base
    /\ 1000 <= Z.of_nat n <= 9999
    /\ length (digits4 n) = 4%nat
    /\ parseInt (digits4 n) = Some (Z.of_nat n).
Proof.
  unfold makeReferralCode, bind.
  destruct (random_below_draws (9 * 1000) w) as (r & w' & -> & [(Hdb & Htx & Hnow) _] & Hr).
  assert (Z.of_nat r < 9000) as Hr'.
  { assert (9 * 1000 <> 0)%nat as H0 by (intros H0; discriminate H0).
    apply Hr, Nat2Z.inj_lt in H0. rewrite Nat2Z.inj_mul in H0. exact H0. }
  clear Hr.
  set (kept := take 6 (List.filter (fun c => is_digit c || is_upper c || is_lower c) name)).
  set (base := List.map (fun c => if is_lower c then (c - 32)%N else c) kept).
  assert (length kept <= 6)%nat as Hlen by (unfold kept; rewrite length_take; lia).
  assert (Forall (fun c => is_digit c || is_upper c = true) base) as Hbase.
  { unfold base. apply Forall_forall. intros c (x & <- & Hx%list_elem_of_In)%list_elem_of_In%in_map_iff.
    assert (is_digit x || is_upper x || is_lower x = true) as Hk.
    { unfold kept in Hx. apply elem_of_take in Hx as (i & Hx & _).
      apply list_elem_of_lookup_2, list_elem_of_In, filter_In in Hx. apply Hx. }
    destruct (is_lower x) eqn:Hl.
    - apply orb_true_iff. right. unfold is_lower, is_upper in *.
      apply andb_true_iff in Hl as [H1%N.leb_le H2%N.leb_le].
      apply andb_true_iff. split; apply N.leb_le; lia.
    - by rewrite orb_false_r in Hk. }
  exists (match base with [] => js "USER" | _ => base end), (1000 + r)%nat, w'.
  repeat split; try done; try lia.
  - destruct base; simpl; lia.
  - destruct base as [|c base'] eqn:E; simpl.
    + lia.
    + assert (length base = length kept) as Hl by (unfold base; apply length_map).
      rewrite E in Hl. simpl in Hl. lia.
  - destruct base; [by repeat constructor|done].
  - apply digits4_value. lia.
Qed.

Lemma random_code_facts n w :
  exists code w', random_code n w = (Ok code, w')
    /\ length code = n /\ Forall (fun c => In c code_chars) code /\ same_but_draws w w'.
Proof.
  revert w. induction n as [|n IH]; intros w; cbn [random_code].
  { exists [], w. split; [done|]. split; [done|]. split; [done|apply same_but_draws_refl]. }
  unfold bind at 1.
  destruct (random_below_draws (length code_chars) w) as (i & w1 & -> & Hs1 & Hi).
  specialize (Hi ltac:(done)).
  unfold bind at 1. destruct (IH w1) as (rest & w2 & -> & Hlen & Hall & Hs2).
  destruct (lookup_lt_is_Some_2 code_chars i Hi) as [c Hc].
  exists (c :: rest), w2. rewrite Hc. cbn [from_option app ret].
  split; [done|]. split; [simpl; by rewrite Hlen|]. split.
  - constructor; [|done]. by apply list_elem_of_In, list_elem_of_lookup_2 with i.
  - by eapply same_but_draws_trans.
Qed.

(** X10: a code the auth router hands out has eight characters of the
    alphabet without 0, O, 1 and I, and no user holds it. *)
Theorem generateReferralCode_gives_unused_code tries w code w' :
  generateReferralCode tries w = (Ok code, w') ->
  length code = 8%nat
  /\ Forall (fun c => In c code_chars) code
  /\ user_by_code code (w_db w) = None
  /\ same_store w w'.
Proof.
  revert w. induction tries as [|tries IH]; intros w; [done|].
  cbn [generateReferralCode]. unfold bind at 1.
  destruct (random_code_facts 8 w) as (c & w1 & -> & Hlen & Hall & [Hs1 _]).
  intros (taken & w2 & [-> Hs2]%query_ok & H)%bind_ok.
  pose proof (same_store_trans _ _ _ Hs1 Hs2) as Hs12.
  destruct Hs1 as (Hdb1 & _).
  destruct (user_by_code c (w_db w1)) eqn:Hc.
  - destruct (IH w2 H) as (H1 & H2 & H3 & H4).
    split; [done|]. split; [done|]. split.
    + destruct Hs12 as (Hdb & _). by rewrite <- Hdb.
    + by eapply same_store_trans.
  - injection H as <- <-. by rewrite Hdb1 in Hc.
Qed.

Lemma generateReferralCode_gives_unused_code_witness :
  let w := mkWorld (wallet_db 0 0 ∅) None [] [3; 1; 4; 1; 5; 9; 2; 6]%nat noon in
  fst (generateReferralCode 50 w) = Ok (js "DBEBFKCG")
  /\ user_by_code (js "DBEBFKCG") (wallet_db 0 0 ∅) = None.
Proof.
  intros w.
  destruct (generateReferralCode_gives_unused_code 50 w (js "DBEBFKCG")
              (snd (generateReferralCode 50 w))) as (_ & _ & H & _); [by vm_compute|].
  split; [by vm_compute|exact H].
Defined.

(** ** A referral code that names nobody *)

(** X11: on both register handlers a body whose referral code, once trimmed,
    is not empty and is the code of no user is refused, whatever the
    storage layer does, and nothing is written: no account is made. *)
Theorem unknown_referral_code_registers_nobody zod_email bcrypt_hash b data w :
  trim (rd_referral data) <> [] ->
  user_by_code (trim (rd_referral data)) (w_db w) = None ->
  (parse_register zod_email b = Some data ->
   exists o w', register zod_email bcrypt_hash b w = (Ok o, w')
                /\ status o = 400 /\ same_store w w')
  /\ (parse_register_router zod_email b = Some data ->
      exists o w', register_router zod_email bcrypt_hash b w = (Ok o, w')
                   /\ status o <> 200 /\ same_store w w').
Proof.
  intros Hcode Hnone. split; intros Hparse.
  - unfold register, try_catch. rewrite Hparse. unfold bind at 1.
    destruct (query_cases (fun d => find (fun u => bool_decide (email u = rd_email data))
                (users d)) w) as [(w1 & -> & Hs1)|(w1 & -> & Hs1)].
    { by do 2 eexists. }
    destruct (find _ (users (w_db w))).
    { by do 2 eexists. }
    unfold bind at 1.
    destruct (query_cases (fun d => find (fun u => bool_decide (username u = rd_username data))
                (users d)) w1) as [(w2 & -> & Hs2)|(w2 & -> & Hs2)].
    { do 2 eexists. split; [done|]. split; [done|by eapply same_store_trans]. }
    pose proof (same_store_trans _ _ _ Hs1 Hs2) as Hs12.
    destruct (find _ (users (w_db w1))).
    { by do 2 eexists. }
    destruct (trim (rd_referral data)) as [|c code] eqn:Htrim; [done|].
    unfold bind at 1.
    destruct (query_cases (user_by_code (c :: code)) w2) as [(w3 & -> & Hs3)|(w3 & -> & Hs3)].
    { do 2 eexists. split; [done|]. split; [done|by eapply same_store_trans]. }
    destruct Hs12 as (Hdb & _). rewrite Hdb, Hnone.
    do 2 eexists. split; [done|]. split; [done|].
    eapply same_store_trans; [|exact Hs3]. by eapply same_store_trans.
  - unfold register_router, try_catch. rewrite Hparse. unfold bind at 1.
    destruct (query_cases (fun d => find (fun u => bool_decide (email u = rd_email data)
                || bool_decide (username u = rd_username data)) (users d)) w)
      as [(w1 & -> & Hs1)|(w1 & -> & Hs1)].
    { by do 2 eexists. }
    destruct (find _ (users (w_db w))).
    { by do 2 eexists. }
    destruct (trim (rd_referral data)) as [|c code] eqn:Htrim; [done|].
    unfold bind at 1.
    destruct (query_cases (user_by_code (c :: code)) w1) as [(w3 & -> & Hs3)|(w3 & -> & Hs3)].
    { do 2 eexists. split; [done|]. split; [done|by eapply same_store_trans]. }
    destruct Hs1 as (Hdb & Htx & Hnow). rewrite Hdb, Hnone.
    do 2 eexists. split; [done|]. split; [done|].
    eapply same_store_trans; [|exact Hs3]. by repeat split.
Qed.

Lemma unknown_referral_code_registers_nobody_witness :
  let b := JObj [(js "username", JStr (js "brian"));
                 (js "email", JStr (js "brian@example.com"));
                 (js "password", JStr (js "secret1"));
                 (js "referralCode", JStr (js " NOBODY42 "))] in
  let w := mkWorld (wallet_db 200 950 ∅) None [] [] noon in
  exists o w', register any_address plain_hash b w = (Ok o, w')
               /\ status o = 400 /\ same_store w w'.
Proof.
  intros b w.
  apply (unknown_referral_code_registers_nobody any_address plain_hash b
           (mkRegisterData (js "brian") (js "brian@example.com") (js "secret1") []
                           (js " NOBODY42 ")) w); by vm_compute.
Defined.

(** ** What the allocation adds *)

(** An invariant of the picker carries through the three passes when
    picking an active task of a type not yet used keeps it, and, for
    the last pass, clearing the used types keeps it. *)
Section PassInvariant.

Variable I : picker -> Prop.
Variable d : db.
Hypothesis I_pick :
  forall row p, In row (active_tasks d) -> t_type row ∉ used p -> I p -> I (pick row p).

Lemma active_in_category_active cat row :
  In row (active_in_category cat d) -> In row (active_tasks d).
Proof.
  unfold active_in_category, active_tasks. rewrite !filter_In.
  intros [H1 [H2 _]%andb_true_iff]. by split.
Qed.

Lemma active_of_type_active typ row :
  In row (active_of_type typ d) -> In row (active_tasks d) /\ t_type row = typ.
Proof.
  unfold active_of_type, active_tasks. rewrite !filter_In.
  intros [H1 [H2 H3%bool_decide_eq_true]%andb_true_iff]. by repeat split.
Qed.

Lemma query_random_ok {A} (q : db -> list A) w r w' :
  query_random q w = (Ok r, w') ->
  same_store w w' /\ (forall row, r = Some row -> In row (q (w_db w))).
Proof.
  intros H. destruct (query_random_facts q w) as (o & w1 & E & Hs & _ & Hin & _).
  rewrite H in E. injection E as <- <-. split; [done|]. intros row ->. by apply Hin.
Qed.

Lemma pass_categories_inv limit existing cats p w p' w' :
  w_db w = d ->
  pass_categories limit existing cats p w = (Ok p', w') -> I p -> I p'.
Proof.
  revert p w. induction cats as [|cat rest IH]; intros p w Hd; cbn [pass_categories].
  { by intros [= <- <-]. }
  destruct (full limit existing p); [by intros [= <- <-]|].
  destruct (bool_decide (cat ∈ usedCats p)); [by apply IH|].
  intros (row & w1 & [Hs Hin]%query_random_ok & H)%bind_ok HI.
  assert (w_db w1 = d) as Hd1 by (destruct Hs as (-> & _); done).
  destruct row as [row|]; [|by eapply IH].
  destruct (bool_decide (t_type row ∈ used p)) eqn:Hu; [by eapply IH|].
  apply bool_decide_eq_false in Hu.
  eapply IH; [exact Hd1|exact H|]. apply I_pick; [|done..].
  apply (active_in_category_active cat). rewrite <- Hd. by apply Hin.
Qed.

Lemma pass_types_inv limit existing types p w p' w' :
  w_db w = d ->
  pass_types limit existing types p w = (Ok p', w') -> I p -> I p'.
Proof.
  revert p w. induction types as [|typ rest IH]; intros p w Hd; cbn [pass_types].
  { by intros [= <- <-]. }
  destruct (full limit existing p); [by intros [= <- <-]|].
  destruct (bool_decide (typ ∈ used p)) eqn:Hu; [by apply IH|].
  apply bool_decide_eq_false in Hu.
  intros (row & w1 & [Hs Hin]%query_random_ok & H)%bind_ok HI.
  assert (w_db w1 = d) as Hd1 by (destruct Hs as (-> & _); done).
  destruct row as [row|]; [|by eapply IH].
  eapply IH; [exact Hd1|exact H|].
  destruct (active_of_type_active typ row) as [Ha Ht]; [rewrite <- Hd; by apply Hin|].
  apply I_pick; [done| |done]. by rewrite Ht.
Qed.

Hypothesis I_clear : forall p, I p -> I (clear_used p).

Lemma fill_inv fuel limit existing a p w p' w' :
  w_db w = d ->
  fill fuel limit existing a p w = (Ok p', w') -> I p -> I p'.
Proof.
  revert a p w. induction fuel as [|fuel IH]; intros a p w Hd; cbn [fill].
  { destruct (full limit existing p); [by intros [= <- <-]|done]. }
  destruct (full limit existing p); [by intros [= <- <-]|].
  cbv zeta.
  set (p1 := if 250 <? a + 1 then clear_used p else p).
  intros (row & w1 & [Hs Hin]%query_random_ok & H)%bind_ok HI.
  assert (I p1) as HI1 by (unfold p1; destruct (250 <? a + 1); [by apply I_clear|done]).
  assert (w_db w1 = d) as Hd1 by (destruct Hs as (-> & _); done).
  destruct row as [row|]; [|by injection H as <- <-].
  destruct (bool_decide (t_type row ∈ used p1)) eqn:Hu; [by eapply IH|].
  apply bool_decide_eq_false in Hu.
  eapply IH; [exact Hd1|exact H|]. apply I_pick; [|done..].
  rewrite <- Hd. by apply Hin.
Qed.

End PassInvariant.

Lemma allocated_refl uid day d : allocated uid day d d.
Proof.
  repeat split. exists (daily_tasks d), []. rewrite app_nil_r. repeat split; [|done].
  exists (fun _ => true). split; [|done]. symmetry. apply filter_all. by apply Forall_forall.
Qed.

Lemma allocated_delete_users uid day d : allocated uid day d (delete_orphans_of_users d).
Proof.
  repeat split. eexists _, []. rewrite app_nil_r. repeat split; [|done].
  exists (fun r => has_user d (dt_user_id r)). by split.
Qed.

Lemma filter_filter_and {A} (p q : A -> bool) l :
  List.filter p (List.filter q l) = List.filter (fun x => q x && p x) l.
Proof.
  induction l as [|x l IH]; [done|]. simpl. destruct (q x); simpl; [|done].
  destruct (p x); by rewrite IH.
Qed.

Lemma allocated_cleaned uid day d : allocated uid day d (cleaned d).
Proof.
  repeat split. eexists _, []. rewrite app_nil_r. repeat split; [|done].
  exists (fun r => has_user d (dt_user_id r) && has_task d (dt_task_id r)). split.
  - unfold cleaned, delete_orphans_of_tasks, delete_orphans_of_users.
    cbn [daily_tasks with_daily_tasks]. by rewrite filter_filter_and.
  - intros r -> ->. done.
Qed.

Lemma allocated_insert uid day tid now d d1 d2 :
  allocated uid day d d1 -> active_id d tid ->
  insert_daily uid day tid now d1 = Some (tt, d2) -> allocated uid day d d2.
Proof.
  intros (Hsame & kept & added & Hd & Hk & Ha) Hact. unfold insert_daily.
  destruct (existsb _ (daily_tasks d1)); [intros [= <-]; split; [done|by exists kept, added]|].
  destruct (_ && _); [|done]. intros [= <-].
  split; [exact Hsame|].
  exists kept, (added ++ [mkDaily (next_id (seq_daily_tasks d1) (List.map dt_id (daily_tasks d1)))
                            uid day tid now None None]).
  cbn [daily_tasks with_seqs with_daily_tasks]. rewrite Hd, app_assoc.
  repeat split; [done|]. apply Forall_app. split; [done|]. by repeat constructor.
Qed.

Lemma insert_picks_allocated uid day now ids d w :
  allocated uid day d (w_db w) -> Forall (active_id d) ids ->
  allocated uid day d (w_db (snd (insert_picks uid day now ids w))).
Proof.
  revert w. induction ids as [|tid ids IH]; intros w Hal Hact; cbn [insert_picks]; [done|].
  inversion Hact as [|? ? Htid Hids]; subst.
  apply (step_run_opt _ _ (allocated uid day d)); [done|].
  intros [] d' w1 Hins Hdb. apply IH; [|done]. rewrite Hdb.
  by eapply allocated_insert.
Qed.

Lemma active_tasks_active_id d row : In row (active_tasks d) -> active_id d (t_id row).
Proof.
  unfold active_tasks. intros [Hin Ha%Z.eqb_eq]%filter_In. by exists row.
Qed.

Lemma active_id_ext d d' tid : tasks d' = tasks d -> active_id d tid -> active_id d' tid.
Proof. unfold active_id. by intros ->. Qed.

(** X12: whatever the storage layer does, whatever is drawn and however long
    the last loop runs, a call of the allocation changes the tables in
    this way only: it deletes orphan rows of daily_tasks, and it adds
    rows of the user on the day, not completed, each for an active
    task. Rows of users and tasks that exist are neither removed nor
    altered, and no other table changes: users, tasks, task_completions,
    daily_task_assignments, referrals, bonus_redemptions,
    activation_fees, app_settings and admin_audit are as before, and so
    are the high-water marks of the keys of users and of
    task_completions. *)
Theorem ensureDailyTasks_adds_fresh_rows_only fuel uid day w :
  allocated uid day (w_db w) (w_db (snd (ensureDailyTasks fuel uid day w))).
Proof.
  set (d := w_db w). set (P := allocated uid day d).
  unfold ensureDailyTasks.
  apply (step_run (fun d => d) _ P); [apply allocated_refl|]. intros w1 Hdb1.
  apply (step_run _ _ P); [rewrite Hdb1; apply allocated_refl|]. intros w2 Hdb2.
  rewrite Hdb1 in Hdb2.
  apply (step_run _ _ P); [rewrite Hdb2; apply allocated_delete_users|]. intros w3 Hdb3.
  rewrite Hdb2 in Hdb3. fold (cleaned (w_db w)) in Hdb3. fold d in Hdb3.
  assert (P (cleaned d)) as Hclean by apply allocated_cleaned.
  apply (step_keeps _ _ P); [apply keeps_query|by rewrite Hdb3|]. intros user w4 _ (Hdb4 & _).
  rewrite Hdb3 in Hdb4.
  destruct user; [|simpl; by rewrite Hdb4].
  apply (step_keeps _ _ P); [apply keeps_setting|by rewrite Hdb4|].
  intros limit w5 _ (Hdb5 & _). rewrite Hdb4 in Hdb5.
  apply (step_keeps _ _ P); [apply keeps_query|by rewrite Hdb5|].
  intros existing w6 _ (Hdb6 & _). rewrite Hdb5 in Hdb6.
  destruct (_ <=? _); [simpl; by rewrite Hdb6|].
  apply (step_keeps _ _ P); [apply keeps_query|by rewrite Hdb6|].
  intros existingTypes w7 _ (Hdb7 & _). rewrite Hdb6 in Hdb7.
  apply (step_keeps _ _ P); [apply keeps_query|by rewrite Hdb7|].
  intros existingCats w8 _ (Hdb8 & _). rewrite Hdb7 in Hdb8.
  apply (step_keeps _ _ P); [apply keeps_query|by rewrite Hdb8|].
  intros typeRows w9 _ (Hdb9 & _). rewrite Hdb8 in Hdb9.
  apply (step_keeps _ _ P); [apply keeps_query|by rewrite Hdb9|].
  intros catRows w10 _ (Hdb10 & _). rewrite Hdb9 in Hdb10.
  apply (step_keeps _ _ P); [apply keeps_shuffle|by rewrite Hdb10|].
  intros categories w11 _ (Hdb11 & _). rewrite Hdb10 in Hdb11.
  set (p0 := mkPicker _ _ []).
  pose (I := fun p : picker => Forall (active_id (cleaned d)) (picks p)).
  assert (forall row p, In row (active_tasks (cleaned d)) -> t_type row ∉ used p ->
                        I p -> I (pick row p)) as Ipick.
  { intros row p Hin _ Hp. unfold I, pick. cbn [picks]. apply Forall_app. split; [done|].
    constructor; [|done]. by apply active_tasks_active_id. }
  assert (forall p, I p -> I (clear_used p)) as Iclear by done.
  assert (I p0) as HI0 by constructor.
  unfold bind at 1.
  destruct (pass_categories_facts limit existing categories p0 w11)
    as (o1 & w12 & E1 & ((Hdb12 & _) & _) & _ & _). rewrite E1.
  rewrite Hdb11 in Hdb12.
  destruct o1 as [p1| |]; [|simpl; by rewrite Hdb12..].
  pose proof (pass_categories_inv I (cleaned d) Ipick _ _ _ _ _ _ _ Hdb11 E1 HI0) as HI1.
  unfold bind at 1.
  destruct (pass_types_facts limit existing
              match typeRows with [] => FALLBACK_TYPES | _ :: _ => typeRows end p1 w12)
    as (o2 & w13 & E2 & ((Hdb13 & _) & _) & _ & _). rewrite E2.
  rewrite Hdb12 in Hdb13.
  destruct o2 as [p2| |]; [|simpl; by rewrite Hdb13..].
  pose proof (pass_types_inv I (cleaned d) Ipick _ _ _ _ _ _ _ Hdb12 E2 HI1) as HI2.
  unfold bind at 1.
  destruct (fill_facts fuel limit existing 0 p2 w13)
    as (o3 & w14 & E3 & ((Hdb14 & _) & _) & _). rewrite E3.
  rewrite Hdb13 in Hdb14.
  destruct o3 as [p3| |]; [|simpl; by rewrite Hdb14..].
  pose proof (fill_inv I (cleaned d) Ipick Iclear _ _ _ _ _ _ _ _ Hdb13 E3 HI2) as HI3.
  unfold bind at 1, clock.
  apply insert_picks_allocated; [by rewrite Hdb14|].
  eapply Forall_impl; [exact HI3|]. intros tid. by apply active_id_ext.
Qed.

(** X13: for a user who does not exist the allocation adds nothing: on a
    store that answers it only deletes the orphan rows; otherwise it
    deletes some of them or none. *)
Theorem ensureDailyTasks_unknown_user fuel uid day w :
  user_by_id uid (w_db w) = None ->
  only_orphans_gone (w_db w) (daily_tasks (w_db (snd (ensureDailyTasks fuel uid day w))))
  /\ (w_faults w = [] ->
      ensureDailyTasks fuel uid day w = (Ok tt, set_db (cleaned (w_db w)) w)).
Proof.
  intros Hnone. split.
  - set (d := w_db w).
    set (P := fun d' => users d' = users d /\ only_orphans_gone d (daily_tasks d')).
    enough (P (w_db (snd (ensureDailyTasks fuel uid day w)))) as [_ H] by done.
    assert (P d) as HP0.
    { split; [done|]. exists (fun _ => true). split; [|done]. symmetry. apply filter_all. by apply Forall_forall. }
    assert (P (delete_orphans_of_users d)) as HP1.
    { split; [done|]. exists (fun r => has_user d (dt_user_id r)). by split. }
    assert (P (cleaned d)) as HP2.
    { split; [done|].
      exists (fun r => has_user d (dt_user_id r) && has_task d (dt_task_id r)). split.
      - unfold cleaned, delete_orphans_of_tasks, delete_orphans_of_users.
        cbn [daily_tasks with_daily_tasks]. by rewrite filter_filter_and.
      - by intros r -> ->. }
    unfold ensureDailyTasks.
    apply (step_run (fun d => d) _ P); [done|]. intros w1 Hdb1.
    apply (step_run _ _ P); [by rewrite Hdb1|]. intros w2 Hdb2. rewrite Hdb1 in Hdb2.
    apply (step_run _ _ P); [by rewrite Hdb2|]. intros w3 Hdb3. rewrite Hdb2 in Hdb3.
    fold (cleaned (w_db w)) in Hdb3. fold d in Hdb3.
    apply (step_keeps _ _ P); [apply keeps_query|by rewrite Hdb3|].
    intros user w4 [-> _]%query_ok (Hdb4 & _). rewrite Hdb3 in Hdb4 |- *.
    assert (user_by_id uid (cleaned d) = None) as -> by exact Hnone.
    simpl. by rewrite Hdb4.
  - intros Hf. destruct w as [d txn faults rnd now]. cbn [w_faults w_db] in *. subst faults.
    unfold ensureDailyTasks.
    do 3 (unfold bind at 1; healthy_step).
    unfold bind at 1. rewrite query_healthy by done.
    fold (cleaned d). assert (user_by_id uid (cleaned d) = None) as Hc by exact Hnone.
    wsimpl. by rewrite Hc.
Qed.

Lemma ensureDailyTasks_unknown_user_witness :
  ensureDailyTasks 0 99 (nairobi_day noon) (mkWorld completion_db None [] [] noon)
  = (Ok tt, mkWorld completion_db None [] [] noon).
Proof.
  destruct (ensureDailyTasks_unknown_user 0 99 (nairobi_day noon)
              (mkWorld completion_db None [] [] noon)) as [_ H]; [reflexivity|].
  rewrite H by reflexivity. reflexivity.
Defined.

(** ** When the catalog offers enough types *)

Lemma pass_types_covers limit existing types p w p' w' :
  w_faults w = [] ->
  pass_types limit existing types p w = (Ok p', w') ->
  used p ⊆ used p'
  /\ (full limit existing p' = true
      \/ forall typ, In typ types -> active_of_type typ (w_db w) <> [] -> typ ∈ used p').
Proof.
  revert p w. induction types as [|typ rest IH]; intros p w Hf; cbn [pass_types].
  { intros [= <- <-]. split; [done|]. right. by intros typ []. }
  destruct (full limit existing p) eqn:Hfull; [intros [= <- <-]; split; [done|by left]|].
  destruct (bool_decide (typ ∈ used p)) eqn:Hu.
  { apply bool_decide_eq_true in Hu. intros H. destruct (IH _ _ Hf H) as [Hsub Hcov].
    split; [done|]. destruct Hcov as [?|Hcov]; [by left|right].
    intros t [<-|Hin] Hne; [by apply Hsub|by apply Hcov]. }
  unfold bind at 1.
  destruct (query_random_facts (active_of_type typ) w)
    as (o & w1 & -> & (Hdb1 & _) & _ & Hin & Hnone & Hh).
  destruct (Hh Hf) as (Hf1 & r & -> & Hsome).
  destruct r as [row|].
  - intros H. destruct (IH _ _ Hf1 H) as [Hsub Hcov].
    destruct (active_of_type_active (w_db w) typ row) as [_ Ht]; [by apply Hin|].
    assert (typ ∈ used (pick row p)) as Htyp.
    { unfold pick. cbn [used]. rewrite Ht. by apply elem_of_union_l, elem_of_singleton. }
    split.
    + intros x Hx. apply Hsub. unfold pick. cbn [used]. by apply elem_of_union_r.
    + destruct Hcov as [?|Hcov]; [by left|right].
      intros t [<-|Hin'] Hne; [by apply Hsub|]. apply Hcov; [done|by rewrite Hdb1].
  - intros H. destruct (IH _ _ Hf1 H) as [Hsub Hcov].
    split; [done|]. destruct Hcov as [?|Hcov]; [by left|right].
    intros t [<-|Hin'] Hne.
    + exfalso. by destruct (Hsome Hne).
    + apply Hcov; [done|by rewrite Hdb1].
Qed.

Lemma fill_full fuel limit existing a p w :
  full limit existing p = true -> fill fuel limit existing a p w = (Ok p, w).
Proof. intros Hfull. destruct fuel; cbn [fill]; by rewrite Hfull. Qed.

Lemma same_id_same_task d t1 t2 :
  NoDup (List.map t_id (tasks d)) -> In t1 (tasks d) -> In t2 (tasks d) ->
  t_id t1 = t_id t2 -> t1 = t2.
Proof.
  generalize (tasks d). intros l. induction l as [|x l IH]; [done|]. simpl.
  intros [Hx Hnd]%NoDup_cons [->|H1] [->|H2] Hid; [done| | |by apply IH].
  - exfalso. apply Hx. rewrite Hid. by apply list_elem_of_In, in_map.
  - exfalso. apply Hx. rewrite <- Hid. by apply list_elem_of_In, in_map.
Qed.

Lemma no_task_of_absent_id (l : list task) k :
  k ∉ List.map t_id l -> List.filter (fun t => t_id t =? k) l = [].
Proof.
  induction l as [|x l IH]; [done|]. simpl. intros Hk.
  destruct (t_id x =? k) eqn:E.
  - apply Z.eqb_eq in E. exfalso. apply Hk. rewrite E. by left.
  - apply IH. intros Hin. apply Hk. by right.
Qed.

Lemma one_task_per_id d k :
  NoDup (List.map t_id (tasks d)) ->
  (length (List.filter (fun t => (t_id t =? k)%Z) (tasks d)) <= 1)%nat.
Proof.
  generalize (tasks d). intros l. induction l as [|x l IH]; [simpl; lia|]. simpl.
  intros [Hx Hnd]%NoDup_cons. destruct (t_id x =? k) eqn:E; [|by apply IH].
  apply Z.eqb_eq in E. simpl. rewrite no_task_of_absent_id; [simpl; lia|]. by rewrite <- E.
Qed.

Lemma length_remove_dups {A} `{EqDecision A} (l : list A) :
  (length (remove_dups l) <= length l)%nat.
Proof.
  induction l as [|x l IH]; [done|]. simpl. destruct (decide_rel elem_of x l); simpl; lia.
Qed.

Lemma existing_col_length col uid day d :
  NoDup (List.map t_id (tasks d)) ->
  (length (existing_col col uid day d) <= count_rows uid day d)%nat.
Proof.
  intros Hnd. unfold existing_col, count_rows.
  etransitivity; [apply length_remove_dups|].
  induction (rows_of uid day d) as [|r l IH]; [done|]. simpl.
  rewrite length_app, length_map. pose proof (one_task_per_id d (dt_task_id r) Hnd). lia.
Qed.

(** The picks of the first two passes are tasks of pairwise different
    types, none of a type the day already holds. *)
Lemma picked_apart_pick d (types0 : list jsstring) row p :
  In row (active_tasks d) -> t_type row ∉ used p ->
  picked_apart d types0 p -> picked_apart d types0 (pick row p).
Proof.
  intros Hin Hnew (rows & Hp & Hact & Hnd & Hout & Hused).
  exists (rows ++ [row]). unfold pick. cbn [picks used]. rewrite !List.map_app. cbn [List.map].
  split; [by rewrite Hp|]. split; [apply Forall_app; split; [done|by constructor]|].
  split; [|split].
  - apply NoDup_app. split; [done|]. split; [|apply NoDup_singleton].
    intros x Hx ->%list_elem_of_singleton. apply Hnew, Hused. by right.
  - apply Forall_app. split; [done|]. constructor; [|done].
    intros Hx. apply Hnew, Hused. by left.
  - intros x. rewrite elem_of_union, elem_of_singleton, Hused, elem_of_app, list_elem_of_singleton.
    tauto.
Qed.

Lemma store_picks_count uid day now ids d :
  has_user d uid = true -> Forall (fun tid => has_task d tid = true) ids ->
  NoDup ids -> Forall (fun tid => tid ∉ existing_ids uid day d) ids ->
  count_rows uid day (store_picks uid day now ids d)
  = (count_rows uid day d + length ids)%nat.
Proof.
  revert d. induction ids as [|tid ids IH]; intros d Hu Ht Hnd Hnew; simpl; [lia|].
  apply NoDup_cons in Hnd as [Htid Hnd].
  inversion Ht as [|? ? Ht1 Ht2]; subst. inversion Hnew as [|? ? Hn1 Hn2]; subst.
  unfold insert_daily.
  destruct (existsb _ (daily_tasks d)) eqn:Hex.
  { exfalso. apply existsb_exists in Hex as (r & Hr & Hm).
    apply andb_true_iff in Hm as [[H1 H2]%andb_true_iff H3%Z.eqb_eq].
    apply Hn1. unfold existing_ids, rows_of. rewrite <- H3.
    apply list_elem_of_In, in_map, filter_In. split; [done|]. by rewrite H1, H2. }
  rewrite Hu, Ht1. cbn [andb].
  set (d' := with_seqs _ _ _ _).
  assert (daily_tasks d' = daily_tasks d
            ++ [mkDaily (next_id (seq_daily_tasks d) (List.map dt_id (daily_tasks d)))
                        uid day tid now None None]) as Hd' by done.
  rewrite IH; try done.
  - rewrite (count_rows_snoc uid day d d' _ Hd'). cbn [dt_user_id day_key].
    rewrite !Z.eqb_refl. simpl. lia.
  - apply Forall_forall. intros x Hx. rewrite Forall_forall in Hn2.
    unfold existing_ids, rows_of. rewrite Hd', List.filter_app, List.map_app.
    cbn [List.filter dt_user_id day_key]. rewrite !Z.eqb_refl. cbn [andb List.map dt_task_id].
    intros [Hin| ->%list_elem_of_singleton]%elem_of_app; [by apply (Hn2 x)|done].
Qed.

Lemma NoDup_List_filter {A} (p : A -> bool) l : NoDup l -> NoDup (List.filter p l).
Proof.
  induction 1 as [|x l Hx Hnd IH]; simpl; [constructor|].
  destruct (p x); [|done]. constructor; [|done].
  intros Hin%list_elem_of_In%filter_In. apply Hx, list_elem_of_In, Hin.
Qed.

Lemma distinct_active_facts col d :
  NoDup (distinct_active col d)
  /\ forall x, In x (distinct_active col d) ->
       exists t, In t (active_tasks d) /\ col t = x.
Proof.
  unfold distinct_active. split.
  - apply NoDup_List_filter. rewrite merge_sort_Permutation. apply NoDup_remove_dups.
  - intros x [Hx _]%filter_In. apply list_elem_of_In in Hx.
    rewrite merge_sort_Permutation, elem_of_remove_dups in Hx.
    apply list_elem_of_In, in_map_iff in Hx as (t & <- & Ht). by exists t.
Qed.

Lemma picked_rows_fresh uid day d rows :
  NoDup (List.map t_id (tasks d)) ->
  Forall (fun t => In t (active_tasks d)) rows ->
  NoDup (List.map t_type rows) ->
  Forall (fun t => t_type t ∉ existing_col t_type uid day d) rows ->
  NoDup (List.map t_id rows)
  /\ Forall (fun tid => tid ∉ existing_ids uid day d) (List.map t_id rows)
  /\ Forall (fun tid => has_task d tid = true) (List.map t_id rows).
Proof.
  intros Hkey Hact Hnd Hnew. repeat split.
  - revert Hnd Hact. clear Hnew. induction rows as [|t rows IH]; [constructor|].
    cbn [List.map]. intros [Ht Hnd]%NoDup_cons Hact.
    inversion Hact as [|? ? Ha Hact']; subst.
    constructor; [|by apply IH].
    intros (t' & Hid & Ht')%list_elem_of_In%in_map_iff. apply Ht.
    rewrite Forall_forall in Hact'. pose proof (Hact' t' ltac:(by apply list_elem_of_In)) as Ha'.
    assert (t' = t) as ->.
    { apply (same_id_same_task d); [done|by apply active_tasks_tasks..|done]. }
    by apply list_elem_of_In, in_map.
  - apply Forall_forall. intros tid (t & <- & Ht)%list_elem_of_In%in_map_iff Hex.
    rewrite Forall_forall in Hnew, Hact.
    apply (Hnew t); [by apply list_elem_of_In|].
    pose proof (Hact t ltac:(by apply list_elem_of_In)) as Ha.
    unfold existing_ids in Hex. apply list_elem_of_In, in_map_iff in Hex as (r & Hr & Hin).
    unfold existing_col. apply elem_of_remove_dups, list_elem_of_In, in_flat_map.
    exists r. split; [done|]. apply in_map, filter_In.
    split; [by apply active_tasks_tasks|]. by rewrite Hr, Z.eqb_refl.
  - apply Forall_forall. intros tid (t & <- & Ht)%list_elem_of_In%in_map_iff.
    rewrite Forall_forall in Hact. pose proof (Hact t ltac:(by apply list_elem_of_In)) as Ha.
    unfold has_task. apply existsb_exists. exists t.
    split; [by apply active_tasks_tasks|apply Z.eqb_refl].
Qed.

Lemma store_picks_settings uid day now ids d :
  app_settings (store_picks uid day now ids d) = app_settings d.
Proof.
  revert d. induction ids as [|tid ids IH]; intros d; simpl; [done|].
  destruct (insert_daily uid day tid now d) as [[[] d']|] eqn:E; [|by apply IH].
  rewrite IH. by destruct (insert_daily_grown _ _ _ _ _ _ E) as (_ & _ & -> & _).
Qed.

Lemma ensure_fills d txn rnd now uid day fuel :
  NoDup (List.map t_id (tasks d)) ->
  has_user d uid = true ->
  Z.of_nat (count_rows uid day (cleaned d)) < setting_of d (js "tasks_per_day") 10 ->
  setting_of d (js "tasks_per_day") 10 <= Z.of_nat (length (distinct_active t_type d)) ->
  exists rows w',
    ensureDailyTasks fuel uid day (mkWorld d txn [] rnd now) = (Ok tt, w')
    /\ w_db w' = store_picks uid day now (List.map t_id rows) (cleaned d)
    /\ Forall (fun t => In t (active_tasks d)) rows
    /\ NoDup (List.map t_type rows)
    /\ Forall (fun t => t_type t ∉ existing_col t_type uid day (cleaned d)) rows
    /\ Z.of_nat (count_rows uid day (w_db w')) = setting_of d (js "tasks_per_day") 10.
Proof.
  intros Hkey Huser Hshort Henough.
  set (limit := setting_of d (js "tasks_per_day") 10) in *.
  unfold ensureDailyTasks, bind.
  do 4 healthy_step. fold (cleaned d).
  destruct (has_user_found (cleaned d) uid Huser) as [user Hfound]. rewrite Hfound.
  healthy_step. rewrite (setting_of_ext d (cleaned d)) by done. fold limit.
  healthy_step. rewrite existing_ids_length.
  destruct (limit <=? _) eqn:Hfull; [apply Z.leb_le in Hfull; lia|]. clear Hfull.
  do 4 healthy_step.
  set (w1 := set_db (cleaned d) _).
  set (catRows := distinct_active category (cleaned d)).
  destruct (shuffle_draws (length catRows - 1) catRows w1)
    as (categories & w2 & -> & ((Hdb2 & _ & Hnow2) & Hf2)).
  change (w_db w1) with (cleaned d) in Hdb2. change (w_now w1) with now in Hnow2.
  set (existing := existing_ids uid day (cleaned d)).
  set (types0 := existing_col t_type uid day (cleaned d)).
  set (p0 := mkPicker _ _ []).
  assert (picks_fit limit existing p0) as Hfit0.
  { unfold picks_fit. simpl. subst existing. rewrite existing_ids_length. lia. }
  assert (picked_apart (cleaned d) types0 p0) as HJ0.
  { exists []. repeat split; try done; [constructor|..].
    - intros Hx. left. by apply elem_of_list_to_set in Hx.
    - intros [Hx|Hx]; [by apply elem_of_list_to_set|by apply elem_of_nil in Hx]. }
  assert (forall row p, In row (active_tasks (cleaned d)) -> t_type row ∉ used p ->
            picked_apart (cleaned d) types0 p -> picked_apart (cleaned d) types0 (pick row p))
    as Jpick by (intros; by apply picked_apart_pick).
  destruct (pass_categories_facts limit existing categories p0 w2)
    as (o1 & w3 & E1 & ((Hdb3 & _ & Hnow3) & Hp1 & Hf3) & _ & Hret1). rewrite E1.
  destruct (Hret1 Hf2) as (p1 & ->). destruct (Hp1 p1 eq_refl) as [Hfit1 _].
  specialize (Hfit1 Hfit0). specialize (Hf3 Hf2). rewrite Hdb2 in Hdb3.
  pose proof (pass_categories_inv _ (cleaned d) Jpick _ _ _ _ _ _ _ Hdb2 E1 HJ0) as HJ1.
  destruct (pass_types_facts limit existing
              match distinct_active t_type (cleaned d) with
              | [] => FALLBACK_TYPES | _ :: _ => distinct_active t_type (cleaned d) end p1 w3)
    as (o2 & w4 & E2 & ((Hdb4 & _ & Hnow4) & Hp2 & Hf4) & _ & Hret2). rewrite E2.
  destruct (Hret2 Hf3) as (p2 & ->). destruct (Hp2 p2 eq_refl) as [Hfit2 _].
  specialize (Hfit2 Hfit1). specialize (Hf4 Hf3). rewrite Hdb3 in Hdb4.
  pose proof (pass_types_inv _ (cleaned d) Jpick _ _ _ _ _ _ _ Hdb3 E2 HJ1) as HJ2.
  destruct HJ2 as (rows & Hpicks & Hact & Hnd & Hnew & Hused).
  assert (full limit existing p2 = true) as Hfull2.
  { destruct (full limit existing p2) eqn:Hnot; [done|]. exfalso.
    destruct (pass_types_covers _ _ _ _ _ _ _ Hf3 E2) as [_ [Hc|Hcov]]; [congruence|].
    rewrite Hdb3 in Hcov.
    change (distinct_active t_type (cleaned d)) with (distinct_active t_type d) in Hcov.
    destruct (distinct_active_facts t_type d) as [Hndt Hall].
    assert (distinct_active t_type d ⊆+ types0 ++ List.map t_type rows) as Hsub.
    { apply NoDup_submseteq; [done|]. intros x Hx. apply elem_of_app, Hused.
      apply Hcov.
      - destruct (distinct_active t_type d); [by apply elem_of_nil in Hx|by apply list_elem_of_In].
      - apply list_elem_of_In, Hall in Hx as (t & Ht & <-).
        intros Hnil. assert (In t (active_of_type (t_type t) (cleaned d))) as Hin.
        { unfold active_of_type. apply filter_In. unfold active_tasks in Ht.
          apply filter_In in Ht as [Ht Ha]. split; [done|].
          rewrite Ha. by rewrite bool_decide_eq_true_2. }
        by rewrite Hnil in Hin. }
    apply submseteq_length in Hsub. rewrite length_app, length_map in Hsub.
    pose proof (existing_col_length t_type uid day (cleaned d) Hkey) as Hlen. fold types0 in Hlen.
    unfold picks_fit in Hfit2. rewrite Hpicks, length_map in Hfit2.
    subst existing. rewrite existing_ids_length in Hfit2.
    unfold full in Hnot. apply Z.leb_gt in Hnot.
    rewrite Hpicks, length_map, existing_ids_length in Hnot. lia. }
  rewrite fill_full by done.
  assert (Forall (fun t => In t (active_tasks d)) rows) as Hact' by exact Hact.
  destruct (picked_rows_fresh uid day (cleaned d) rows Hkey Hact Hnd Hnew)
    as (Hnd_ids & Hfresh & Hknown).
  unfold clock.
  destruct (insert_picks_healthy uid day (w_now w4) (picks p2) w4) as (w6 & -> & Hdb6).
  { done. }
  { by rewrite Hdb4. }
  { by rewrite Hdb4, Hpicks. }
  assert (w_db w6 = store_picks uid day now (List.map t_id rows) (cleaned d)) as Hfinal.
  { rewrite Hdb6, Hdb4, Hpicks, Hnow4, Hnow3, Hnow2. done. }
  assert (Z.of_nat (count_rows uid day (w_db w6)) = limit) as Hcount.
  { rewrite Hfinal, store_picks_count by done.
    unfold full in Hfull2. apply Z.leb_le in Hfull2. unfold picks_fit in Hfit2.
    rewrite Hpicks in Hfull2, Hfit2. subst existing.
    rewrite existing_ids_length, length_map in *. lia. }
  by exists rows, w6.
Qed.

(** X14: when the catalog holds at least as many different active types as
    the daily limit, the allocation does what it is meant to do on a
    store that answers: a user below the limit ends with exactly the
    limit of rows, the added tasks are active, of pairwise different
    types and of no type the day already had, the last loop is never
    entered, and a further call changes nothing. *)
Theorem ensureDailyTasks_fills_the_day d txn rnd now uid day fuel :
  NoDup (List.map t_id (tasks d)) ->
  has_user d uid = true ->
  Z.of_nat (count_rows uid day (cleaned d)) < setting_of d (js "tasks_per_day") 10 ->
  setting_of d (js "tasks_per_day") 10 <= Z.of_nat (length (distinct_active t_type d)) ->
  exists rows w',
    ensureDailyTasks fuel uid day (mkWorld d txn [] rnd now) = (Ok tt, w')
    /\ w_db w' = store_picks uid day now (List.map t_id rows) (cleaned d)
    /\ Forall (fun t => In t (active_tasks d)) rows
    /\ NoDup (List.map t_type rows)
    /\ Forall (fun t => t_type t ∉ existing_col t_type uid day (cleaned d)) rows
    /\ Z.of_nat (count_rows uid day (w_db w')) = setting_of d (js "tasks_per_day") 10
    /\ forall fuel' txn' rnd' now',
         ensureDailyTasks fuel' uid day (mkWorld (w_db w') txn' [] rnd' now')
         = (Ok tt, mkWorld (w_db w') txn' [] rnd' now').
Proof.
  intros Hkey Huser Hshort Henough.
  destruct (ensure_fills d txn rnd now uid day fuel Hkey Huser Hshort Henough)
    as (rows & w' & E & Hdb & Hact & Hnd & Hnew & Hcount).
  exists rows, w'. repeat split; try done.
  intros fuel' txn' rnd' now'. apply ensure_full_is_noop.
  - rewrite Hdb. apply store_picks_no_orphans, cleaned_no_orphans.
  - rewrite Hcount. rewrite (setting_of_ext d (w_db w')); [lia|].
    by rewrite Hdb, store_picks_settings.
Qed.

Lemma ensureDailyTasks_fills_the_day_witness :
  exists rows w',
    ensureDailyTasks 0 1 (nairobi_day noon) (mkWorld trio_db None [] [] noon) = (Ok tt, w')
    /\ w_db w' = store_picks 1 (nairobi_day noon) noon (List.map t_id rows) (cleaned trio_db)
    /\ NoDup (List.map t_type rows)
    /\ Z.of_nat (count_rows 1 (nairobi_day noon) (w_db w')) = 3.
Proof.
  destruct (ensureDailyTasks_fills_the_day trio_db None [] noon 1 (nairobi_day noon) 0)
    as (rows & w' & H1 & H2 & _ & H4 & _ & H6 & _).
  - apply (bool_decide_unpack _). by vm_compute.
  - reflexivity.
  - by vm_compute.
  - by vm_compute.
  - exists rows, w'. split; [exact H1|split; [exact H2|split; [exact H4|exact H6]]].
Defined.

(** X15: a day that already holds the limit of rows is left alone: on a
    store without orphan rows that answers, the allocation returns at
    once, writes nothing and draws nothing. *)
Theorem ensureDailyTasks_leaves_a_full_day_alone d txn rnd now uid day fuel :
  no_orphans d ->
  setting_of d (js "tasks_per_day") 10 <= Z.of_nat (count_rows uid day d) ->
  ensureDailyTasks fuel uid day (mkWorld d txn [] rnd now) = (Ok tt, mkWorld d txn [] rnd now).
Proof. apply ensure_full_is_noop. Qed.

Lemma ensureDailyTasks_leaves_a_full_day_alone_witness :
  let d := w_db (snd (ensureDailyTasks 0 1 (nairobi_day noon)
                        (mkWorld trio_db None [] [] noon))) in
  ensureDailyTasks 0 1 (nairobi_day noon) (mkWorld d None [] [7; 7]%nat noon)
  = (Ok tt, mkWorld d None [] [7; 7]%nat noon).
Proof.
  intros d.
  refine (ensureDailyTasks_leaves_a_full_day_alone d None [7; 7]%nat noon 1
            (nairobi_day noon) 0 _ _).
  - vm_compute. repeat constructor.
  - by vm_compute.
Defined.

(** ** The shape of a normalised text *)

Section NormalizeShape.

Variable toLowerCase : jsstring -> jsstring.

Hypothesis lower_nil : toLowerCase [] = [].
Hypothesis lower_space :
  forall a b, toLowerCase (a ++ SP :: b) = toLowerCase a ++ SP :: toLowerCase b.
Hypothesis lower_nonempty : forall s, s <> [] -> toLowerCase s <> [].
Hypothesis lower_plain : forall s, Forall plain s -> Forall plain (toLowerCase s).

(** X16: whatever it is given, [normalize] returns words separated by single
    spaces: no whitespace but single spaces between words, none at
    either end, and no curly double quote nor U+2019. *)
Theorem normalize_gives_neat_text s : neat (normalize toLowerCase s).
Proof. unfold normalize. apply lower_neat; try done. apply tidy_neat. Qed.

End NormalizeShape.

Lemma normalize_gives_neat_text_witness :
  neat (normalize toLowerCase_latin ([9%N] ++ js "He said " ++ [LDQUO] ++ js "Hi" ++ [RDQUO; 13%N; 10%N]))
  /\ normalize toLowerCase_latin ([9%N] ++ js "He said " ++ [LDQUO] ++ js "Hi" ++ [RDQUO; 13%N; 10%N])
     = js "he said " ++ [QUOT] ++ js "hi" ++ [QUOT].
Proof.
  split; [|by vm_compute].
  apply (normalize_gives_neat_text toLowerCase_latin toLowerCase_latin_nil
           toLowerCase_latin_space toLowerCase_latin_nonempty toLowerCase_latin_plain).
Defined.

(** ** Completion on the main server is all or nothing *)

(** X17: whatever the request and whatever the storage layer rejects, the
    tables a crash or another connection would find after a completion
    on the main server are those before the call, or those with the
    three writes done: the assignment stamped, the completion appended
    and the balance credited. *)
Theorem complete_commits_all_or_nothing req w :
  committed (snd (complete req w)) = committed w
  \/ exists dt task,
       assigned_row (cr_user req) (nairobi_day (w_now w)) (cr_id req) (w_db w) = Some dt
       /\ active_task (cr_id req) (w_db w) = Some task
       /\ completion_of (cr_user req) (cr_id req) (dt_id dt) (reward_ksh task)
            (w_now w) (answer_of req) (committed w)
          = Some (committed (snd (complete req w))).
Proof. apply complete_all_or_nothing. Qed.

(** ** Reading integers back *)

Lemma digit_of_mod n : 0 <= n -> digit_val (48 + Z.to_N (n mod 10)) = Some (n mod 10).
Proof.
  intros Hn. unfold digit_val. pose proof (Z.mod_pos_bound n 10 ltac:(lia)).
  assert ((48 <=? 48 + Z.to_N (n mod 10))%N && (48 + Z.to_N (n mod 10) <=? 57)%N = true) as ->.
  { apply andb_true_iff. split; apply N.leb_le; lia. }
  f_equal. lia.
Qed.

Lemma digits_of_S fuel n tail :
  digits_of (S fuel) n tail
  = if n <? 10 then (48 + Z.to_N (n mod 10))%N :: tail
    else digits_of fuel (n / 10) ((48 + Z.to_N (n mod 10))%N :: tail).
Proof. done. Qed.

Lemma digits_of_app fuel n tail : digits_of fuel n tail = digits_of fuel n [] ++ tail.
Proof.
  revert n tail. induction fuel as [|fuel IH]; intros n tail; [done|].
  rewrite !digits_of_S. destruct (n <? 10); [done|].
  rewrite (IH _ (_ :: tail)), (IH _ [_]). by rewrite <- app_assoc.
Qed.

Lemma digits_prefix_digits_of fuel n tail :
  0 <= n < 10 ^ Z.of_nat (S fuel) ->
  exists k, (0 <= k) /\ forall acc,
    digits_prefix (digits_of (S fuel) n tail) acc
    = digits_prefix tail (Some (default 0 acc * 10 ^ k + n)).
Proof.
  revert n tail. induction fuel as [|fuel IH]; intros n tail Hn.
  - change (10 ^ Z.of_nat 1) with 10 in Hn.
    exists 1. split; [lia|]. intros acc. rewrite digits_of_S.
    assert ((n <? 10) = true) as -> by (apply Z.ltb_lt; lia).
    cbn [digits_prefix]. rewrite digit_of_mod by lia.
    do 2 f_equal. rewrite Z.mod_small by lia. lia.
  - rewrite digits_of_S. destruct (n <? 10) eqn:E.
    + apply Z.ltb_lt in E. exists 1. split; [lia|]. intros acc. cbn [digits_prefix].
      rewrite digit_of_mod by lia. do 2 f_equal. rewrite Z.mod_small by lia. lia.
    + apply Z.ltb_ge in E.
      destruct (IH (n / 10) ((48 + Z.to_N (n mod 10))%N :: tail)) as (k & Hk0 & Hk).
      { split; [apply Z.div_pos; lia|]. apply Z.div_lt_upper_bound; [lia|].
        rewrite (Nat2Z.inj_succ (S fuel)), Z.pow_succ_r in Hn by lia. lia. }
      exists (k + 1). split; [lia|]. intros acc. rewrite Hk.
      cbn [digits_prefix]. rewrite digit_of_mod by lia. cbn [default].
      do 2 f_equal. rewrite Z.pow_add_r, Z.pow_1_r by lia.
      unfold id. generalize (default 0 acc) (10 ^ k). intros a P.
      pose proof (Z.div_mod n 10 ltac:(lia)). lia.
Qed.

Lemma enough_fuel n : 0 <= n -> n < 10 ^ Z.of_nat (S (Z.to_nat (Z.log2 n))).
Proof.
  intros Hn. rewrite Nat2Z.inj_succ, Z2Nat.id by apply Z.log2_nonneg.
  destruct (decide (n = 0)) as [->|Hne]; [done|].
  destruct (Z.log2_spec n ltac:(lia)) as [_ Hlt].
  eapply Z.lt_le_trans; [exact Hlt|]. apply Z.pow_le_mono_l. lia.
Qed.

Lemma digits_of_head fuel n tail :
  0 <= n ->
  exists c r, digits_of (S fuel) n tail = c :: r /\ digit_val c <> None.
Proof.
  revert n tail. induction fuel as [|fuel IH]; intros n tail Hn; rewrite digits_of_S.
  - destruct (n <? 10); do 2 eexists; (split; [done|]); by rewrite digit_of_mod.
  - destruct (n <? 10) eqn:E.
    + do 2 eexists. split; [done|]. by rewrite digit_of_mod.
    + apply (IH (n / 10)). apply Z.div_pos; lia.
Qed.

Lemma digit_not_ws c : digit_val c <> None -> is_ws c = false /\ c <> 45%N /\ c <> 43%N.
Proof.
  unfold digit_val. destruct (_ && _) eqn:E; [|done]. intros _.
  apply andb_true_iff in E as [H1%N.leb_le H2%N.leb_le].
  repeat split; try lia. unfold is_ws.
  repeat (apply orb_false_iff; split); try (apply N.eqb_neq; lia);
    apply andb_false_iff; first [left; apply N.leb_gt; lia | right; apply N.leb_gt; lia].
Qed.

Lemma drop_ws_run ws s :
  Forall (fun c => is_ws c = true) ws -> drop_ws (ws ++ s) = drop_ws s.
Proof. induction 1 as [|c ws Hc _ IH]; [done|]. simpl. by rewrite Hc. Qed.

Lemma digits_prefix_stops tail acc :
  (forall c r, tail = c :: r -> digit_val c = None) -> digits_prefix tail acc = acc.
Proof. destruct tail as [|c r]; [done|]. intros H. simpl. by rewrite (H c r). Qed.

Lemma parseInt_leading ws z tail :
  Forall (fun c => is_ws c = true) ws ->
  (forall c r, tail = c :: r -> digit_val c = None) ->
  parseInt (ws ++ js_String z ++ tail) = Some z.
Proof.
  intros Hws Htail. unfold parseInt. rewrite drop_ws_run by done.
  unfold js_String.
  set (fuel := Z.to_nat (Z.log2 (Z.abs z))).
  destruct (digits_of_head fuel (Z.abs z) [] ltac:(lia)) as (c & r & Hd & Hc).
  destruct (digit_not_ws c Hc) as (Hws' & H45 & H43).
  destruct (digits_prefix_digits_of fuel (Z.abs z) tail) as (k & _ & Hk).
  { split; [lia|]. apply enough_fuel. lia. }
  pose proof (Hk None) as Hval. cbn [default] in Hval.
  rewrite Z.mul_0_l, Z.add_0_l in Hval. rewrite (digits_prefix_stops tail _ Htail) in Hval.
  rewrite digits_of_app in Hval.
  destruct (z <? 0) eqn:Hneg.
  - apply Z.ltb_lt in Hneg. cbn [app drop_ws]. change (is_ws 45) with false. cbv iota.
    rewrite N.eqb_refl. cbn [fst snd]. rewrite Hval. f_equal. lia.
  - apply Z.ltb_ge in Hneg. rewrite Hd in *. cbn [app drop_ws]. rewrite Hws'.
    apply N.eqb_neq in H45, H43. rewrite H45, H43. cbn [fst snd].
    cbn [app] in Hval. rewrite Hval. f_equal. lia.
Qed.

(** [parseInt] reads the integer a text starts with: after any leading
    whitespace, the decimal digits of an integer, with its minus sign if
    it is negative, followed by anything that does not begin with a
    digit, give that integer; in particular it reads back what
    [String] wrote. A text whose first character after the whitespace is
    neither a sign nor a digit gives NaN, and so does the empty text. *)
Lemma parseInt_reads_the_leading_integer :
  (forall ws z tail,
     Forall (fun c => is_ws c = true) ws ->
     (forall c r, tail = c :: r -> digit_val c = None) ->
     parseInt (ws ++ js_String z ++ tail) = Some z)
  /\ (forall ws c r,
        Forall (fun c => is_ws c = true) ws ->
        is_ws c = false -> c <> 45%N -> c <> 43%N -> digit_val c = None ->
        parseInt (ws ++ c :: r) = None)
  /\ parseInt [] = None.
Proof.
  split; [apply parseInt_leading|split; [|done]].
  intros ws c r Hws Hc H45 H43 Hd. unfold parseInt. rewrite drop_ws_run by done.
  cbn [drop_ws]. rewrite Hc. apply N.eqb_neq in H45, H43. rewrite H45, H43.
  cbn [fst snd digits_prefix]. by rewrite Hd.
Qed.

Lemma parseInt_reads_the_leading_integer_witness :
  js_String (-42) = js "-42"
  /\ parseInt (js "  " ++ js_String (-42) ++ js "px") = Some (-42).
Proof.
  split; [by vm_compute|].
  destruct parseInt_reads_the_leading_integer as [H _].
  apply H; [by repeat constructor|]. by intros c r [= <- <-].
Defined.

(** ** The settings form of the administrator *)

Lemma optional_int_spec key lo hi fields v :
  optional_int key lo hi fields = Some (Some v) -> lo <= v <= hi.
Proof.
  unfold optional_int. destruct (field_of key fields) as [[]|]; try done.
  destruct (num_int n); [|done]. destruct (_ && _) eqn:E; [|done].
  intros [= <-]. apply andb_true_iff in E as [?%Z.leb_le ?%Z.leb_le]. lia.
Qed.

Lemma parse_settings_spec body updates :
  parse_settings body = Some updates ->
  NoDup (List.map fst updates) /\ Forall within_schema updates.
Proof.
  unfold parse_settings. destruct (default (JObj []) body); try done.
  destruct (optional_int (js "tasks_per_day") 1 50 fields) as [a|] eqn:Ha; [|done].
  destruct (optional_int (js "referral_bonus_ksh") 0 1000000 fields) as [b|] eqn:Hb; [|done].
  destruct (optional_int (js "min_withdraw_ksh") 0 1000000 fields) as [c|] eqn:Hc; [|done].
  intros [= <-]. split.
  - destruct a, b, c; cbn [given app List.map fst]; apply (bool_decide_unpack _); by vm_compute.
  - repeat apply Forall_app_2.
    + destruct a as [v|]; [|constructor]. constructor; [|constructor]. left.
      split; [done|]. by apply (optional_int_spec _ _ _ _ _ Ha).
    + destruct b as [v|]; [|constructor]. constructor; [|constructor]. right. left.
      split; [done|]. by apply (optional_int_spec _ _ _ _ _ Hb).
    + destruct c as [v|]; [|constructor]. constructor; [|constructor]. right. right.
      split; [done|]. by apply (optional_int_spec _ _ _ _ _ Hc).
Qed.

Lemma upserted_other m updates k :
  k ∉ List.map fst updates -> upserted m updates !! k = m !! k.
Proof.
  revert m. induction updates as [|[k' v'] updates IH]; intros m Hk; [done|].
  cbn [upserted fold_left fst snd]. fold (upserted (<[k' := js_String v']> m) updates).
  rewrite IH; [|intros Hin; apply Hk; by right].
  apply lookup_insert_ne. intros ->. apply Hk. by left.
Qed.

Lemma upserted_lookup m updates k v :
  NoDup (List.map fst updates) -> In (k, v) updates ->
  upserted m updates !! k = Some (js_String v).
Proof.
  revert m. induction updates as [|[k' v'] updates IH]; intros m Hnd Hin; [done|].
  cbn [List.map fst] in Hnd. apply NoDup_cons in Hnd as [Hk' Hnd].
  cbn [upserted fold_left fst snd]. fold (upserted (<[k' := js_String v']> m) updates).
  destruct Hin as [[= -> ->]|Hin]; [|by apply IH].
  rewrite upserted_other by done. apply lookup_insert_eq.
Qed.

Lemma setting_of_written d k v fallback :
  app_settings d !! k = Some (js_String v) -> Z.abs v < 2 ^ 1024 ->
  setting_of d k fallback = v.
Proof.
  intros Hk Hv. unfold setting_of. rewrite Hk.
  change (default [] (Some (js_String v))) with (js_String v).
  pose proof (parseInt_leading [] v [] ltac:(constructor) ltac:(done)) as Hp.
  cbn [app] in Hp. rewrite app_nil_r in Hp. rewrite Hp.
  unfold isFinite. apply Z.ltb_lt in Hv. by rewrite Hv.
Qed.

Lemma audit_null_facts adminId act ent w :
  exists w', audit_null adminId act ent w = (Ok tt, w')
    /\ w_txn w' = w_txn w /\ app_settings (w_db w') = app_settings (w_db w).
Proof.
  unfold audit_null, try_catch.
  destruct (run_cases (fun d => Some (tt, with_admin_audit
              (fun l => l ++ [mkAudit adminId act ent None]) d)) w)
    as (w0 & (Hdb0 & Htx0 & Hnow0) & [->|[[[=] _]|([] & d & [= <-] & ->)]]).
  - exists w0. split; [done|]. split; [done|]. by rewrite Hdb0.
  - eexists. split; [done|]. cbn [w_txn w_db set_db]. by split.
Qed.

Lemma audit_null_healthy adminId act ent w :
  w_faults w = [] ->
  audit_null adminId act ent w
  = (Ok tt, set_db (with_admin_audit (fun l => l ++ [mkAudit adminId act ent None]) (w_db w)) w).
Proof. intros Hf. unfold audit_null, try_catch. by rewrite run_healthy. Qed.

Lemma upserts_in_txn updates w d0 :
  w_txn w = Some d0 ->
  exists o w', (upsert_all updates ;;; run_commit) w = (o, w')
    /\ ((o = Ok tt /\ w_txn w' = None
         /\ app_settings (w_db w') = upserted (app_settings (w_db w)) updates)
        \/ ((exists e, o = Throw e) /\ w_txn w' = Some d0)).
Proof.
  revert w. induction updates as [|[k v] updates IH]; intros w Ht.
  - cbn [upsert_all]. unfold bind, ret.
    destruct (commit_in_txn w d0 Ht) as (w' & Hdb & [(e & -> & Ht')|[-> Ht']]).
    + do 2 eexists. split; [done|]. right. split; [by eexists|done].
    + do 2 eexists. split; [done|]. left. by rewrite Hdb.
  - cbn [upsert_all]. unfold bind at 1 2.
    destruct (run_in_txn (upsert_setting k (js_String v)) w d0 Ht)
      as (w1 & Ht1 & [[e ->]|([] & [= Hd1] & ->)]).
    { do 2 eexists. split; [done|]. right. split; [by eexists|done]. }
    destruct (IH w1 Ht1) as (o & w' & E & Hcase). unfold bind in E. rewrite E.
    do 2 eexists. split; [done|].
    destruct Hcase as [(-> & Ht' & Hs)|Hcase]; [left|by right].
    repeat split; try done. rewrite Hs, <- Hd1. done.
Qed.

Lemma settings_updated adminId body w :
  exists o w', admin_update_settings adminId body w = (o, w')
    /\ (app_settings (committed w') = app_settings (committed w)
        \/ exists updates,
             parse_settings body = Some updates
             /\ NoDup (List.map fst updates) /\ Forall within_schema updates
             /\ app_settings (committed w') = upserted (app_settings (committed w)) updates).
Proof.
  unfold admin_update_settings, try_catch at 1.
  destruct (parse_settings body) as [updates|] eqn:Hparse.
  2: { do 2 eexists. split; [done|]. by left. }
  destruct (parse_settings_spec _ _ Hparse) as [Hnd Hin].
  unfold bind at 1.
  destruct (begin_cases w) as (w1 & Hs & [[e ->]|[Hnone ->]]).
  { do 2 eexists. split; [done|]. left. by rewrite (same_store_committed _ _ Hs). }
  assert (committed w = w_db w) as Hcw by (unfold committed; by rewrite Hnone).
  destruct Hs as (Hdb1 & _).
  unfold bind at 1, try_catch at 1.
  destruct (upserts_in_txn updates (set_txn (Some (w_db w)) w1) (w_db w) eq_refl)
    as (o & w2 & -> & [(-> & Ht2 & Hset)|[[e ->] Ht2]]).
  - cbn [w_db set_txn] in Hset. rewrite Hdb1 in Hset.
    unfold bind at 1.
    destruct (audit_null_facts adminId "update" "app_settings" w2) as (w3 & -> & Ht3 & Hs3).
    assert (forall w4, same_store w3 w4 ->
              app_settings (committed w4) = upserted (app_settings (committed w)) updates) as Hend.
    { intros w4 (Hdb4 & Ht4 & _). unfold committed at 1. rewrite Ht4, Ht3, Ht2, Hdb4, Hs3, Hset.
      by rewrite Hcw. }
    unfold bind.
    destruct (query_cases settings_rows w3) as [(w4 & -> & Hs4)|(w4 & -> & Hs4)];
      (do 2 eexists; split; [done|]; right; exists updates; repeat split; try done;
       by apply Hend).
  - unfold bind at 1.
    destruct (rollback_in_txn w2 (w_db w) Ht2) as (o & w3 & -> & Hc & Hspin).
    destruct o as [[]|e'|]; [| |done]; (do 2 eexists; split; [done|]; left; congruence).
Qed.

(** X18: the form of the administrator is all or nothing, whatever the
    storage layer does: the stored settings stay as they were, or every
    entry of the body is written; the entries are among tasks_per_day
    (1 to 50), referral_bonus_ksh and min_withdraw_ksh (0 to 1000000),
    each at most once. *)
Theorem admin_update_settings_all_or_nothing adminId body w :
  let w' := snd (admin_update_settings adminId body w) in
  app_settings (committed w') = app_settings (committed w)
  \/ exists updates,
       parse_settings body = Some updates
       /\ NoDup (List.map fst updates) /\ Forall within_schema updates
       /\ app_settings (committed w') = upserted (app_settings (committed w)) updates.
Proof.
  intros w'. subst w'.
  by destruct (settings_updated adminId body w) as (o & w' & -> & H).
Qed.

Lemma setting_of_lookup d d' k fallback :
  app_settings d' !! k = app_settings d !! k -> setting_of d' k fallback = setting_of d k fallback.
Proof. unfold setting_of. by intros ->. Qed.

Lemma setting_after adminId body w k fallback :
  let w' := snd (admin_update_settings adminId body w) in
  setting_of (committed w') k fallback = setting_of (committed w) k fallback
  \/ exists v, within_schema (k, v) /\ setting_of (committed w') k fallback = v.
Proof.
  intros w'. subst w'.
  destruct (settings_updated adminId body w) as (o & w' & -> & [H|(updates & _ & Hnd & Hin & H)]);
    cbn [snd].
  { left. apply setting_of_lookup. by rewrite H. }
  destruct (decide (k ∈ List.map fst updates)) as [Hk|Hk].
  - right. apply list_elem_of_In, in_map_iff in Hk as ([k' v] & <- & Hkv).
    exists v. rewrite Forall_forall in Hin.
    pose proof (Hin (k', v) ltac:(by apply list_elem_of_In)) as Hs. split; [done|].
    apply setting_of_written.
    + rewrite H. by apply upserted_lookup.
    + assert (Z.abs v <= 1000000) as Hv by (destruct Hs as [[_ ?]|[[_ ?]|[_ ?]]]; cbn [snd] in *; lia).
      eapply Z.le_lt_trans; [exact Hv|]. by vm_compute.
  - left. apply setting_of_lookup. rewrite H. by apply upserted_other.
Qed.

(** X19: no call of the form can take the stored settings out of their
    ranges, whatever the body and whatever the storage layer does: a
    daily limit within 1 to 50 stays there, and a referral bonus or a
    minimal withdrawal that is not negative stays so. *)
Theorem admin_update_settings_keeps_the_ranges adminId body w :
  let w' := snd (admin_update_settings adminId body w) in
  (1 <= setting_of (committed w) (js "tasks_per_day") 10 <= 50 ->
   1 <= setting_of (committed w') (js "tasks_per_day") 10 <= 50)
  /\ (0 <= setting_of (committed w) (js "referral_bonus_ksh") 100 ->
      0 <= setting_of (committed w') (js "referral_bonus_ksh") 100)
  /\ (0 <= setting_of (committed w) (js "min_withdraw_ksh") 200 ->
      0 <= setting_of (committed w') (js "min_withdraw_ksh") 200).
Proof.
  intros w'. subst w'. split; [|split]; intros Hbefore.
  - destruct (setting_after adminId body w (js "tasks_per_day") 10)
      as [->|(v & [[_ Hv]|[[[=] _]|[[=] _]]] & ->)]; cbn [snd] in *; lia.
  - destruct (setting_after adminId body w (js "referral_bonus_ksh") 100)
      as [->|(v & [[[=] _]|[[_ Hv]|[[=] _]]] & ->)]; cbn [snd] in *; lia.
  - destruct (setting_after adminId body w (js "min_withdraw_ksh") 200)
      as [->|(v & [[[=] _]|[[[=] _]|[_ Hv]]] & ->)]; cbn [snd] in *; lia.
Qed.

Lemma admin_update_settings_keeps_the_ranges_witness :
  let body := Some (JObj [(js "tasks_per_day", JNum (JsFin (inject_Z 20)));
                          (js "referral_bonus_ksh", JNum (JsFin (inject_Z (-5))))]) in
  let w := mkWorld (wallet_db 0 0 ∅) None [] [] noon in
  1 <= setting_of (committed (snd (admin_update_settings 1 body w))) (js "tasks_per_day") 10 <= 50
  /\ 0 <= setting_of (committed (snd (admin_update_settings 1 body w))) (js "referral_bonus_ksh") 100.
Proof.
  intros body w.
  destruct (admin_update_settings_keeps_the_ranges 1 body w) as (H1 & H2 & _).
  split; [apply H1|apply H2]; by vm_compute.
Defined.

Lemma begin_healthy w :
  w_faults w = [] -> w_txn w = None -> run_begin w = (Ok tt, set_txn (Some (w_db w)) w).
Proof. intros Hf Ht. unfold run_begin, bind. rewrite tick_healthy by done. by rewrite Ht. Qed.

Lemma commit_healthy w d0 :
  w_faults w = [] -> w_txn w = Some d0 -> run_commit w = (Ok tt, set_txn None w).
Proof. intros Hf Ht. unfold run_commit, bind. rewrite tick_healthy by done. by rewrite Ht. Qed.

Lemma upsert_all_healthy updates w :
  w_faults w = [] ->
  exists w', upsert_all updates w = (Ok tt, w')
    /\ w_faults w' = [] /\ w_txn w' = w_txn w /\ w_now w' = w_now w /\ w_random w' = w_random w
    /\ w_db w' = with_app_settings (fun m => upserted m updates) (w_db w).
Proof.
  revert w. induction updates as [|[k v] updates IH]; intros w Hf.
  - exists w. do 5 (split; [done|]). by destruct (w_db w).
  - cbn [upsert_all]. unfold bind. rewrite run_healthy by done. cbn [upsert_setting].
    destruct (IH (set_db (with_app_settings <[k:=js_String v]> (w_db w)) w) Hf)
      as (w' & -> & Hf' & Ht' & Hn' & Hr' & Hdb').
    exists w'. do 5 (split; [done|]). by rewrite Hdb'.
Qed.

(** X20: what the administrator writes is what the server reads: once the
    form has answered on a store that answers, [getIntSetting] returns
    each written value, whatever fallback it is given, and the settings
    the form did not name read as before. *)
Theorem admin_setting_is_read_back adminId body updates d rnd now :
  parse_settings body = Some updates ->
  let w := mkWorld d None [] rnd now in
  exists w',
    admin_update_settings adminId body w
    = (Ok (mkReply 200 (VSettings (settings_rows (w_db w')))), w')
    /\ w_faults w' = []
    /\ (forall k v fallback, In (k, v) updates -> getIntSetting k fallback w' = (Ok v, w'))
    /\ (forall k fallback, k ∉ List.map fst updates ->
          getIntSetting k fallback w' = (Ok (setting_of d k fallback), w')).
Proof.
  intros Hparse w. destruct (parse_settings_spec _ _ Hparse) as [Hnd Hin].
  unfold admin_update_settings, try_catch at 1. rewrite Hparse.
  unfold bind at 1. rewrite begin_healthy by done.
  unfold bind at 1, try_catch at 1. unfold bind at 1.
  destruct (upsert_all_healthy updates (set_txn (Some (w_db w)) w) eq_refl)
    as (w1 & -> & Hf1 & Ht1 & Hn1 & Hr1 & Hdb1).
  rewrite (commit_healthy w1 (w_db w)) by done.
  unfold bind at 1. rewrite audit_null_healthy by done.
  unfold bind at 1. rewrite query_healthy by done. cbn [ret].
  eexists. split; [done|]. wsimpl. split; [done|].
  assert (forall k, app_settings (with_admin_audit
            (fun l => l ++ [mkAudit adminId "update" "app_settings" None]) (w_db w1)) !! k
          = upserted (app_settings d) updates !! k) as Hlook by (intros k; by rewrite Hdb1).
  split.
  - intros k v fallback Hkv. rewrite setting_healthy by done. wsimpl. do 2 f_equal.
    apply setting_of_written.
    + rewrite Hlook. by apply upserted_lookup.
    + rewrite Forall_forall in Hin.
      pose proof (Hin (k, v) ltac:(by apply list_elem_of_In)) as Hs.
      assert (Z.abs v <= 1000000) as Hv
        by (destruct Hs as [[_ ?]|[[_ ?]|[_ ?]]]; cbn [snd] in *; lia).
      eapply Z.le_lt_trans; [exact Hv|]. by vm_compute.
  - intros k fallback Hk. rewrite setting_healthy by done. wsimpl. do 2 f_equal.
    apply setting_of_lookup. rewrite Hlook. by apply upserted_other.
Qed.

Lemma admin_setting_is_read_back_witness :
  let body := Some (JObj [(js "tasks_per_day", JNum (JsFin (inject_Z 20)))]) in
  exists w',
    admin_update_settings 1 body (mkWorld (wallet_db 0 0 ∅) None [] [] noon)
    = (Ok (mkReply 200 (VSettings (settings_rows (w_db w')))), w')
    /\ getIntSetting (js "tasks_per_day") 10 w' = (Ok 20, w').
Proof.
  intros body.
  destruct (admin_setting_is_read_back 1 body [(js "tasks_per_day", 20)]
              (wallet_db 0 0 ∅) [] noon) as (w' & H1 & _ & H3 & _); [by vm_compute|].
  exists w'. split; [done|]. apply H3. by left.
Defined.

(** ** Missing and unreadable settings *)

(** X21: a setting that is missing, or whose text does not start with an
    integer, reads as the fallback of the caller: on a store that
    answers [getIntSetting] returns the fallback, and whatever the
    storage layer does it returns the fallback or rejects, leaving the
    store as it was. *)
Theorem getIntSetting_falls_back key fallback w :
  app_settings (w_db w) !! key = None
  \/ (exists text, app_settings (w_db w) !! key = Some text /\ parseInt text = None) ->
  (w_faults w = [] -> getIntSetting key fallback w = (Ok fallback, w))
  /\ exists o w', getIntSetting key fallback w = (o, w') /\ same_store w w'
       /\ (o = Ok fallback \/ o = Throw SqliteFault).
Proof.
  intros Hkey.
  assert (setting_of (w_db w) key fallback = fallback) as Hval.
  { destruct Hkey as [Hnone|(text & Hsome & Hnan)]; [by apply setting_default|].
    unfold setting_of. rewrite Hsome. change (default [] (Some text)) with text.
    by rewrite Hnan. }
  split.
  - intros Hf. rewrite setting_healthy by done. by rewrite Hval.
  - destruct (setting_cases key fallback w) as [(w' & -> & Hs)|(w' & -> & Hs)].
    + do 2 eexists. split; [done|]. split; [done|]. by right.
    + do 2 eexists. split; [done|]. split; [done|]. left. by rewrite Hval.
Qed.

Lemma getIntSetting_falls_back_witness :
  getIntSetting (js "tasks_per_day") 10
    (mkWorld (wallet_db 0 0 {[ js "tasks_per_day" := js "ten" ]}) None [] [] noon)
  = (Ok 10, mkWorld (wallet_db 0 0 {[ js "tasks_per_day" := js "ten" ]}) None [] [] noon).
Proof.
  destruct (getIntSetting_falls_back (js "tasks_per_day") 10
              (mkWorld (wallet_db 0 0 {[ js "tasks_per_day" := js "ten" ]}) None [] [] noon))
    as [H _]; [|by apply H].
  right. exists (js "ten"). by vm_compute.
Defined.

(** ** The seeded defaults *)

Lemma seed_one_keeps (k v : jsstring) (m : gmap jsstring jsstring) (k' v' : jsstring) :
  m !! k' = Some v' ->
  match m !! k with Some _ => m | None => <[k := v]> m end !! k' = Some v'.
Proof.
  intros Hk'. destruct (m !! k) eqn:Hk; [done|].
  rewrite lookup_insert_ne; [done|]. intros ->. congruence.
Qed.

Lemma seed_union (k v : jsstring) (m rest : gmap jsstring jsstring) :
  match m !! k with Some _ => m | None => <[k := v]> m end ∪ rest = m ∪ <[k := v]> rest.
Proof.
  destruct (m !! k) as [x|] eqn:Hk.
  - apply map_eq. intros i. rewrite !lookup_union.
    destruct (decide (i = k)) as [->|Hne].
    + rewrite Hk, lookup_insert_eq. by destruct (rest !! k).
    + by rewrite lookup_insert_ne.
  - rewrite <- insert_union_l. by apply insert_union_r.
Qed.

(** X22: seeding never overwrites: whatever the storage layer does, a setting
    that had a value keeps it, and every other table is as before. On a
    store that answers, the settings afterwards are those there were,
    completed by the defaults for the keys that were missing. *)
Theorem seed_settings_completes_the_settings defaults w :
  (forall k v, app_settings (w_db w) !! k = Some v ->
               app_settings (w_db (snd (seed_settings defaults w))) !! k = Some v)
  /\ users (w_db (snd (seed_settings defaults w))) = users (w_db w)
  /\ (w_faults w = [] ->
      seed_settings defaults w
      = (Ok tt, set_db (with_app_settings (fun m => m ∪ list_to_map defaults) (w_db w)) w)).
Proof.
  split; [|split].
  - revert w. induction defaults as [|[k v] defaults IH]; intros w k' v' Hk'; [done|].
    cbn [seed_settings].
    apply (step_run_opt _ _ (fun d => app_settings d !! k' = Some v')); [done|].
    intros [] d' w1 [= <-] Hdb. apply IH. rewrite Hdb.
    cbn [app_settings with_app_settings]. by apply seed_one_keeps.
  - revert w. induction defaults as [|[k v] defaults IH]; intros w; [done|].
    cbn [seed_settings].
    apply (step_run_opt _ _ (fun d => users d = users (w_db w))); [done|].
    intros [] d' w1 [= <-] Hdb. rewrite IH. by rewrite Hdb.
  - revert w. induction defaults as [|[k v] defaults IH]; intros w Hf.
    + cbn [seed_settings list_to_map foldr ret]. f_equal.
      destruct w as [d txn f r n]. unfold set_db. cbn. f_equal.
      destruct d. unfold with_app_settings. cbn. f_equal. by rewrite (right_id_L ∅ (∪)).
    + cbn [seed_settings]. unfold bind. rewrite run_healthy by done.
      cbn [insert_setting_or_ignore]. rewrite IH by done. f_equal.
      destruct w as [d txn f r n]. unfold set_db. cbn. f_equal.
      destruct d. unfold with_app_settings. cbn. f_equal. apply seed_union.
Qed.

Lemma seed_settings_completes_the_settings_witness :
  let w := mkWorld (wallet_db 0 0 {[ js "tasks_per_day" := js "25" ]}) None [] [] noon in
  app_settings (w_db (snd (seed_settings DEFAULT_SETTINGS w))) !! js "tasks_per_day"
  = Some (js "25")
  /\ getIntSetting (js "min_withdraw_ksh") 0 (snd (seed_settings DEFAULT_SETTINGS w))
     = (Ok 200, snd (seed_settings DEFAULT_SETTINGS w)).
Proof.
  intros w.
  destruct (seed_settings_completes_the_settings DEFAULT_SETTINGS w) as (H1 & _ & H3).
  split.
  - apply H1. vm_compute. reflexivity.
  - rewrite H3 by reflexivity. vm_compute. reflexivity.
Defined.

(** ** Signing in *)

Section SignIn.

Variable zod_email : jsstring -> bool.
Variable bcrypt_hash : jsstring -> jsstring.
Variable bcrypt_compare : jsstring -> jsstring -> bool.

(** What [bcrypt.compare] promises of a hash made by [bcrypt.hash]. *)
Hypothesis compare_hash : forall p, bcrypt_compare p (bcrypt_hash p) = true.

Lemma login_found b mail password user w :
  parse_login zod_email b = Some (mail, password) ->
  w_faults w = [] ->
  user_by_email mail (w_db w) = Some user ->
  bcrypt_compare password (password_hash user) = true ->
  login zod_email bcrypt_compare b w = (Ok (mkResponse 200 (PToken (u_id user))), w).
Proof.
  intros Hparse Hf Hfound Hok. unfold login, try_catch. rewrite Hparse.
  unfold bind. rewrite query_healthy by done. by rewrite Hfound, Hok.
Qed.

Lemma find_email_credited referrer rb mail l :
  find (fun u => bool_decide (email u = mail)) (credited referrer rb l)
  = (fun u => match referrer with
              | Some rid => if (rid =? 0) || negb (0 <? rb) then u
                            else if u_id u =? rid then add_bonus rb u else u
              | None => u
              end) <$> find (fun u => bool_decide (email u = mail)) l.
Proof.
  unfold credited. destruct referrer as [rid|]; [|by destruct (find _ l)].
  destruct ((rid =? 0) || negb (0 <? rb)); [by destruct (find _ l)|].
  unfold credit_rows. apply find_map_same. intros x. by destruct (u_id x =? rid).
Qed.

(** X23: registration and signing in fit together: after a registration on
    the main server has answered 200, signing in with the address and
    the password of that registration, on a store that answers, gives a
    token for the same user. *)
Theorem register_then_login b data w uid w' b2 w2 :
  register zod_email bcrypt_hash b w = (Ok (mkResponse 200 (PToken uid)), w') ->
  parse_register zod_email b = Some data ->
  parse_login zod_email b2 = Some (rd_email data, rd_password data) ->
  w_db w2 = w_db w' -> w_faults w2 = [] ->
  login zod_email bcrypt_compare b2 w2 = (Ok (mkResponse 200 (PToken uid)), w2).
Proof.
  intros Hreg Hparse Hlogin Hdb Hf.
  assert (find (fun u => bool_decide (email u = rd_email data)) (users (w_db w)) = None)
    as Hfresh.
  { destruct (find _ (users (w_db w))) as [row|] eqn:Hrow; [|done]. exfalso.
    apply find_some in Hrow as [Hin Hmail%bool_decide_eq_true].
    destruct (register_again zod_email bcrypt_hash b data w Hparse) as (o & w0 & E & Hst & _).
    { exists row. split; [done|by left]. }
    rewrite Hreg in E. injection E as <- <-. done. }
  apply register_success in Hreg as (data' & code & Hparse' & Husers & _).
  rewrite Hparse in Hparse'. injection Hparse' as <-.
  set (new := mkUser uid _ _ _ _ _ _ _ _) in Husers.
  assert (exists user, user_by_email (rd_email data) (w_db w2) = Some user
                       /\ u_id user = uid
                       /\ password_hash user = bcrypt_hash (rd_password data))
    as (user & Hfound & Hid & Hhash).
  { unfold user_by_email. rewrite Hdb, Husers, find_email_credited.
    rewrite (find_app_none _ _ _ Hfresh). cbn [find new email].
    rewrite bool_decide_eq_true_2 by done. cbn [fmap option_fmap option_map].
    eexists. split; [done|].
    destruct (u_id <$> referrer_of (rd_referral data) (w_db w)) as [rid|]; [|done].
    destruct (_ || _); [done|]. by destruct (u_id new =? rid). }
  rewrite <- Hid. eapply login_found; try done. rewrite Hhash. apply compare_hash.
Qed.

(** X24: signing in writes nothing, whatever the storage layer does and
    whatever the body; an address nobody has and a wrong password are
    answered alike. *)
Theorem login_reads_only b w :
  same_store w (snd (login zod_email bcrypt_compare b w))
  /\ forall mail password,
       parse_login zod_email b = Some (mail, password) -> w_faults w = [] ->
       match user_by_email mail (w_db w) with
       | Some user =>
           bcrypt_compare password (password_hash user) = false ->
           fst (login zod_email bcrypt_compare b w)
           = Ok (mkResponse 400 (PError "Invalid credentials"))
       | None =>
           fst (login zod_email bcrypt_compare b w)
           = Ok (mkResponse 400 (PError "Invalid credentials"))
       end.
Proof.
  split.
  - unfold login. rewrite try_catch_ret_snd.
    destruct (parse_login zod_email b) as [[mail password]|]; [|apply same_store_refl].
    apply keeps_bind; [apply keeps_query|]. intros [user|]; [|apply keeps_ret].
    destruct (negb _); apply keeps_ret.
  - intros mail password Hparse Hf. unfold login, try_catch. rewrite Hparse.
    unfold bind. rewrite query_healthy by done.
    destruct (user_by_email mail (w_db w)) as [user|]; [|done].
    by intros ->.
Qed.

End SignIn.

Lemma register_then_login_witness :
  let w := mkWorld (wallet_db 200 950 ∅) None [] [] noon in
  let w' := snd (register any_address plain_hash (referred_body "referralCode") w) in
  login any_address plain_compare (login_body "brian@example.com" "secret1") w'
  = (Ok (mkResponse 200 (PToken 2)), w').
Proof.
  intros w w'.
  apply (register_then_login any_address plain_hash plain_compare
           ltac:(intros p; by apply bool_decide_eq_true_2)
           (referred_body "referralCode")
           (mkRegisterData (js "brian") (js "brian@example.com") (js "secret1") []
                           (js " AMINA1234 "))
           w 2 w'); by vm_compute.
Defined.

Lemma login_reads_only_witness :
  fst (login any_address plain_compare (login_body "amina@example.com" "guess")
         (mkWorld (wallet_db 200 950 ∅) None [] [] noon))
  = Ok (mkResponse 400 (PError "Invalid credentials")).
Proof.
  destruct (login_reads_only any_address plain_compare
              (login_body "amina@example.com" "guess")
              (mkWorld (wallet_db 200 950 ∅) None [] [] noon)) as [_ H].
  specialize (H (js "amina@example.com") (js "guess")).
  vm_compute in H. vm_compute. exact (H eq_refl eq_refl eq_refl).
Defined.

(** ** Changing the password *)

Section Password.

Variable zod_email : jsstring -> bool.
Variable bcrypt_hash : jsstring -> jsstring.
Variable bcrypt_compare : jsstring -> jsstring -> bool.
Hypothesis compare_hash : forall p, bcrypt_compare p (bcrypt_hash p) = true.

Lemma find_email_unique (l : list user) u :
  NoDup (List.map email l) -> In u l ->
  find (fun x => bool_decide (email x = email u)) l = Some u.
Proof.
  induction l as [|x l IH]; [done|]. cbn [List.map]. intros [Hx Hnd]%NoDup_cons [->|Hin].
  - simpl. by rewrite bool_decide_eq_true_2.
  - simpl. rewrite bool_decide_eq_false_2; [by apply IH|].
    intros Heq. apply Hx. rewrite Heq. by apply list_elem_of_In, in_map.
Qed.

(** X25: the password is changed only for who knows the current one: unless
    the body is well formed and its current password matches the stored
    hash of the caller, nothing is written, whatever the storage layer
    does. *)
Theorem change_password_needs_the_current_one uid b w :
  (forall current new user,
     parse_passwords b = Some (current, new) ->
     user_by_id uid (w_db w) = Some user ->
     bcrypt_compare current (password_hash user) = false) ->
  exists o w', change_password bcrypt_hash bcrypt_compare uid b w = (Ok o, w')
    /\ r_status o = 400 /\ same_store w w'.
Proof.
  intros Hwrong. unfold change_password, try_catch.
  destruct (parse_passwords b) as [[current new]|] eqn:Hparse.
  2: { do 2 eexists. split; [done|]. split; [done|apply same_store_refl]. }
  unfold bind at 1.
  destruct (query_cases (user_by_id uid) w) as [(w1 & -> & Hs)|(w1 & -> & Hs)].
  { by do 2 eexists. }
  destruct (user_by_id uid (w_db w)) as [user|] eqn:Huser.
  - rewrite (Hwrong current new user eq_refl eq_refl). by do 2 eexists.
  - by do 2 eexists.
Qed.

(** X26: once the password is changed, the new one signs in: after
    [change_password] has answered 200 for a user, signing in with the
    address of that user and the new password, on a store that answers
    and where addresses are unique, gives a token for that user. *)
Theorem change_password_then_login uid b current new user w w' b2 w2 :
  change_password bcrypt_hash bcrypt_compare uid b w = (Ok (mkReply 200 VOk), w') ->
  parse_passwords b = Some (current, new) ->
  NoDup (List.map email (users (w_db w))) ->
  user_by_id uid (w_db w) = Some user ->
  parse_login zod_email b2 = Some (email user, new) ->
  w_db w2 = w_db w' -> w_faults w2 = [] ->
  login zod_email bcrypt_compare b2 w2 = (Ok (mkResponse 200 (PToken uid)), w2).
Proof.
  intros Hchange Hparse Hnd Huser Hlogin Hdb Hf.
  unfold change_password in Hchange.
  apply try_catch_ok in Hchange as [H|(e & w1 & _ & [=])]. rewrite Hparse in H.
  apply bind_ok in H as (u & w1 & [-> (Hdb1 & _)]%query_ok & H). rewrite Huser in H.
  destruct (negb _); [done|].
  apply bind_ok in H as ([] & w3 & ([= Hw3] & _)%run_ok & [= <-]).
  rewrite Hdb1 in Hw3.
  apply find_some in Huser as [Hin Hid%Z.eqb_eq].
  assert (user_by_email (email user) (w_db w2)
          = Some (set_password_hash (bcrypt_hash new) user)) as Hfound.
  { unfold user_by_email. rewrite Hdb, <- Hw3. cbn [users update_user with_users].
    rewrite find_map_same.
    - rewrite (find_email_unique _ user Hnd Hin). cbn. by rewrite Hid, Z.eqb_refl.
    - intros x. by destruct (u_id x =? uid). }
  rewrite <- Hid.
  change (u_id user) with (u_id (set_password_hash (bcrypt_hash new) user)).
  eapply login_found; try done.
Qed.

End Password.

Lemma change_password_needs_the_current_one_witness :
  let b := JObj [(js "currentPassword", JStr (js "guess"));
                 (js "newPassword", JStr (js "letmein"))] in
  let w := mkWorld member_db None [] [] noon in
  exists o w', change_password plain_hash plain_compare 1 b w = (Ok o, w')
    /\ r_status o = 400 /\ same_store w w'.
Proof.
  intros b w. apply change_password_needs_the_current_one.
  intros current new user [= <- <-] [= <-]. by vm_compute.
Defined.

Lemma change_password_then_login_witness :
  let b := JObj [(js "currentPassword", JStr (js "secret1"));
                 (js "newPassword", JStr (js "letmein"))] in
  let w := mkWorld member_db None [] [] noon in
  let w' := snd (change_password plain_hash plain_compare 1 b w) in
  login any_address plain_compare (login_body "amina@example.com" "letmein") w'
  = (Ok (mkResponse 200 (PToken 1)), w').
Proof.
  intros b w w'.
  apply (change_password_then_login any_address plain_hash plain_compare
           ltac:(intros p; by apply bool_decide_eq_true_2)
           1 b (js "secret1") (js "letmein")
           (mkUser 1 (js "amina") (js "amina@example.com") (js "secret1")
                   (Some (js "AMINA1234")) None 200 950 None) w w'); try by vm_compute.
  apply (bool_decide_unpack _). by vm_compute.
Defined.

(** ** The figures of the referral page *)

Lemma clicks_spec k uid d txn rnd now u :
  user_by_id uid d = Some u -> ((0 < k)%nat -> 1000 * Z.of_nat k <= bonus_ksh u) ->
  exists d' u',
    clicks k uid (mkWorld d txn [] rnd now) = mkWorld d' txn [] rnd now
    /\ user_by_id uid d' = Some u'
    /\ balance_ksh u' = balance_ksh u + 1000 * Z.of_nat k
    /\ bonus_ksh u' = bonus_ksh u - 1000 * Z.of_nat k.
Proof.
  revert d u. induction k as [|k IH]; intros d u Hu Hk.
  { exists d, u. repeat split; try done; lia. }
  specialize (Hk ltac:(lia)).
  cbn [clicks]. rewrite (redeem_fixed_reached d txn rnd now uid u Hu) by lia. cbn [snd].
  set (d1 := with_bonus_redemptions _ _).
  assert (user_by_id uid d1 = Some (add_bonus (- 1000) (add_balance 1000 u))) as Hu1.
  { unfold d1, user_by_id. cbn [users with_bonus_redemptions].
    change (user_by_id uid (update_user uid (fun r => add_bonus (- 1000) (add_balance 1000 r)) d)
            = Some (add_bonus (- 1000) (add_balance 1000 u))).
    by apply (user_by_id_update uid (fun r => add_bonus (- 1000) (add_balance 1000 r)) d u). }
  destruct (IH d1 _ Hu1) as (d' & u' & -> & Hu' & Hbal & Hbon).
  { intros _. cbn [bonus_ksh add_bonus set_bonus add_balance set_balance]. lia. }
  exists d', u'. repeat split; try done.
  - rewrite Hbal. cbn [balance_ksh add_bonus set_bonus add_balance set_balance]. lia.
  - rewrite Hbon. cbn [bonus_ksh add_bonus set_bonus add_balance set_balance]. lia.
Qed.

(** X27: the redeemable amount the page shows is what the redeem button
    gives: it is a multiple of 1000 that leaves less than 1000 of bonus,
    that many thousands can be redeemed one after the other on a store
    that answers, which moves exactly the amount shown from the bonus
    to the balance, and the next attempt is refused. *)
Theorem stats_show_what_redeem_gives d txn rnd now uid u :
  user_by_id uid d = Some u ->
  let w := mkWorld d txn [] rnd now in
  let redeemable := if 1000 <=? bonus_ksh u then bonus_ksh u / 1000 * 1000 else 0 in
  let w' := clicks (Z.to_nat (redeemable / 1000)) uid w in
  (exists count,
     referral_stats uid w
     = (Ok (mkReply 200 (VStats (referral_code u) count (bonus_ksh u) redeemable
                                (balance_ksh u))), w))
  /\ 0 <= redeemable /\ bonus_ksh u - redeemable < 1000
  /\ balance_of uid (w_db w') = Some (balance_ksh u + redeemable)
  /\ bonus_of uid (w_db w') = Some (bonus_ksh u - redeemable)
  /\ fst (redeem_fixed uid w')
     = Ok (mkResponse 400 (PError "Bonus must reach KSH 1000 to redeem.")).
Proof.
  intros Hu w redeemable w'.
  assert (0 <= redeemable /\ bonus_ksh u - redeemable < 1000
          /\ (redeemable <= bonus_ksh u \/ redeemable = 0)
          /\ 1000 * Z.of_nat (Z.to_nat (redeemable / 1000)) = redeemable) as (H0 & H1 & H2 & H3).
  { unfold redeemable. destruct (1000 <=? bonus_ksh u) eqn:E.
    - apply Z.leb_le in E. rewrite Z.div_mul by lia.
      assert (0 <= bonus_ksh u / 1000) as Hq by (apply Z.div_pos; lia).
      rewrite Z2Nat.id by done.
      pose proof (Z.div_mod (bonus_ksh u) 1000 ltac:(lia)) as Hdm.
      pose proof (Z.mod_pos_bound (bonus_ksh u) 1000 ltac:(lia)) as Hm.
      generalize dependent (bonus_ksh u / 1000). generalize dependent (bonus_ksh u mod 1000).
      intros. lia.
    - apply Z.leb_gt in E. change (0 / 1000) with 0. simpl. lia. }
  split; [|split; [done|split; [done|]]].
  { unfold referral_stats, bind. subst w. healthy_step. rewrite Hu. healthy_step. by eexists. }
  destruct (clicks_spec (Z.to_nat (redeemable / 1000)) uid d txn rnd now u Hu)
    as (d' & u' & Hw' & Hu' & Hbal & Hbon).
  { intros Hpos. rewrite H3. destruct H2 as [?|H2]; [done|].
    rewrite H2 in Hpos. change (0 / 1000) with 0 in Hpos. simpl in Hpos. lia. }
  subst w'. unfold w. rewrite Hw'. cbn [w_db]. unfold balance_of, bonus_of. rewrite Hu'.
  cbn [fmap option_fmap option_map]. rewrite Hbal, Hbon, H3. repeat split.
  rewrite (redeem_fixed_below d' txn rnd now uid u' Hu'); [done|]. lia.
Qed.

Lemma stats_show_what_redeem_gives_witness :
  let w := mkWorld (wallet_db 200 2500 ∅) None [] [] noon in
  balance_of 1 (w_db (clicks 2 1 w)) = Some (200 + 2000)
  /\ bonus_of 1 (w_db (clicks 2 1 w)) = Some (2500 - 2000)
  /\ fst (redeem_fixed 1 (clicks 2 1 w))
     = Ok (mkResponse 400 (PError "Bonus must reach KSH 1000 to redeem.")).
Proof.
  intros w.
  destruct (stats_show_what_redeem_gives (wallet_db 200 2500 ∅) None [] noon 1
              (wallet_user 200 2500) eq_refl) as (_ & _ & _ & Hbal & Hbon & Hnext).
  exact (conj Hbal (conj Hbon Hnext)).
Defined.

(** ** A registration shows on the page of the referrer *)

Lemma filter_map_same_length {A} (p : A -> bool) (g : A -> A) l :
  (forall x, p (g x) = p x) ->
  length (List.filter p (List.map g l)) = length (List.filter p l).
Proof.
  intros Hg. induction l as [|x l IH]; [done|]. simpl. rewrite Hg.
  destruct (p x); simpl; by rewrite IH.
Qed.

Lemma referred_count_credited referrer rb l uid' :
  length (List.filter (fun u => bool_decide (referred_by u = Some uid')) (credited referrer rb l))
  = length (List.filter (fun u => bool_decide (referred_by u = Some uid')) l).
Proof.
  unfold credited. destruct referrer as [rid|]; [|done].
  destruct (_ || _); [done|]. unfold credit_rows.
  apply filter_map_same_length. intros x. by destruct (u_id x =? rid).
Qed.

Lemma referral_status_healthy uid w :
  w_faults w = [] ->
  referral_status uid w
  = (Ok (mkReply 200 (VStatus (referred_count uid (w_db w))
                              (default 0 (bonus_of uid (w_db w))))), w).
Proof. intros Hf. unfold referral_status, bind. by do 2 healthy_step. Qed.

(** X28: a registration with the code of a user shows on that user's page:
    after a registration on the main server has answered 200, the
    number of referrals GET /api/referrals/status reports is one more
    than before for the referrer named by the code, and as before for
    everybody else. *)
Theorem register_counts_as_a_referral zod_email bcrypt_hash b w uid w' w1 w2 rid :
  register zod_email bcrypt_hash b w = (Ok (mkResponse 200 (PToken uid)), w') ->
  w_db w1 = w_db w -> w_faults w1 = [] -> w_db w2 = w_db w' -> w_faults w2 = [] ->
  exists data n bonus bonus',
    parse_register zod_email b = Some data
    /\ fst (referral_status rid w1) = Ok (mkReply 200 (VStatus n bonus))
    /\ fst (referral_status rid w2)
       = Ok (mkReply 200
               (VStatus (if bool_decide (u_id <$> referrer_of (rd_referral data) (w_db w)
                                         = Some rid)
                         then n + 1 else n) bonus')).
Proof.
  intros (data & code & Hparse & Husers & _)%register_success Hdb1 Hf1 Hdb2 Hf2.
  exists data, (referred_count rid (w_db w1)), (default 0 (bonus_of rid (w_db w1))),
         (default 0 (bonus_of rid (w_db w2))).
  rewrite !referral_status_healthy by done. cbn [fst]. repeat split; try done.
  do 3 f_equal. unfold referred_count.
  rewrite Hdb2, Hdb1, Husers, referred_count_credited, List.filter_app, length_app.
  cbn [List.filter referred_by].
  destruct (decide (u_id <$> referrer_of (rd_referral data) (w_db w) = Some rid)) as [E|E].
  - rewrite !bool_decide_eq_true_2 by done. simpl. lia.
  - rewrite !bool_decide_eq_false_2 by done. simpl. lia.
Qed.

Lemma register_counts_as_a_referral_witness :
  let w := mkWorld (wallet_db 200 950 ∅) None [] [] noon in
  let w' := snd (register any_address plain_hash (referred_body "referralCode") w) in
  exists bonus bonus',
    fst (referral_status 1 w) = Ok (mkReply 200 (VStatus 0 bonus))
    /\ fst (referral_status 1 w') = Ok (mkReply 200 (VStatus 1 bonus')).
Proof.
  intros w w'.
  destruct (register_counts_as_a_referral any_address plain_hash
              (referred_body "referralCode") w 2 w' w w' 1)
    as (data & n & bonus & bonus' & Hparse & H1 & H2); try by vm_compute.
  exists bonus, bonus'.
  assert (n = 0) as -> by (vm_compute in H1; by injection H1).
  split; [done|]. rewrite H2. injection Hparse as <-. by vm_compute.
Defined.

(** ** The activation row *)

Lemma sync_fee_spares uid fee d a :
  In a (activation_fees d) -> af_paid a = true \/ af_user_id a <> uid ->
  In a (activation_fees (sync_fee uid fee d)).
Proof.
  intros Hin Hkeep. unfold sync_fee. cbn [activation_fees with_activation_fees].
  apply in_map_iff. exists a. split; [|done].
  destruct Hkeep as [->|Hne]; [by rewrite andb_false_r|].
  apply Z.eqb_neq in Hne. by rewrite Hne.
Qed.

Lemma insert_activation_spares uid fee d d' a :
  insert_activation uid fee d = Some (tt, d') ->
  In a (activation_fees d) -> In a (activation_fees d').
Proof.
  unfold insert_activation. destruct (existsb _ _); [by intros [= <-]|].
  destruct (has_user d uid); [|done]. intros [= <-] Hin.
  cbn [activation_fees with_activation_fees]. apply in_or_app. by left.
Qed.

Lemma sync_fee_twice uid fee d :
  sync_fee uid fee (sync_fee uid fee d) = sync_fee uid fee d.
Proof.
  unfold sync_fee, with_activation_fees. cbn. f_equal.
  rewrite List.map_map. apply map_ext. intros a.
  destruct ((af_user_id a =? uid) && negb (af_paid a)) eqn:E; cbn; by rewrite E.
Qed.

(** X29: [ensureActivationRow] never touches a paid row nor the row of
    another user, whatever the storage layer does; on a store that
    answers, for a user who exists, it leaves a row for that user, every
    unpaid row of the user carries the fee of KSH 100, and a second
    call changes nothing. *)
Theorem ensureActivationRow_spares_paid_rows userId w :
  (forall a, In a (activation_fees (w_db w)) ->
             af_paid a = true \/ af_user_id a <> userId ->
             In a (activation_fees (w_db (snd (ensureActivationRow userId w)))))
  /\ (w_faults w = [] -> has_user (w_db w) userId = true ->
      exists w', ensureActivationRow userId w = (Ok tt, w')
        /\ w_faults w' = []
        /\ (exists a, In a (activation_fees (w_db w')) /\ af_user_id a = userId)
        /\ Forall (fun a => af_user_id a = userId -> af_paid a = false -> fee_ksh a = 100)
                  (activation_fees (w_db w'))
        /\ ensureActivationRow userId w' = (Ok tt, w')).
Proof.
  split.
  - intros a Hin Hkeep. unfold ensureActivationRow. cbv zeta.
    apply (step_run_opt _ _ (fun d => In a (activation_fees d))); [done|].
    intros [] d1 w1 Hins Hdb1.
    assert (In a (activation_fees (w_db w1))) as Hin1.
    { rewrite Hdb1. by eapply insert_activation_spares. }
    destruct (run_cases (fun d => Some (tt, sync_fee userId ACTIVATION_FEE_KSH d)) w1)
      as (w0 & (Hdb0 & _) & [->|[[? ->]|(? & d2 & Hd2 & ->)]]); simpl.
    + by rewrite Hdb0.
    + by rewrite Hdb0.
    + simplify_eq. by apply sync_fee_spares.
  - intros Hf Hu. destruct w as [d txn faults rnd now]. cbn [w_faults w_db] in *. subst faults.
    assert (exists d1, insert_activation userId ACTIVATION_FEE_KSH d = Some (tt, d1)
              /\ has_user d1 userId = true
              /\ existsb (fun a => af_user_id a =? userId) (activation_fees d1) = true)
      as (d1 & Hins & Hu1 & Hrow).
    { unfold insert_activation. destruct (existsb _ (activation_fees d)) eqn:E.
      - by exists d.
      - rewrite Hu. eexists. split; [done|]. split; [done|].
        cbn [activation_fees with_activation_fees]. rewrite existsb_app. cbn.
        by rewrite Z.eqb_refl, orb_true_r. }
    set (d2 := sync_fee userId ACTIVATION_FEE_KSH d1).
    assert (Forall (fun a => af_user_id a = userId -> af_paid a = false -> fee_ksh a = 100)
                   (activation_fees d2)) as Hfee.
    { apply Forall_forall. intros a (a0 & <- & Ha0)%list_elem_of_In%in_map_iff.
      destruct ((af_user_id a0 =? userId) && negb (af_paid a0)) eqn:E; [done|].
      intros Hid%Z.eqb_eq Hp. exfalso. by rewrite Hid, Hp in E. }
    assert (existsb (fun a => af_user_id a =? userId) (activation_fees d2) = true) as Hrow2.
    { apply existsb_exists in Hrow as (a & Ha & Hid). apply existsb_exists.
      eexists. split; [unfold d2, sync_fee; cbn [activation_fees with_activation_fees];
                       apply in_map, Ha|].
      by destruct (_ && _). }
    assert (sync_fee userId ACTIVATION_FEE_KSH d2 = d2) as Hidem
      by apply sync_fee_twice.
    exists (mkWorld d2 txn [] rnd now).
    unfold ensureActivationRow, bind. cbv zeta.
    rewrite run_healthy by done. cbn [w_db]. rewrite Hins. rewrite run_healthy by done.
    split; [done|]. split; [done|]. split.
    { apply existsb_exists in Hrow2 as (a & Ha & Hid%Z.eqb_eq). by exists a. }
    split; [done|].
    rewrite run_healthy by done. cbn [w_db]. unfold insert_activation. rewrite Hrow2.
    rewrite run_healthy by done. cbn [w_db set_db]. by rewrite Hidem.
Qed.

Lemma ensureActivationRow_spares_paid_rows_witness :
  exists w', ensureActivationRow 1 (mkWorld (wallet_db 0 0 ∅) None [] [] noon) = (Ok tt, w')
    /\ activation_fees (w_db w') = [mkActivation 1 100 0 false]
    /\ ensureActivationRow 1 w' = (Ok tt, w').
Proof.
  destruct (ensureActivationRow_spares_paid_rows 1 (mkWorld (wallet_db 0 0 ∅) None [] [] noon))
    as [_ H].
  destruct H as (w' & H1 & _ & _ & _ & H5); [done|done|].
  exists w'. split; [done|]. split; [|done].
  vm_compute in H1. by injection H1 as <-.
Defined.

(** ** The allocation in two steps *)

Lemma bind_assoc {A B C} (m : M A) (f : A -> M B) (g : B -> M C) w :
  bind (bind m f) g w = bind m (fun x => bind (f x) g) w.
Proof. unfold bind. by destruct (m w) as [[a|e|] w']. Qed.

Lemma bind_ext {A B} (m : M A) (k k' : A -> M B) w :
  (forall a w1, k a w1 = k' a w1) -> bind m k w = bind m k' w.
Proof. intros H. unfold bind. by destruct (m w) as [[a|e|] w']. Qed.

(** [ensureDailyTasks] is the selection followed by the last loop. *)
Lemma ensureDailyTasks_choose_insert fuel uid day w :
  ensureDailyTasks fuel uid day w
  = (chosen <- choose_picks fuel uid day ;; insert_chosen uid day chosen) w.
Proof.
  unfold ensureDailyTasks, choose_picks. symmetry.
  do 3 (rewrite bind_assoc; apply bind_ext; intros ? ?).
  rewrite bind_assoc. apply bind_ext. intros user w4.
  destruct user as [user|]; [|done].
  do 2 (rewrite bind_assoc; apply bind_ext; intros ? ?).
  destruct (_ <=? _); [done|].
  do 8 (rewrite bind_assoc; apply bind_ext; intros ? ?).
  done.
Qed.

Lemma active_id_has_task d tid : active_id d tid -> has_task d tid = true.
Proof.
  intros (t & Hin & Hid & _). unfold has_task. apply existsb_exists.
  exists t. split; [done|]. by apply Z.eqb_eq.
Qed.

(** The selection on a store that answers: with 251 turns of the
    [while] loop for each task of the daily limit it returns, the picks
    are keys of active tasks, and with the rows of the day they stay
    within the limit and, when a task is active, reach it. *)
Lemma choose_picks_healthy d txn rnd now uid day fuel :
  (251 * Z.to_nat (setting_of d (js "tasks_per_day") 10) <= fuel)%nat ->
  exists chosen w1,
    choose_picks fuel uid day (mkWorld d txn [] rnd now) = (Ok chosen, w1)
    /\ w_db w1 = cleaned d /\ w_faults w1 = [] /\ w_now w1 = now
    /\ match chosen with
       | None =>
           has_user d uid = false
           \/ setting_of d (js "tasks_per_day") 10
              <= Z.of_nat (count_rows uid day (cleaned d))
       | Some ids =>
           has_user d uid = true
           /\ Z.of_nat (count_rows uid day (cleaned d)) < setting_of d (js "tasks_per_day") 10
           /\ Forall (active_id d) ids
           /\ Z.of_nat (length ids + count_rows uid day (cleaned d))
              <= setting_of d (js "tasks_per_day") 10
           /\ (active_tasks d <> [] ->
               Z.of_nat (length ids + count_rows uid day (cleaned d))
               = setting_of d (js "tasks_per_day") 10)
       end.
Proof.
  intros Hfuel. unfold choose_picks, bind.
  do 4 healthy_step. fold (cleaned d).
  destruct (user_by_id uid (cleaned d)) as [user|] eqn:Huser.
  2: { exists None, (mkWorld (cleaned d) txn [] rnd now). do 4 (split; [done|]). left.
       destruct (has_user d uid) eqn:Hu; [|done].
       apply has_user_found in Hu as [u Hu]. unfold user_by_id in *. simpl in Huser. congruence. }
  assert (has_user d uid = true) as Hu.
  { apply (found_has_user uid (cleaned d) user) in Huser. exact Huser. }
  healthy_step. rewrite (setting_of_ext d (cleaned d)) by done.
  set (limit := setting_of d (js "tasks_per_day") 10) in *.
  healthy_step. rewrite existing_ids_length.
  destruct (limit <=? _) eqn:Hfull.
  { exists None, (mkWorld (cleaned d) txn [] rnd now). do 4 (split; [done|]). right.
    by apply Z.leb_le in Hfull. }
  apply Z.leb_gt in Hfull.
  do 4 healthy_step.
  set (w1 := set_db (cleaned d) _).
  set (catRows := distinct_active category (cleaned d)).
  destruct (shuffle_draws (length catRows - 1) catRows w1)
    as (categories & w2 & E0 & ((Hdb2 & _ & Hnow2) & Hf2)). rewrite E0.
  set (existing := existing_ids uid day (cleaned d)).
  set (p0 := mkPicker _ _ []).
  assert (picks_fit limit existing p0) as Hfit0.
  { unfold picks_fit. simpl. subst existing. rewrite existing_ids_length. lia. }
  pose (I := fun p : picker => Forall (active_id (cleaned d)) (picks p)).
  assert (forall row p, In row (active_tasks (cleaned d)) -> t_type row ∉ used p ->
                        I p -> I (pick row p)) as Ipick.
  { intros row p Hin _ Hp. unfold I, pick. cbn [picks]. apply Forall_app. split; [done|].
    constructor; [|done]. by apply active_tasks_active_id. }
  assert (forall p, I p -> I (clear_used p)) as Iclear by done.
  assert (I p0) as HI0 by constructor.
  assert (w_db w2 = cleaned d) as Hd2 by (rewrite Hdb2; done).
  destruct (pass_categories_facts limit existing categories p0 w2)
    as (o1 & w3 & E1 & ((Hdb3 & _ & Hnow3) & Hp1 & Hf3) & _ & Hret1).
  destruct (Hret1 Hf2) as (p1 & ->). rewrite E1.
  destruct (Hp1 p1 eq_refl) as [Hfit1 _].
  specialize (Hfit1 Hfit0). specialize (Hf3 Hf2).
  pose proof (pass_categories_inv I (cleaned d) Ipick _ _ _ _ _ _ _ Hd2 E1 HI0) as HI1.
  assert (w_db w3 = cleaned d) as Hd3 by congruence.
  destruct (pass_types_facts limit existing
              match distinct_active t_type (cleaned d) with
              | [] => FALLBACK_TYPES | _ :: _ => distinct_active t_type (cleaned d) end p1 w3)
    as (o2 & w4 & E2 & ((Hdb4 & _ & Hnow4) & Hp2 & Hf4) & _ & Hret2).
  destruct (Hret2 Hf3) as (p2 & ->). rewrite E2.
  destruct (Hp2 p2 eq_refl) as [Hfit2 _].
  specialize (Hfit2 Hfit1). specialize (Hf4 Hf3).
  pose proof (pass_types_inv I (cleaned d) Ipick _ _ _ _ _ _ _ Hd3 E2 HI1) as HI2.
  assert (w_db w4 = cleaned d) as Hd4 by congruence.
  destruct (fill_facts fuel limit existing 0 p2 w4)
    as (o3 & w5 & E3 & ((Hdb5 & _ & Hnow5) & Hp3 & Hf5) & Hret3).
  destruct (Hret3 Hf4 ltac:(lia)) as (p3 & -> & Hfull3).
  { pose proof (wanted_le limit existing p2). lia. }
  rewrite E3.
  destruct (Hp3 p3 eq_refl) as [Hfit3 _].
  specialize (Hfit3 Hfit2). specialize (Hf5 Hf4).
  pose proof (fill_inv I (cleaned d) Ipick Iclear _ _ _ _ _ _ _ _ Hd4 E3 HI2) as HI3.
  exists (Some (picks p3)), w5. split; [done|].
  split; [congruence|]. split; [done|].
  split; [rewrite Hnow5, Hnow4, Hnow3, Hnow2; done|].
  split; [done|]. split; [done|]. split.
  { eapply Forall_impl; [exact HI3|]. intros tid. by apply active_id_ext. }
  unfold picks_fit in Hfit3. subst existing. rewrite existing_ids_length in *.
  split; [done|].
  intros Hactive.
  assert (full limit (existing_ids uid day (cleaned d)) p3 = true) as Hfull'.
  { apply Hfull3. by rewrite Hd4. }
  unfold full in Hfull'. apply Z.leb_le in Hfull'. rewrite existing_ids_length in Hfull'. lia.
Qed.

(** C6, as amended: on a store that answers, [ensureDailyTasks] returns
    on every catalog, 251 turns of the relaxation loop for each task of
    the daily limit being enough. For a user that exists and has fewer
    rows than the limit, the picks the selection has made, each the key
    of an active task, number with the rows already there exactly the
    daily limit when the active catalog is not empty; each pick is then
    stored by INSERT OR IGNORE, and the rows of the day end at most at
    the limit. *)
Theorem ensureDailyTasks_terminates d txn rnd now uid day fuel :
  (251 * Z.to_nat (setting_of d (js "tasks_per_day") 10) <= fuel)%nat ->
  exists chosen w1 w',
    choose_picks fuel uid day (mkWorld d txn [] rnd now) = (Ok chosen, w1)
    /\ ensureDailyTasks fuel uid day (mkWorld d txn [] rnd now) = (Ok tt, w')
    /\ w_db w' = store_picks uid day now (default [] chosen) (cleaned d)
    /\ (has_user d uid = true ->
        Z.of_nat (count_rows uid day (cleaned d)) < setting_of d (js "tasks_per_day") 10 ->
        exists ids,
          chosen = Some ids
          /\ Forall (active_id d) ids
          /\ (active_tasks d <> [] ->
              Z.of_nat (length ids + count_rows uid day (cleaned d))
              = setting_of d (js "tasks_per_day") 10)
          /\ Z.of_nat (count_rows uid day (w_db w'))
             <= setting_of d (js "tasks_per_day") 10).
Proof.
  intros Hfuel.
  destruct (choose_picks_healthy d txn rnd now uid day fuel Hfuel)
    as (chosen & w1 & E & Hdb1 & Hf1 & Hnow1 & Hchosen).
  exists chosen, w1. rewrite ensureDailyTasks_choose_insert. unfold bind at 1. rewrite E.
  destruct chosen as [ids|]; cbn [insert_chosen default].
  - destruct Hchosen as (Hu & Hlt & Hact & Hle & Hfull).
    unfold bind, clock.
    destruct (insert_picks_healthy uid day (w_now w1) ids w1) as (w' & E' & Hdb').
    + done.
    + by rewrite Hdb1.
    + rewrite Hdb1. eapply Forall_impl; [exact Hact|]. intros tid Ht.
      apply active_id_has_task. by eapply active_id_ext; [|exact Ht].
    + exists w'. split; [done|]. split; [done|]. split; [by rewrite Hdb', Hdb1, Hnow1|].
      intros _ _. exists ids. split; [done|]. split; [done|]. split; [done|].
      destruct (insert_picks_grown uid day (w_now w1) ids w1)
        as (o & w2 & E2 & _ & (_ & _ & _ & _ & Hcnt)).
      rewrite E' in E2. injection E2 as <- <-. rewrite Hdb1 in Hcnt. lia.
  - exists w1. split; [done|]. split; [done|]. split; [done|].
    intros Hu Hlt. destruct Hchosen as [Hno|Hge]; [congruence|lia].
Qed.

Lemma ensureDailyTasks_terminates_witness :
  exists ids w1 w',
    choose_picks 2510 1 (nairobi_day noon) (mkWorld catalog3_db None [] [] noon)
    = (Ok (Some ids), w1)
    /\ ensureDailyTasks 2510 1 (nairobi_day noon) (mkWorld catalog3_db None [] [] noon)
       = (Ok tt, w')
    /\ w_db w' = store_picks 1 (nairobi_day noon) noon ids (cleaned catalog3_db)
    /\ length ids = 10%nat
    /\ Z.of_nat (count_rows 1 (nairobi_day noon) (w_db w')) <= 10.
Proof.
  destruct (ensureDailyTasks_terminates catalog3_db None [] noon 1 (nairobi_day noon) 2510)
    as (chosen & w1 & w' & E1 & E2 & Hdb & H).
  { vm_compute. lia. }
  destruct H as (ids & -> & _ & Hfull & Hle); [reflexivity|vm_compute; reflexivity|].
  exists ids, w1, w'. split; [exact E1|]. split; [exact E2|]. split; [exact Hdb|].
  split; [|exact Hle].
  specialize (Hfull ltac:(discriminate)).
  change (count_rows 1 (nairobi_day noon) (cleaned catalog3_db)) with 0%nat in Hfull.
  change (setting_of catalog3_db (js "tasks_per_day") 10) with 10 in Hfull. lia.
Defined.

(** ** Two calls at once *)

(** Two calls in flight at once, which C2 as amended leaves aside: with
    a limit of 2 and four active tasks, two calls for the same user and
    day that both read the rows of the day before either inserts choose
    two tasks each, and the user ends with four rows. *)
Lemma overlapping_calls_pass_the_limit :
  let day := nairobi_day noon in
  let w := mkWorld quartet_db None [] [0; 0; 0; 0; 0; 1; 2; 1; 0; 0]%nat noon in
  setting_of quartet_db (js "tasks_per_day") 10 = 2
  /\ fst (choose_picks 0 1 day w) = Ok (Some [4; 3])
  /\ fst (choose_picks 0 1 day (snd (choose_picks 0 1 day w))) = Ok (Some [2; 1])
  /\ fst (overlapping_calls 0 1 day w) = Ok tt
  /\ existing_ids 1 day (w_db (snd (overlapping_calls 0 1 day w))) = [4; 3; 2; 1].
Proof. vm_compute. repeat split. Qed.
